(** * daug.py: image augmentation transforms over numpy arrays

    A shallow embedding of [src/daug.py], in four parts:

    - [py] and [nd]: the Python and numpy operations the module calls
      (index normalisation, slices, [int()], flips, transposition,
      [np.rot90], [np.roll], row and column access), as pure functions on
      array contents;
    - objects and store: Python values with identity, a store of numpy
      arrays and a state-and-exception monad [M]; module [np] lifts the
      [nd] operations to array objects;
    - the functions of daug.py, each written as in the source: a call to
      [_force_RGB_array] followed by the remaining statements of the
      function, which are named [<function>_body];
    - the properties: what the normalizer, and with it every public
      function, does on every input, and what the statements after the
      normalizer call do on a normalized image.

    The script [src/lisa_processor.py] is embedded in module [lisa].

    Samples and zoom factors are rationals: a Python float is modelled
    by the rational it denotes and arithmetic on it is exact. Binary64
    rounding is not modelled; [.5], [1] and [2.] are exact in both, and
    [zoom_bounds_as_in_binary64] compares the two on sample extents. An
    array is a nested list, so arrays with an empty axis are identified
    by their contents. *)

From Stdlib Require Import ZArith QArith Qround Lia Lqa SpecFloat.
From stdpp Require Import base list gmap strings pretty.

Local Open Scope Z_scope.

(** ** Exceptions and pure results *)

Inductive exn : Type :=
  | TypeError
  | ValueError
  | IndexError
  | AttributeError
  | AxisError.

Inductive result (A : Type) : Type :=
  | Ok (a : A)
  | Raise (e : exn).
Arguments Ok {A} a.
Arguments Raise {A} e.

Definition rbind {A B} (r : result A) (k : A → result B) : result B :=
  match r with
  | Ok a => k a
  | Raise e => Raise e
  end.

(** ** Python integers, indices and slices *)

Module py.

(** [seq[i]] on an axis of extent [n]: negative indices count from the
    end, anything outside [-n, n) raises IndexError. *)
Definition index (n : nat) (i : Z) : result nat :=
  if bool_decide (0 ≤ i < Z.of_nat n) then Ok (Z.to_nat i)
  else if bool_decide (- Z.of_nat n ≤ i < 0) then Ok (Z.to_nat (i + Z.of_nat n))
  else Raise IndexError.

(** A slice bound on an axis of extent [n] (step 1): negative bounds
    count from the end and the result is clipped to [0, n]. *)
Definition slice_bound (n : nat) (i : Z) : nat :=
  if i <? 0 then Z.to_nat (Z.max 0 (i + Z.of_nat n))
  else Z.to_nat (Z.min i (Z.of_nat n)).

(** [l[lo:hi]] *)
Definition slice {A} (lo hi : Z) (l : list A) : list A :=
  let n := length l in
  let a := slice_bound n lo in
  let b := slice_bound n hi in
  take (b - a)%nat (drop a l).

(** [l[lo:]] and [l[:hi]] *)
Definition slice_from {A} (lo : Z) (l : list A) : list A :=
  drop (slice_bound (length l) lo) l.
Definition slice_to {A} (hi : Z) (l : list A) : list A :=
  take (slice_bound (length l) hi) l.

(** [int(x)] on a float: truncation toward zero. *)
Definition int (x : Q) : Z := Z.quot (Qnum x) (Z.pos (Qden x)).

(** [range(n)] *)
Definition range (n : Z) : list Z := Z.of_nat <$> seq 0 (Z.to_nat n).

(** [x > y] and [x <= y] on numbers *)
Definition gt (x y : Q) : bool := negb (Qle_bool x y).
Definition le (x y : Q) : bool := Qle_bool x y.

End py.

(** ** Array contents *)

(** A rank-3 array (height, width, channel) as rows of pixels. *)
Abbreviation pixel T := (list T) (only parsing).
Abbreviation row T := (list (list T)) (only parsing).
Abbreviation image T := (list (list (list T))) (only parsing).

Module nd.
Section contents.
Context {T : Type}.
Implicit Types (a : image T) (r : row T).

(** [a.shape[0]] and [a.shape[1]] *)
Definition nrows a : nat := length a.
Definition ncols a : nat :=
  match a with
  | [] => 0%nat
  | r :: _ => length r
  end.

(** [np.flipud] reverses axis 0, [np.fliplr] reverses axis 1. *)
Definition flipud a : image T := reverse a.
Definition fliplr a : image T := reverse <$> a.

(** [np.transpose(m, (1, 0, 2))] *)
Definition column (j : nat) a : row T := (λ r, r !!! j) <$> a.
Definition transpose a : image T := (λ j, column j a) <$> seq 0 (ncols a).

(** [np.rot90(m, k)] with the default axes (0, 1), as in numpy's
    function_base: [k %= 4]; 0 is [m[:]], 2 is
    [flip(flip(m, 0), 1)], 1 is [transpose(flip(m, 1))] and 3 is
    [flip(transpose(m), 1)]. *)
Definition rot90 a (k : Z) : image T :=
  match k `mod` 4 with
  | 0 => a
  | 1 => transpose (fliplr a)
  | 2 => fliplr (flipud a)
  | _ => fliplr (transpose a)
  end.

(** [np.roll] along one axis of extent [length l]:
    [offset = shift % (n or 1)], then [result[offset:] = a[:-offset]]
    and [result[:offset] = a[-offset:]]. *)
Definition roll {A} (l : list A) (shift : Z) : list A :=
  let n := length l in
  let offset := Z.to_nat (shift `mod` (if decide (n = 0%nat) then 1 else Z.of_nat n)) in
  drop (n - offset)%nat l ++ take (n - offset)%nat l.

Definition roll_rows a (shift : Z) : image T := roll a shift.
Definition roll_cols a (shift : Z) : image T := (λ r, roll r shift) <$> a.

(** [a[i, :, :]] and [a[i, :, :] = r] *)
Definition getrow a (i : Z) : result (row T) :=
  rbind (py.index (nrows a) i) (λ k, Ok (a !!! k)).
Definition setrow a (i : Z) r : result (image T) :=
  rbind (py.index (nrows a) i) (λ k, Ok (<[k := r]> a)).

(** [a[:, j, :]] and [a[:, j, :] = c] *)
Definition getcol a (j : Z) : result (row T) :=
  rbind (py.index (ncols a) j) (λ k, Ok (column k a)).
Definition setcol a (j : Z) (c : row T) : result (image T) :=
  rbind (py.index (ncols a) j) (λ k, Ok (zip_with (λ r p, <[k := p]> r) a c)).

(** [a[r0:r1, c0:c1, :]] *)
Definition window (r0 r1 c0 c1 : Z) a : image T :=
  py.slice c0 c1 <$> py.slice r0 r1 a.

(** [a[bnd:, :, :] = b[bnd:, :, :]] and [a[:bnd, :, :] = b[:bnd, :, :]]
    for arrays of one shape. *)
Definition assign_rows_from (bnd : Z) a (b : image T) : image T :=
  py.slice_to bnd a ++ py.slice_from bnd b.
Definition assign_rows_to (bnd : Z) a (b : image T) : image T :=
  py.slice_to bnd b ++ py.slice_from bnd a.

(** [a[:, bnd:, :] = b[:, bnd:, :]] and [a[:, :bnd, :] = b[:, :bnd, :]] *)
Definition assign_cols_from (bnd : Z) a (b : image T) : image T :=
  zip_with (λ r s, py.slice_to bnd r ++ py.slice_from bnd s) a b.
Definition assign_cols_to (bnd : Z) a (b : image T) : image T :=
  zip_with (λ r s, py.slice_to bnd s ++ py.slice_from bnd r) a b.

(** [np.dstack([g, g, g])] of a rank-2 array *)
Definition dstack3 (g : list (list T)) : image T :=
  (λ l : list T, (λ x, [x; x; x]) <$> l) <$> g.

(** Shape (H, W, 3). *)
Definition rect (H W : nat) a : Prop :=
  length a = H ∧ Forall (λ r, length r = W ∧ Forall (λ p, length p = 3%nat) r) a.

End contents.
End nd.

(** ** Objects, the store and the monad *)

Abbreviation sample := Q (only parsing).
Abbreviation loc := nat (only parsing).

(** The contents of a numpy array, by rank. Only ranks 2 and 3 are
    acted upon by the module; [RankHigh extra] has rank [4 + extra]. *)
Inductive ndarray : Type :=
  | Rank0
  | Rank1 (l : list sample)
  | Rank2 (g : list (list sample))
  | Rank3 (a : image sample)
  | RankHigh (extra : nat).

Definition ndim (x : ndarray) : nat :=
  match x with
  | Rank0 => 0
  | Rank1 _ => 1
  | Rank2 _ => 2
  | Rank3 _ => 3
  | RankHigh extra => 4 + extra
  end.

(** Python values that reach the module: [None], a [numpy.ndarray]
    object (a reference into the store) and an array-like that is not an
    ndarray (nested lists, a PIL image), given by the array that
    [np.array] builds from it. *)
Inductive pyval : Type :=
  | VNone
  | VArr (p : loc)
  | VLike (x : ndarray).

Abbreviation store := (gmap loc ndarray) (only parsing).

(** The outcome of running a statement sequence: normal completion or an
    exception, each with the store reached. [Stuck] marks what the model
    leaves out: a reference that is not in the store, and a value that
    is neither [None] nor a rank-3 array object where the statements
    after the normalizer take the normalizer's result. *)
Inductive outcome (A : Type) : Type :=
  | Returns (v : A) (σ : gmap loc ndarray)
  | Raises (e : exn) (σ : gmap loc ndarray)
  | Stuck.
Arguments Returns {A} v σ.
Arguments Raises {A} e σ.
Arguments Stuck {A}.

Definition M (A : Type) : Type := gmap loc ndarray → outcome A.

#[global] Instance M_ret : MRet M := λ A v σ, Returns v σ.
#[global] Instance M_bind : MBind M := λ A B k m σ,
  match m σ with
  | Returns v σ' => k v σ'
  | Raises e σ' => Raises e σ'
  | Stuck => Stuck
  end.

Definition raise {A} (e : exn) : M A := λ σ, Raises e σ.

Definition lift {A} (r : result A) : M A :=
  match r with
  | Ok a => mret a
  | Raise e => raise e
  end.

#[global] Instance M_fmap : FMap M := λ A B f m, v ← m; mret (f v).

Definition fresh_loc (σ : gmap loc ndarray) : loc := fresh (dom σ).

(** A new array object. *)
Definition new_array (x : ndarray) : M pyval := λ σ,
  Returns (VArr (fresh_loc σ)) (<[fresh_loc σ := x]> σ).

(** In-place replacement of the contents of the array at [p]. *)
Definition write (p : loc) (x : ndarray) : M () := λ σ,
  Returns () (<[p := x]> σ).

(** Continue with the reference and contents of the rank-3 array [v];
    [None] raises [on_none]. *)
Definition on_rgb {A} (on_none : exn) (v : pyval)
    (k : loc → image sample → M A) : M A := λ σ,
  match v with
  | VNone => Raises on_none σ
  | VArr p =>
      match σ !! p with
      | Some (Rank3 a) => k p a σ
      | _ => Stuck
      end
  | VLike _ => Stuck
  end.

(** [for x in l: body(x)] *)
Fixpoint for_each {A} (l : list A) (body : A → M ()) : M () :=
  match l with
  | [] => mret ()
  | x :: l' => body x ;; for_each l' body
  end.

(** ** Classes, callables and isinstance *)

Inductive pytype : Type :=
  | NoneType_t
  | ndarray_t
  | other_t.

(** What a name can denote as second argument of [isinstance]. *)
Inductive pyobject : Type :=
  | Class (t : pytype)
  | BuiltinFunction.

Definition type_of (v : pyval) : pytype :=
  match v with
  | VNone => NoneType_t
  | VArr _ => ndarray_t
  | VLike _ => other_t
  end.

#[global] Instance pytype_eq_dec : EqDecision pytype.
Proof. solve_decision. Defined.

(** [isinstance(obj, classinfo)]: a [classinfo] that is not a class (nor
    a tuple of classes) raises TypeError, whatever [obj] is. *)
Definition isinstance (obj : pyval) (classinfo : pyobject) : M bool :=
  match classinfo with
  | Class t => mret (bool_decide (type_of obj = t))
  | BuiltinFunction => raise TypeError
  end.

(** ** numpy on array objects *)

Module np.

(** The name [np.array]: numpy's array constructor is a built-in
    function ([numpy.ndarray] is the class). *)
Definition array : pyobject := BuiltinFunction.

(** The call [np.array(obj)]: a new array, copied from an ndarray or
    built from an array-like; [None] gives a 0-d array. *)
Definition array_call (obj : pyval) : M pyval := λ σ,
  match obj with
  | VNone => new_array Rank0 σ
  | VArr p =>
      match σ !! p with
      | Some x => new_array x σ
      | None => Stuck
      end
  | VLike x => new_array x σ
  end.

(** [len(img.shape)] *)
Definition shape_len (img : pyval) : M nat := λ σ,
  match img with
  | VArr p =>
      match σ !! p with
      | Some x => Returns (ndim x) σ
      | None => Stuck
      end
  | _ => Raises AttributeError σ
  end.

(** [np.dstack([img, img, img])] for a rank-2 [img] *)
Definition dstack3 (img : pyval) : M pyval := λ σ,
  match img with
  | VArr p =>
      match σ !! p with
      | Some (Rank2 g) => new_array (Rank3 (nd.dstack3 g)) σ
      | _ => Stuck
      end
  | _ => Stuck
  end.

(** [h, w, _ = img.shape] *)
Definition shape (img : pyval) : M (Z * Z) :=
  on_rgb AttributeError img
    (λ _ a, mret (Z.of_nat (nd.nrows a), Z.of_nat (nd.ncols a))).

(** [img.shape[0]] and [img.shape[1]] *)
Definition shape0 (img : pyval) : M Z := fst <$> shape img.
Definition shape1 (img : pyval) : M Z := snd <$> shape img.

(** The calls below return a new array object. Where numpy returns a
    view (rot90, flipud, fliplr, basic slicing) the object holds the
    contents the view has when it is created. *)
Definition rot90 (m : pyval) (k : Z) : M pyval :=
  on_rgb ValueError m (λ _ a, new_array (Rank3 (nd.rot90 a k))).
Definition flipud (m : pyval) : M pyval :=
  on_rgb ValueError m (λ _ a, new_array (Rank3 (nd.flipud a))).
Definition fliplr (m : pyval) : M pyval :=
  on_rgb ValueError m (λ _ a, new_array (Rank3 (nd.fliplr a))).
Definition roll_axis0 (m : pyval) (shift : Z) : M pyval :=
  on_rgb AxisError m (λ _ a, new_array (Rank3 (nd.roll_rows a shift))).
Definition roll_axis1 (m : pyval) (shift : Z) : M pyval :=
  on_rgb AxisError m (λ _ a, new_array (Rank3 (nd.roll_cols a shift))).

(** [img[r0:r1, c0:c1, :]] *)
Definition window (img : pyval) (r0 r1 c0 c1 : Z) : M pyval :=
  on_rgb TypeError img (λ _ a, new_array (Rank3 (nd.window r0 r1 c0 c1 a))).

(** [img[i, :, :]], [img[i, :, :] = r], [img[:, j, :]] and
    [img[:, j, :] = c]; the assignments act in place. *)
Definition getrow (img : pyval) (i : Z) : M (row sample) :=
  on_rgb TypeError img (λ _ a, lift (nd.getrow a i)).
Definition setrow (img : pyval) (i : Z) (r : row sample) : M () :=
  on_rgb TypeError img (λ p a, a' ← lift (nd.setrow a i r); write p (Rank3 a')).
Definition getcol (img : pyval) (j : Z) : M (row sample) :=
  on_rgb TypeError img (λ _ a, lift (nd.getcol a j)).
Definition setcol (img : pyval) (j : Z) (c : row sample) : M () :=
  on_rgb TypeError img (λ p a, a' ← lift (nd.setcol a j c); write p (Rank3 a')).

(** The four half assignments of the mirror family, in place on [img].
    [src] is a view of [img]'s own buffer there; numpy copies an
    overlapping source before it assigns, so the values assigned are
    those [src] has when the assignment starts. *)
Definition assign_with (f : image sample → image sample → image sample)
    (img src : pyval) : M () :=
  on_rgb TypeError img (λ p a,
    on_rgb TypeError src (λ _ b, write p (Rank3 (f a b)))).
Definition assign_cols_from (img : pyval) (bnd : Z) (src : pyval) : M () :=
  assign_with (nd.assign_cols_from bnd) img src.
Definition assign_cols_to (img : pyval) (bnd : Z) (src : pyval) : M () :=
  assign_with (nd.assign_cols_to bnd) img src.
Definition assign_rows_from (img : pyval) (bnd : Z) (src : pyval) : M () :=
  assign_with (nd.assign_rows_from bnd) img src.
Definition assign_rows_to (img : pyval) (bnd : Z) (src : pyval) : M () :=
  assign_with (nd.assign_rows_to bnd) img src.

(** [img + noise * 255 * amt] for a draw [noise] of [img]'s shape, in
    exact arithmetic: the rounding of the float64 operations is not
    modelled. *)
Definition add_noise (img : pyval) (noise : image sample) (amt : Q) : M pyval :=
  on_rgb AttributeError img (λ _ a,
    new_array (Rank3 (zip_with (zip_with (zip_with
      (λ x u, (x + (u * 255) * amt)%Q))) a noise))).

End np.

(** ** daug.py *)

(** *** The channel normalizer (lines 9-30) *)

(** Lines 26-30: the dispatch on [len(img.shape)]. A rank-3 array is
    returned as it is (the same object), a rank-2 array is stacked into
    a new one, and any other rank falls off the end of the function,
    which returns [None]. *)
Definition force_rank (img : pyval) : M pyval :=
  n ← np.shape_len img;
  if decide (n = 3%nat) then mret img
  else if decide (n = 2%nat) then np.dstack3 img
  else mret VNone.

(** The whole function: lines 24-25 test [isinstance(img, np.array)]
    and convert when the test is false, then the dispatch. *)
Definition _force_RGB_array (img : pyval) : M pyval :=
  b ← isinstance img np.array;
  img ← (if negb b then np.array_call img else mret img);
  force_rank img.

(** *** Rotation, flips and rolls (lines 33-128) *)

Definition rot90_body (img : pyval) (ccw : bool) : M pyval :=
  let k := if ccw then -1 else 1 in
  np.rot90 img k.

Definition rot90 (img : pyval) (ccw : bool) : M pyval :=
  img ← _force_RGB_array img;
  rot90_body img ccw.

Definition flipv_body (img : pyval) : M pyval := np.flipud img.

Definition flipv (img : pyval) : M pyval :=
  img ← _force_RGB_array img;
  flipv_body img.

Definition fliph_body (img : pyval) : M pyval := np.fliplr img.

Definition fliph (img : pyval) : M pyval :=
  img ← _force_RGB_array img;
  fliph_body img.

(** [px] is an integer here, so [int(px)] is [px]. *)
Definition rolldown_body (img : pyval) (px : Z) : M pyval :=
  np.roll_axis0 img px.

Definition rolldown (img : pyval) (px : Z) : M pyval :=
  img ← _force_RGB_array img;
  rolldown_body img px.

Definition rollright_body (img : pyval) (px : Z) : M pyval :=
  np.roll_axis1 img px.

Definition rollright (img : pyval) (px : Z) : M pyval :=
  img ← _force_RGB_array img;
  rollright_body img px.

(** *** Region selection (lines 131-182) *)

(** The [fac] argument of [zoom]: a number, or a 2-long list or tuple
    of numbers. Numbers are rationals: the float NaN, which passes the
    four clamps and on which [int()] raises ValueError at line 159, is
    not among them. *)
Inductive zoomfac : Type :=
  | Scalar (f : Q)
  | Pair (f0 f1 : Q).

(** Lines 148-157: the broadcast of a scalar and the four clamps. *)
Definition zoom_fac (fac : zoomfac) : Q * Q :=
  let fac := match fac with Scalar f => (f, f) | Pair f0 f1 => (f0, f1) end in
  let fac := if py.gt fac.1 1 then (1%Q, fac.2) else fac in
  let fac := if py.gt fac.2 1 then (fac.1, 1%Q) else fac in
  let fac := if py.le fac.1 0 then ((1 # 2)%Q, fac.2) else fac in
  let fac := if py.le fac.2 0 then (fac.1, (1 # 2)%Q) else fac in
  fac.

(** Lines 159-160: [[int(n/2 - n*(f/2.)), int(n/2 + n*(f/2.))]] *)
Definition zoom_bounds (n : Z) (f : Q) : Z * Z :=
  (py.int (inject_Z n / 2 - inject_Z n * (f / 2))%Q,
   py.int (inject_Z n / 2 + inject_Z n * (f / 2))%Q).

Definition zoom_body (img : pyval) (fac : zoomfac) : M pyval :=
  let fac := zoom_fac fac in
  '(h, w) ← np.shape img;
  let bounds_h := zoom_bounds h fac.1 in
  let bounds_w := zoom_bounds w fac.2 in
  np.window img bounds_h.1 bounds_h.2 bounds_w.1 bounds_w.2.

Definition zoom (img : pyval) (fac : zoomfac) : M pyval :=
  img ← _force_RGB_array img;
  zoom_body img fac.

(** [bounds] is a pair of pairs; line 181 reads [bounds[0]] as the row
    range and [bounds[1]] as the column range. *)
Definition crop_body (img : pyval) (bounds : (Z * Z) * (Z * Z)) : M pyval :=
  np.window img bounds.1.1 bounds.1.2 bounds.2.1 bounds.2.2.

Definition crop (img : pyval) (bounds : (Z * Z) * (Z * Z)) : M pyval :=
  img ← _force_RGB_array img;
  crop_body img bounds.

(** *** Noise (lines 185-202); the draw from numpy's generator is the
    argument [noise]. *)

Definition noisy_body (img : pyval) (amt : Q) (noise : image sample) : M pyval :=
  np.add_noise img noise amt.

Definition noisy (img : pyval) (amt : Q) (noise : image sample) : M pyval :=
  img ← _force_RGB_array img;
  noisy_body img amt noise.

(** *** Mirrors (lines 205-278) *)

Definition mirrorleft_body (img : pyval) : M pyval :=
  flipclone ← np.fliplr img;
  w ← np.shape1 img;
  let bnd := w `div` 2 in
  np.assign_cols_from img bnd flipclone;;
  mret img.

Definition mirrorleft (img : pyval) : M pyval :=
  img ← _force_RGB_array img;
  mirrorleft_body img.

Definition mirrorright_body (img : pyval) : M pyval :=
  flipclone ← np.fliplr img;
  w ← np.shape1 img;
  let bnd := w `div` 2 in
  np.assign_cols_to img bnd flipclone;;
  mret img.

Definition mirrorright (img : pyval) : M pyval :=
  img ← _force_RGB_array img;
  mirrorright_body img.

Definition mirrorup_body (img : pyval) : M pyval :=
  flipclone ← np.flipud img;
  h ← np.shape0 img;
  let bnd := h `div` 2 in
  np.assign_rows_from img bnd flipclone;;
  mret img.

Definition mirrorup (img : pyval) : M pyval :=
  img ← _force_RGB_array img;
  mirrorup_body img.

Definition mirrordown_body (img : pyval) : M pyval :=
  flipclone ← np.flipud img;
  h ← np.shape0 img;
  let bnd := h `div` 2 in
  np.assign_rows_to img bnd flipclone;;
  mret img.

Definition mirrordown (img : pyval) : M pyval :=
  img ← _force_RGB_array img;
  mirrordown_body img.

(** *** Edge-stretched shifts (lines 281-366)

    Each shift takes [abs(px)], calls the roll and runs a fill loop on
    the array the roll returned. [<shift>_fill] is the [if px > 0] block
    with the final [return img]; [<shift>_body] is the function with the
    roll's normalizer call left out. In an assignment Python evaluates
    the right-hand side before the target's subscript. *)

Definition shiftdown_fill (img : pyval) (px : Z) : M pyval :=
  (if px >? 0 then
     for_each (py.range px) (λ i,
       r ← np.getrow img px;
       np.setrow img i r)
   else mret ());;
  mret img.

Definition shiftdown_body (img : pyval) (px : Z) : M pyval :=
  let px := Z.abs px in
  img ← rolldown_body img px;
  shiftdown_fill img px.

Definition shiftdown (img : pyval) (px : Z) : M pyval :=
  let px := Z.abs px in
  img ← rolldown img px;
  shiftdown_fill img px.

Definition shiftup_fill (img : pyval) (px : Z) : M pyval :=
  (if px >? 0 then
     for_each (py.range px) (λ i,
       h ← np.shape0 img;
       r ← np.getrow img (h - px);
       h ← np.shape0 img;
       np.setrow img (h - i - 1) r)
   else mret ());;
  mret img.

Definition shiftup_body (img : pyval) (px : Z) : M pyval :=
  let px := Z.abs px in
  img ← rolldown_body img (- px);
  shiftup_fill img px.

Definition shiftup (img : pyval) (px : Z) : M pyval :=
  let px := Z.abs px in
  img ← rolldown img (- px);
  shiftup_fill img px.

Definition shiftleft_fill (img : pyval) (px : Z) : M pyval :=
  (if px >? 0 then
     for_each (py.range px) (λ i,
       w ← np.shape1 img;
       c ← np.getcol img (w - px);
       w ← np.shape1 img;
       np.setcol img (w - i - 1) c)
   else mret ());;
  mret img.

Definition shiftleft_body (img : pyval) (px : Z) : M pyval :=
  let px := Z.abs px in
  img ← rollright_body img (- px);
  shiftleft_fill img px.

Definition shiftleft (img : pyval) (px : Z) : M pyval :=
  let px := Z.abs px in
  img ← rollright img (- px);
  shiftleft_fill img px.

Definition shiftright_fill (img : pyval) (px : Z) : M pyval :=
  (if px >? 0 then
     for_each (py.range px) (λ i,
       c ← np.getcol img px;
       np.setcol img i c)
   else mret ());;
  mret img.

Definition shiftright_body (img : pyval) (px : Z) : M pyval :=
  let px := Z.abs px in
  img ← rollright_body img px;
  shiftright_fill img px.

Definition shiftright (img : pyval) (px : Z) : M pyval :=
  let px := Z.abs px in
  img ← rollright img px;
  shiftright_fill img px.

(** * lisa_processor.py

    The script walks the thirteen day clips of the dataset; for every
    row of a clip's annotation table it opens the frame, cuts the
    annotated box out of it and saves the cut under a numbered name.
    The model starts where a row has been read: a row carries its tag,
    its four corner columns and the array [np.array(Image.open(...))]
    of its frame. The files whose save completed are kept, in order, as
    (name, array) pairs, and the lines printed are kept as strings.

    Three steps can fail on a tagged row. The cut (line 55) has three
    subscripts and raises IndexError on the two-axis array of a
    single-band frame. [Image.fromarray] (line 57) is inside the [try]:
    its ValueError skips the row, any other exception of it is not
    caught. The change into the output directory and [newi.save]
    (lines 60-61) are outside the [try]: an exception of theirs is not
    caught either. What the last two do with an array is a parameter
    of the model. An exception that is not caught ends the script where
    it is raised, with the counters, files and lines reached by then.
    The reads of the tables and frames and the changes back into the
    directories the script came from (lines 62-63) are taken to
    succeed. *)
Module lisa.

(** [np.array(Image.open(...))]: two axes for a single-band frame,
    three for a frame with several bands. *)
Inductive frame_array : Type :=
  | SingleBand (g : list (list sample))
  | Bands (a : image sample).

Record annotation : Type := {
  tag : string;
  upper_left_y : Z;
  upper_left_x : Z;
  lower_right_y : Z;
  lower_right_x : Z;
  frame : frame_array
}.

(** The variables of the script and its effects. *)
Record run : Type := {
  cnt : nat;
  green_cnt : nat;
  red_cnt : nat;
  saved : list (string * image sample);
  printed : list string
}.

(** How far the script is: still going, or ended by an exception that
    nothing catches. *)
Inductive progress : Type :=
  | Going (s : run)
  | Ended (s : run) (e : exn).

Definition state (pr : progress) : run :=
  match pr with
  | Going s => s
  | Ended s _ => s
  end.

(** Lines 7, 11 and 12: the output directory, from [os.getcwd()]. *)
Definition new_folder_loc1 (home_dir : string) : string := home_dir +:+ "processed/".
Definition new_folder_loc2 (home_dir : string) : string :=
  new_folder_loc1 home_dir +:+ "day".

(** Lines 17-19. *)
Definition start : run :=
  {| cnt := 0; green_cnt := 0; red_cnt := 0; saved := []; printed := [] |}.

(** ['green' + '_' + str(green_cnt) + '.jpg'] and the same for red. *)
Definition green_name (k : nat) : string := "green" +:+ "_" +:+ pretty k +:+ ".jpg".
Definition red_name (k : nat) : string := "red" +:+ "_" +:+ pretty k +:+ ".jpg".

(** Line 55: [imgarr[coords[0][0]:coords[1][0], coords[0][1]:coords[1][1], :]]
    with [coords = [[uly, ulx], [lry, lrx]]]; an array with two axes
    has too many indices. *)
Definition cut (row : annotation) : result (image sample) :=
  let coords := ((upper_left_y row, upper_left_x row),
                 (lower_right_y row, lower_right_x row)) in
  match frame row with
  | Bands imgarr =>
      Ok (nd.window coords.1.1 coords.2.1 coords.1.2 coords.2.2 imgarr)
  | SingleBand _ => Raise IndexError
  end.

Section script.
(** The exception [Image.fromarray(newimg)] raises, if any. *)
Variable fromarray_raises : image sample → option exn.
(** The exception lines 60-61 raise for a file name and an array, if any. *)
Variable save_raises : string → image sample → option exn.

(** Lines 55-67, with the counters already advanced to [s] and the name
    chosen: the cut, the conversion whose ValueError skips the row, the
    save, the count and the progress line. *)
Definition save_cut (s : run) (row : annotation) (newfilename : string) : progress :=
  match cut row with
  | Raise e => Ended s e
  | Ok newimg =>
      match fromarray_raises newimg with
      | Some ValueError => Going s
      | Some e => Ended s e
      | None =>
          match save_raises newfilename newimg with
          | Some e => Ended s e
          | None =>
              let cnt' := S (cnt s) in
              Going
                {| cnt := cnt';
                   green_cnt := green_cnt s;
                   red_cnt := red_cnt s;
                   saved := saved s ++ [(newfilename, newimg)];
                   printed :=
                     if decide (cnt' `mod` 200 = 0)%nat
                     then printed s ++ [pretty cnt' +:+ " images done"]
                     else printed s |}
          end
      end
  end.

(** Lines 33-67: the body of the loop over the rows. *)
Definition process_row (s : run) (row : annotation) : progress :=
  if decide (tag row = "go") then
    let s := {| cnt := cnt s; green_cnt := S (green_cnt s); red_cnt := red_cnt s;
                saved := saved s; printed := printed s |} in
    save_cut s row (green_name (green_cnt s))
  else if decide (tag row = "stop") then
    let s := {| cnt := cnt s; green_cnt := green_cnt s; red_cnt := S (red_cnt s);
                saved := saved s; printed := printed s |} in
    save_cut s row (red_name (red_cnt s))
  else Going s.

(** Line 33: the loop over the rows of one table. *)
Fixpoint process_rows (s : run) (rows : list annotation) : progress :=
  match rows with
  | [] => Going s
  | row :: rows =>
      match process_row s row with
      | Going s => process_rows s rows
      | Ended s e => Ended s e
      end
  end.

(** Lines 22-68: one clip. *)
Definition process_clip (s : run) (s_num : nat) (rows : list annotation) : progress :=
  match process_rows s rows with
  | Going s =>
      Going {| cnt := cnt s; green_cnt := green_cnt s; red_cnt := red_cnt s;
               saved := saved s;
               printed := printed s ++ ["Completed " +:+ pretty s_num] |}
  | Ended s e => Ended s e
  end.

(** Line 21: the loop over the clips; [annotations n] is the table of
    clip [n]. *)
Fixpoint process_clips (annotations : nat → list annotation)
    (s : run) (subdir_range : list nat) : progress :=
  match subdir_range with
  | [] => Going s
  | s_num :: subdir_range =>
      match process_clip s s_num (annotations s_num) with
      | Going s => process_clips annotations s subdir_range
      | Ended s e => Ended s e
      end
  end.

(** The whole script. *)
Definition script (annotations : nat → list annotation) : progress :=
  match process_clips annotations start (seq 1 13) with
  | Going s =>
      Going {| cnt := cnt s; green_cnt := green_cnt s; red_cnt := red_cnt s;
               saved := saved s;
               printed := printed s ++
                 ["All done, total: " +:+ pretty (cnt s);
                  "Green: " +:+ pretty (green_cnt s);
                  "Red: " +:+ pretty (red_cnt s)] |}
  | Ended s e => Ended s e
  end.

(** ** Notions used by the statements about the script *)

Definition tagged (row : annotation) : Prop :=
  tag row = "go" ∨ tag row = "stop".

(** The cut of the row is taken and converted. *)
Definition converted (row : annotation) : Prop :=
  match cut row with
  | Ok newimg => fromarray_raises newimg = None
  | Raise _ => False
  end.

#[global] Instance converted_dec row : Decision (converted row).
Proof. unfold converted. destruct (cut row); apply _. Defined.

(** The tagged rows whose cut is converted. *)
Definition kept (row : annotation) : Prop :=
  tagged row ∧ converted row.

#[global] Instance kept_dec row : Decision (kept row).
Proof. unfold kept, tagged. apply _. Defined.

(** The exception [e] is one the row raises and nothing catches: in
    the cut, in the conversion or in the save. *)
Definition culprit (row : annotation) (e : exn) : Prop :=
  cut row = Raise e ∨
  ∃ newimg, cut row = Ok newimg ∧
    ((fromarray_raises newimg = Some e ∧ e ≠ ValueError) ∨
     (fromarray_raises newimg = None ∧
      ∃ newfilename, save_raises newfilename newimg = Some e)).

(** From [s] to [s'] the rows [counted] have passed the counters of
    their tags and the rows [written] have passed the save. *)
Definition adds (s s' : run) (counted written : list annotation) : Prop :=
  green_cnt s' = (green_cnt s + length (filter (λ r, tag r = "go") counted))%nat ∧
  red_cnt s' = (red_cnt s + length (filter (λ r, tag r = "stop") counted))%nat ∧
  cnt s' = (cnt s + length (filter kept written))%nat ∧
  Ok <$> (saved s').*2 = (Ok <$> (saved s).*2) ++ (cut <$> filter kept written).

End script.

(** A saved name is a number the matching counter has passed. *)
Definition numbered (s : run) (name : string) : Prop :=
  (∃ k, (1 ≤ k ≤ green_cnt s)%nat ∧ name = green_name k) ∨
  (∃ k, (1 ≤ k ≤ red_cnt s)%nat ∧ name = red_name k).

Definition tidy (s : run) : Prop :=
  NoDup (saved s).*1 ∧ Forall (numbered s) (saved s).*1.

(** What the rows [rows] have done when the script, from [s], is at
    [pr]: all of them have been counted and written, or a row among
    them has ended the script. *)
Definition covers (fromarray_raises : image sample → option exn)
    (save_raises : string → image sample → option exn)
    (s : run) (rows : list annotation) (pr : progress) : Prop :=
  match pr with
  | Going s' => tidy s' ∧ adds fromarray_raises s s' rows rows
  | Ended s' e =>
      tidy s' ∧
      ∃ done row rest,
        rows = done ++ row :: rest ∧
        tagged row ∧
        culprit fromarray_raises save_raises row e ∧
        adds fromarray_raises s s' (done ++ [row]) done
  end.

(** The rows of the thirteen tables, in the order the script reads them. *)
Definition all_rows (annotations : nat → list annotation) : list annotation :=
  concat (annotations <$> seq 1 13).
End lisa.

(** * Definitions used by the statements *)

(** ** The spec's words *)

(** The clamp policy in the spec's words: a factor above 1 becomes 1, a
    factor at or below 0 becomes 0.5, any other factor is kept. *)
Definition spec_clamp (f : Q) : Q :=
  if Qlt_le_dec 1 f then 1%Q
  else if Qlt_le_dec 0 f then f
  else (1 # 2)%Q.

(** A quarter turn of an image drawn with row 0 at the top and column 0
    at the left, in the spec's words. The result has W rows and H
    columns. Clockwise, the top row becomes the right column: pixel
    (r, c) of the result is pixel (H-1-c, r) of the image.
    Counter-clockwise, the top row becomes the left column read upwards:
    pixel (r, c) of the result is pixel (c, W-1-r) of the image. *)
Definition spec_rotate_cw {T} (H W : nat) (a : image T) : image T :=
  (λ r, (λ c, (a !!! (H - 1 - c)%nat) !!! r) <$> seq 0 H) <$> seq 0 W.

Definition spec_rotate_ccw {T} (H W : nat) (a : image T) : image T :=
  (λ r, (λ c, (a !!! c) !!! (W - 1 - r)%nat) <$> seq 0 H) <$> seq 0 W.

(** ** The window bounds in binary64

    Lines 159-160 as CPython evaluates them on IEEE 754 doubles, to
    compare with [zoom_bounds]: [n/2] and [f/2.] are divisions of
    doubles, [n*(...)] converts [n] and multiplies, and [int()]
    truncates toward zero ([None] for an infinity or a NaN). *)
Module binary64.

Definition prec : Z := 53.
Definition emax : Z := 1024.

Definition of_int (z : Z) : spec_float := binary_normalize prec emax z 0 false.
Definition div : spec_float → spec_float → spec_float := SFdiv prec emax.
Definition mul : spec_float → spec_float → spec_float := SFmul prec emax.
Definition add : spec_float → spec_float → spec_float := SFadd prec emax.
Definition sub : spec_float → spec_float → spec_float := SFsub prec emax.

Definition to_int (x : spec_float) : option Z :=
  match x with
  | S754_zero _ => Some 0
  | S754_finite s m e =>
      let v := if 0 <=? e then Z.pos m * 2 ^ e else Z.pos m `div` 2 ^ (- e) in
      Some (if s then - v else v)
  | _ => None
  end.

Definition zoom_bounds (n : Z) (f : spec_float) : option Z * option Z :=
  (to_int (sub (div (of_int n) (of_int 2)) (mul (of_int n) (div f (of_int 2)))),
   to_int (add (div (of_int n) (of_int 2)) (mul (of_int n) (div f (of_int 2))))).

(** The exact value of a finite double. *)
Definition to_Q (x : spec_float) : Q :=
  match x with
  | S754_finite s m e =>
      let v := if 0 <=? e then inject_Z (Z.pos m * 2 ^ e)
               else (Z.pos m # Z.to_pos (2 ^ (- e)))%Q in
      if s then (- v)%Q else v
  | _ => 0%Q
  end.

End binary64.

(** ** Calls from the rank dispatch on *)



(** ** The fill loops on array contents *)

(** A loop over one array object, on the contents of that array: the
    array reached, and the exception if an iteration raised one. *)
Fixpoint run_fill {I} (step : image sample → I → result (image sample))
    (l : list I) (a : image sample) : image sample * option exn :=
  match l with
  | [] => (a, None)
  | i :: l' =>
      match step a i with
      | Ok a' => run_fill step l' a'
      | Raise e => (a, Some e)
      end
  end.

(** One iteration of each loop, on the contents. *)
Definition fill_down_step (px : Z) (a : image sample) (i : Z) :=
  rbind (nd.getrow a px) (λ r, nd.setrow a i r).
Definition fill_up_step (px : Z) (a : image sample) (i : Z) :=
  let h := Z.of_nat (nd.nrows a) in
  rbind (nd.getrow a (h - px)) (λ r, nd.setrow a (h - i - 1) r).
Definition fill_left_step (px : Z) (a : image sample) (i : Z) :=
  let w := Z.of_nat (nd.ncols a) in
  rbind (nd.getcol a (w - px)) (λ c, nd.setcol a (w - i - 1) c).
Definition fill_right_step (px : Z) (a : image sample) (i : Z) :=
  rbind (nd.getcol a px) (λ c, nd.setcol a i c).

(** The outcome of a statement that acts on the array at [q] as [r]
    acts on its contents. *)
Definition in_place (q : loc) (r : result (image sample))
    (σ : gmap loc ndarray) : outcome () :=
  match r with
  | Ok a' => Returns () (<[q := Rank3 a']> σ)
  | Raise e => Raises e σ
  end.

(** The outcome of a shift on the array the roll returned. *)
Definition fill_outcome (q : loc) (σ : gmap loc ndarray)
    (r : image sample * option exn) : outcome pyval :=
  match r with
  | (b, None) => Returns (VArr q) (<[q := Rank3 b]> σ)
  | (b, Some e) => Raises e (<[q := Rank3 b]> σ)
  end.

(** [stretched l n i0 k] is an axis [l] of extent [n] after [k]
    iterations of [l[n - i - 1] = l[n - px]], where [i0] is the
    position that [n - px] denotes. *)
Definition stretched {A} `{!Inhabited A} (l : list A) (n i0 k : nat) : list A :=
  take (n - k) l ++ replicate (k `min` n) (l !!! i0).

(** [stretched_front l p k] is an axis [l] after [k] iterations of
    [l[i] = l[p]]. *)
Definition stretched_front {A} `{!Inhabited A} (l : list A) (p k : nat) : list A :=
  replicate k (l !!! p) ++ drop k l.

(** ** Notions used by the further properties *)

(** A function that returns a new array computed from the contents of
    its argument. *)
Definition computes (m : pyval → M pyval) (f : image sample → image sample) : Prop :=
  ∀ (σ : gmap loc ndarray) p a,
    σ !! p = Some (Rank3 a) →
    m (VArr p) σ = Returns (VArr (fresh_loc σ)) (<[fresh_loc σ := Rank3 (f a)]> σ).

(** A function that returns an array object holding [f] of its
    argument's contents and keeps every object of the store as it is. *)
Definition yields (m : pyval → M pyval) (f : image sample → image sample) : Prop :=
  ∀ (σ : gmap loc ndarray) p a,
    σ !! p = Some (Rank3 a) →
    ∃ q σ',
      m (VArr p) σ = Returns (VArr q) σ' ∧
      σ' !! q = Some (Rank3 (f a)) ∧
      ∀ p' x, σ !! p' = Some x → σ' !! p' = Some x.

(** The image with R rows and C columns whose pixel (r, c) is [f r c]. *)
Definition tabulate {T} (R C : nat) (f : nat → nat → list T) : image T :=
  (λ r, (λ c, f r c) <$> seq 0 C) <$> seq 0 R.

(** An outcome that is a new array object or an IndexError, and in
    either case leaves the array at [p] with the contents [a]. *)
Definition new_or_IndexError (σ : gmap loc ndarray) (p : loc) (a : image sample)
    (o : outcome pyval) : Prop :=
  match o with
  | Returns v σ' => v = VArr (fresh_loc σ) ∧ σ' !! p = Some (Rank3 a)
  | Raises e σ' => e = IndexError ∧ σ' !! p = Some (Rank3 a)
  | Stuck => False
  end.

(** An axis after the two kinds of half assignment from its reversal:
    [keep_low] keeps the positions below the midpoint [n // 2] and
    takes the others from the reversed axis, [keep_high] does the
    opposite. *)
Definition keep_low {A} (l : list A) : list A :=
  take (length l / 2) l ++ drop (length l / 2) (reverse l).
Definition keep_high {A} (l : list A) : list A :=
  take (length l / 2) (reverse l) ++ drop (length l / 2) l.

(** * Properties *)

(** ** Running the monad *)

Section evaluation.
Context {A B : Type}.
Implicit Types (σ : gmap loc ndarray).

Lemma bind_returns (m : M A) (k : A → M B) σ v σ' :
  m σ = Returns v σ' → (m ≫= k) σ = k v σ'.
Proof. intros E. unfold mbind, M_bind. by rewrite E. Qed.

Lemma bind_raises (m : M A) (k : A → M B) σ e σ' :
  m σ = Raises e σ' → (m ≫= k) σ = Raises e σ'.
Proof. intros E. unfold mbind, M_bind. by rewrite E. Qed.

Lemma on_rgb_array e p (a : image sample) (k : loc → image sample → M A) σ :
  σ !! p = Some (Rank3 a) → on_rgb e (VArr p) k σ = k p a σ.
Proof. intros E. unfold on_rgb. by rewrite E. Qed.
End evaluation.

(** ** Slices and windows *)

Lemma slice_bound_in_range n i :
  0 ≤ i ≤ Z.of_nat n → py.slice_bound n i = Z.to_nat i.
Proof.
  intros Hi. unfold py.slice_bound.
  destruct (Z.ltb_spec i 0); [lia|]. f_equal. lia.
Qed.

Lemma slice_full {A} (l : list A) : py.slice 0 (Z.of_nat (length l)) l = l.
Proof.
  unfold py.slice. rewrite !slice_bound_in_range by lia.
  rewrite Nat2Z.id. simpl. rewrite Nat.sub_0_r. apply firstn_all.
Qed.

Lemma rect_row_length {T} H W (a : image T) r :
  nd.rect H W a → r ∈ a → length r = W.
Proof.
  intros [_ Ha] Hr. rewrite Forall_forall in Ha. by destruct (Ha _ Hr).
Qed.

Lemma rect_ncols {T} H W (a : image T) :
  nd.rect H W a → (0 < H)%nat → nd.ncols a = W.
Proof.
  intros [Hlen Ha] HH. destruct a as [|r a]; simpl in *; [lia|].
  by inversion Ha as [|? ? [? _] _].
Qed.

Lemma window_full {T} H W (a : image T) :
  nd.rect H W a → nd.window 0 (Z.of_nat H) 0 (Z.of_nat W) a = a.
Proof.
  intros [Hlen Ha]. unfold nd.window.
  rewrite <- Hlen, slice_full. clear Hlen.
  induction Ha as [|r a [Hr _] _ IH]; [done|].
  rewrite fmap_cons, IH. f_equal. rewrite <- Hr. apply slice_full.
Qed.

Lemma int_exact (x : Q) (z : Z) : (x == inject_Z z)%Q → py.int x = z.
Proof.
  unfold Qeq, py.int. simpl. rewrite Z.mul_1_r. intros ->.
  by apply Z.quot_mul.
Qed.

Lemma zoom_bounds_one n : zoom_bounds n 1 = (0, n).
Proof.
  unfold zoom_bounds. f_equal; apply int_exact; field.
Qed.

(** On these extents, for the factors 1.0 and 0.5 that the clamps
    produce and for 0.75, the rational bounds are the ones binary64
    arithmetic gives. *)
Lemma zoom_bounds_as_in_binary64 :
  Forall (λ n,
    Forall (λ f,
      binary64.zoom_bounds n f
      = (Some (zoom_bounds n (binary64.to_Q f)).1,
         Some (zoom_bounds n (binary64.to_Q f)).2))
      [binary64.of_int 1;
       binary64.div (binary64.of_int 1) (binary64.of_int 2);
       binary64.div (binary64.of_int 3) (binary64.of_int 4)])
    [1; 2; 3; 5; 7; 28; 32; 33; 224; 480; 640; 1079; 1080; 1920; 4095; 65535].
Proof. repeat constructor. Qed.

(** ** numpy calls on a rank-3 array object *)

Section on_arrays.
Context (σ : gmap loc ndarray) (p : loc) (a : image sample).
Hypothesis Hp : σ !! p = Some (Rank3 a).

Lemma shape_array :
  np.shape (VArr p) σ = Returns (Z.of_nat (nd.nrows a), Z.of_nat (nd.ncols a)) σ.
Proof. unfold np.shape. by rewrite (on_rgb_array _ _ _ _ _ Hp). Qed.

Lemma shape0_array : np.shape0 (VArr p) σ = Returns (Z.of_nat (nd.nrows a)) σ.
Proof.
  unfold np.shape0, fmap, M_fmap. by rewrite (bind_returns _ _ _ _ _ shape_array).
Qed.

Lemma shape1_array : np.shape1 (VArr p) σ = Returns (Z.of_nat (nd.ncols a)) σ.
Proof.
  unfold np.shape1, fmap, M_fmap. by rewrite (bind_returns _ _ _ _ _ shape_array).
Qed.

Lemma window_array r0 r1 c0 c1 :
  np.window (VArr p) r0 r1 c0 c1 σ
  = Returns (VArr (fresh_loc σ))
      (<[fresh_loc σ := Rank3 (nd.window r0 r1 c0 c1 a)]> σ).
Proof. unfold np.window. by rewrite (on_rgb_array _ _ _ _ _ Hp). Qed.

Lemma rot90_array k :
  np.rot90 (VArr p) k σ
  = Returns (VArr (fresh_loc σ)) (<[fresh_loc σ := Rank3 (nd.rot90 a k)]> σ).
Proof. unfold np.rot90. by rewrite (on_rgb_array _ _ _ _ _ Hp). Qed.

Lemma fliplr_array :
  np.fliplr (VArr p) σ
  = Returns (VArr (fresh_loc σ)) (<[fresh_loc σ := Rank3 (nd.fliplr a)]> σ).
Proof. unfold np.fliplr. by rewrite (on_rgb_array _ _ _ _ _ Hp). Qed.

Lemma flipud_array :
  np.flipud (VArr p) σ
  = Returns (VArr (fresh_loc σ)) (<[fresh_loc σ := Rank3 (nd.flipud a)]> σ).
Proof. unfold np.flipud. by rewrite (on_rgb_array _ _ _ _ _ Hp). Qed.

Lemma roll_axis0_array shift :
  np.roll_axis0 (VArr p) shift σ
  = Returns (VArr (fresh_loc σ))
      (<[fresh_loc σ := Rank3 (nd.roll_rows a shift)]> σ).
Proof. unfold np.roll_axis0. by rewrite (on_rgb_array _ _ _ _ _ Hp). Qed.

Lemma roll_axis1_array shift :
  np.roll_axis1 (VArr p) shift σ
  = Returns (VArr (fresh_loc σ))
      (<[fresh_loc σ := Rank3 (nd.roll_cols a shift)]> σ).
Proof. unfold np.roll_axis1. by rewrite (on_rgb_array _ _ _ _ _ Hp). Qed.

End on_arrays.

(** A new object is at a location the store does not use, so the
    objects already there keep their contents. *)
Lemma fresh_loc_unused (σ : gmap loc ndarray) : σ !! fresh_loc σ = None.
Proof. unfold fresh_loc. apply not_elem_of_dom. apply is_fresh. Qed.

Lemma fresh_loc_other (σ : gmap loc ndarray) p x :
  σ !! p = Some x → fresh_loc σ ≠ p.
Proof. intros Hp E. pose proof (fresh_loc_unused σ) as F. congruence. Qed.

Lemma lookup_alloc_other (σ : gmap loc ndarray) p x y :
  σ !! p = Some x → <[fresh_loc σ := y]> σ !! p = Some x.
Proof.
  intros Hp. rewrite lookup_insert_ne; [done|]. by apply (fresh_loc_other σ p x).
Qed.

(** ** The normalizer *)

(** C1. For every input [img] and every store, [_force_RGB_array] and
    every public transform of the module raise TypeError with the store
    unchanged: the test [isinstance(img, np.array)] is the first thing
    each of them evaluates and [np.array] is a function, not a class.
    No input reaches a normal return of the normalizer. *)
Theorem every_transform_raises_TypeError (img : pyval) (σ : gmap loc ndarray) :
  _force_RGB_array img σ = Raises TypeError σ ∧
  (∀ v σ', _force_RGB_array img σ ≠ Returns v σ') ∧
  (∀ ccw, rot90 img ccw σ = Raises TypeError σ) ∧
  flipv img σ = Raises TypeError σ ∧
  fliph img σ = Raises TypeError σ ∧
  (∀ px, rolldown img px σ = Raises TypeError σ) ∧
  (∀ px, rollright img px σ = Raises TypeError σ) ∧
  (∀ fac, zoom img fac σ = Raises TypeError σ) ∧
  (∀ bounds, crop img bounds σ = Raises TypeError σ) ∧
  (∀ amt noise, noisy img amt noise σ = Raises TypeError σ) ∧
  mirrorleft img σ = Raises TypeError σ ∧
  mirrorright img σ = Raises TypeError σ ∧
  mirrorup img σ = Raises TypeError σ ∧
  mirrordown img σ = Raises TypeError σ ∧
  (∀ px, shiftdown img px σ = Raises TypeError σ) ∧
  (∀ px, shiftup img px σ = Raises TypeError σ) ∧
  (∀ px, shiftleft img px σ = Raises TypeError σ) ∧
  (∀ px, shiftright img px σ = Raises TypeError σ).
Proof.
  assert (Hguard : isinstance img np.array σ = Raises TypeError σ) by done.
  assert (Hnorm : _force_RGB_array img σ = Raises TypeError σ).
  { unfold _force_RGB_array. by apply bind_raises. }
  assert (Hroll0 : ∀ px, rolldown img px σ = Raises TypeError σ).
  { intros px. unfold rolldown. by apply bind_raises. }
  assert (Hroll1 : ∀ px, rollright img px σ = Raises TypeError σ).
  { intros px. unfold rollright. by apply bind_raises. }
  repeat split; try done; intros;
    first [ by rewrite Hnorm
          | by apply bind_raises
          | by (apply bind_raises; apply Hroll0)
          | by (apply bind_raises; apply Hroll1) ].
Qed.

(** ** Region selection *)

(** X28. From line 148 on, on a normalized image of shape (H, W, 3),
    [zoom] with factor 1.0 returns a new array with the contents of the
    whole image: the window is rows [0, H) and columns [0, W). *)
Theorem zoom_one_returns_whole_image (σ : gmap loc ndarray) (p : loc)
    (a : image sample) (H W : nat) :
  σ !! p = Some (Rank3 a) →
  nd.rect H W a →
  zoom_body (VArr p) (Scalar 1) σ
  = Returns (VArr (fresh_loc σ)) (<[fresh_loc σ := Rank3 a]> σ).
Proof.
  intros Hp Ha. unfold zoom_body.
  change (zoom_fac (Scalar 1)) with (1%Q, 1%Q).
  rewrite (bind_returns _ _ _ _ _ (shape_array _ _ _ Hp)).
  cbv beta iota zeta. unfold fst, snd. rewrite !zoom_bounds_one.
  rewrite (window_array _ _ _ Hp). do 3 f_equal.
  destruct a as [|r a'] eqn:Ea; [done|]. rewrite <- Ea in *.
  assert (HH : (0 < H)%nat) by (destruct Ha as [<- _]; subst a; simpl; lia).
  rewrite (rect_ncols _ _ _ Ha HH).
  destruct Ha as [Hlen Ha']. unfold nd.nrows. rewrite Hlen.
  by apply window_full.
Qed.

Lemma zoom_one_returns_whole_image_witness :
  let a : image sample := [[[1%Q; 2%Q; 3%Q]; [4%Q; 5%Q; 6%Q]]] in
  zoom_body (VArr 0%nat) (Scalar 1) {[ 0%nat := Rank3 a ]}
  = Returns (VArr (fresh_loc {[ 0%nat := Rank3 a ]}))
      (<[fresh_loc {[ 0%nat := Rank3 a ]} := Rank3 a]> {[ 0%nat := Rank3 a ]}).
Proof.
  intros a. apply (zoom_one_returns_whole_image _ 0%nat a 1 2).
  - reflexivity.
  - split; [reflexivity|]. repeat constructor.
Defined.

Lemma gt_spec x y : if py.gt x y then (y < x)%Q else (x <= y)%Q.
Proof.
  unfold py.gt. destruct (Qle_bool x y) eqn:E; simpl.
  - by apply Qle_bool_iff.
  - apply Qnot_le_lt. intros Hle. apply Qle_bool_iff in Hle. congruence.
Qed.

Lemma le_spec x y : if py.le x y then (x <= y)%Q else (y < x)%Q.
Proof.
  unfold py.le. destruct (Qle_bool x y) eqn:E.
  - by apply Qle_bool_iff.
  - apply Qnot_le_lt. intros Hle. apply Qle_bool_iff in Hle. congruence.
Qed.

Lemma spec_clamp_above f : py.gt f 1 = true → spec_clamp f = 1%Q.
Proof.
  intros G. pose proof (gt_spec f 1) as Hf. rewrite G in Hf.
  unfold spec_clamp. destruct (Qlt_le_dec 1 f); [done|lra].
Qed.

Lemma spec_clamp_below f :
  py.gt f 1 = false → py.le f 0 = true → spec_clamp f = (1 # 2)%Q.
Proof.
  intros G L. pose proof (gt_spec f 1) as Hg. pose proof (le_spec f 0) as Hl.
  rewrite G in Hg. rewrite L in Hl. unfold spec_clamp.
  destruct (Qlt_le_dec 1 f); [lra|]. destruct (Qlt_le_dec 0 f); [lra|done].
Qed.

Lemma spec_clamp_within f :
  py.gt f 1 = false → py.le f 0 = false → spec_clamp f = f.
Proof.
  intros G L. pose proof (gt_spec f 1) as Hg. pose proof (le_spec f 0) as Hl.
  rewrite G in Hg. rewrite L in Hl. unfold spec_clamp.
  destruct (Qlt_le_dec 1 f); [lra|]. destruct (Qlt_le_dec 0 f); [done|lra].
Qed.

(** The four [if] statements of lines 150-157 clamp each axis on its own. *)
Lemma zoom_fac_pair f0 f1 :
  zoom_fac (Pair f0 f1) = (spec_clamp f0, spec_clamp f1).
Proof.
  unfold zoom_fac. cbv zeta. cbn [fst snd].
  destruct (py.gt f0 1) eqn:G0; cbn [fst snd];
    destruct (py.gt f1 1) eqn:G1; cbn [fst snd];
    change (py.le 1 0) with false; cbv iota; cbn [fst snd];
    try destruct (py.le f0 0) eqn:L0; cbn [fst snd];
    try destruct (py.le f1 0) eqn:L1; cbn [fst snd];
    change (py.le (1 # 2) 0) with false; cbv iota;
    repeat match goal with
    | G : py.gt ?f 1 = true |- _ => rewrite (spec_clamp_above f G); clear G
    | G : py.gt ?f 1 = false, L : py.le ?f 0 = true |- _ =>
        rewrite (spec_clamp_below f G L); clear G
    | G : py.gt ?f 1 = false, L : py.le ?f 0 = false |- _ =>
        rewrite (spec_clamp_within f G L); clear G
    end; reflexivity.
Qed.

Lemma zoom_fac_scalar f : zoom_fac (Scalar f) = zoom_fac (Pair f f).
Proof. reflexivity. Qed.

Lemma spec_clamp_idempotent f : spec_clamp (spec_clamp f) = spec_clamp f.
Proof.
  unfold spec_clamp at 2.
  destruct (Qlt_le_dec 1 f); [|destruct (Qlt_le_dec 0 f)]; unfold spec_clamp;
    repeat match goal with
    | |- context [Qlt_le_dec ?x ?y] => destruct (Qlt_le_dec x y)
    end; try reflexivity; lra.
Qed.

(** C7. For every image (indeed every argument [img]) and every scalar
    or per-axis factor, [zoom] gives the result it gives on the factor
    clamped axis by axis: above 1 counts as 1 and at or below 0 counts
    as 0.5. In particular factor 2.0 behaves as 1.0 and 0.0 as 0.5. The
    same holds of the whole function, normalizer call included. *)
Theorem zoom_clamps_each_axis (img : pyval) (σ : gmap loc ndarray) (f0 f1 : Q) :
  zoom_body img (Pair f0 f1) σ
    = zoom_body img (Pair (spec_clamp f0) (spec_clamp f1)) σ ∧
  zoom_body img (Scalar f0) σ = zoom_body img (Scalar (spec_clamp f0)) σ ∧
  zoom_body img (Scalar 2) σ = zoom_body img (Scalar 1) σ ∧
  zoom_body img (Scalar 0) σ = zoom_body img (Scalar (1 # 2)) σ ∧
  zoom img (Pair f0 f1) σ = zoom img (Pair (spec_clamp f0) (spec_clamp f1)) σ ∧
  zoom img (Scalar f0) σ = zoom img (Scalar (spec_clamp f0)) σ.
Proof.
  assert (Hbody : ∀ v s fac fac',
            zoom_fac fac = zoom_fac fac' → zoom_body v fac s = zoom_body v fac' s).
  { intros v s fac fac' E. unfold zoom_body. by rewrite E. }
  assert (Hpair : zoom_fac (Pair f0 f1)
                  = zoom_fac (Pair (spec_clamp f0) (spec_clamp f1))).
  { by rewrite !zoom_fac_pair, !spec_clamp_idempotent. }
  assert (Hscalar : zoom_fac (Scalar f0) = zoom_fac (Scalar (spec_clamp f0))).
  { by rewrite !zoom_fac_scalar, !zoom_fac_pair, !spec_clamp_idempotent. }
  repeat apply conj.
  - by apply Hbody.
  - by apply Hbody.
  - by apply Hbody.
  - by apply Hbody.
  - unfold zoom, mbind, M_bind.
    destruct (_force_RGB_array img σ) as [v s|e s|]; [by apply Hbody|done..].
  - unfold zoom, mbind, M_bind.
    destruct (_force_RGB_array img σ) as [v s|e s|]; [by apply Hbody|done..].
Qed.

(** ** Rolls *)

Lemma roll_length {A} (l : list A) shift : length (nd.roll l shift) = length l.
Proof.
  unfold nd.roll. rewrite length_app, length_drop, length_take. lia.
Qed.

Lemma roll_by {A} (l : list A) shift :
  l ≠ [] →
  nd.roll l shift
  = drop (length l - Z.to_nat (shift `mod` Z.of_nat (length l))) l
    ++ take (length l - Z.to_nat (shift `mod` Z.of_nat (length l))) l.
Proof.
  intros Hl. unfold nd.roll.
  destruct (decide (length l = 0%nat)) as [E|_]; [|done].
  by destruct l.
Qed.

(** A roll is undone by the roll with the opposite shift. *)
Lemma roll_inverse {A} (l : list A) (px : Z) :
  nd.roll (nd.roll l px) (- px) = l.
Proof.
  destruct (decide (l = [])) as [->|Hl]; [done|].
  assert (Hn : length l ≠ 0%nat) by (by destruct l).
  assert (Hl' : nd.roll l px ≠ []).
  { intros E. apply (f_equal length) in E. rewrite roll_length in E. done. }
  rewrite (roll_by _ _ Hl'), roll_length, (roll_by _ _ Hl).
  set (n := length l) in *.
  pose proof (Z.mod_pos_bound px (Z.of_nat n)) as Hoff.
  destruct (decide (px `mod` Z.of_nat n = 0)) as [E0|E0].
  - rewrite Z.mod_opp_l_z by lia. rewrite E0. simpl. rewrite !Nat.sub_0_r.
    assert (Hid : drop n l ++ take n l = l).
    { subst n. by rewrite drop_all, firstn_all. }
    rewrite Hid. exact Hid.
  - rewrite Z.mod_opp_l_nz by lia.
    set (off := Z.to_nat (px `mod` Z.of_nat n)) in *.
    replace (Z.to_nat (Z.of_nat n - px `mod` Z.of_nat n)) with (n - off)%nat by lia.
    replace (n - (n - off))%nat with off by lia.
    assert (Hd : length (drop (n - off) l) = off)
      by (rewrite length_drop; subst n; lia).
    rewrite (drop_app_length' _ _ _ (eq_sym Hd)),
            (take_app_length' _ _ _ (eq_sym Hd)).
    apply take_drop.
Qed.

(** ** [rolldown] twice, from the rank dispatch on *)

Lemma force_rank_rgb (σ : gmap loc ndarray) p a :
  σ !! p = Some (Rank3 a) → force_rank (VArr p) σ = Returns (VArr p) σ.
Proof.
  intros Hp. unfold force_rank.
  assert (E : np.shape_len (VArr p) σ = Returns 3%nat σ).
  { unfold np.shape_len. by rewrite Hp. }
  by rewrite (bind_returns _ _ _ _ _ E).
Qed.

Lemma force_rank_gray (σ : gmap loc ndarray) p g :
  σ !! p = Some (Rank2 g) →
  force_rank (VArr p) σ
  = Returns (VArr (fresh_loc σ)) (<[fresh_loc σ := Rank3 (nd.dstack3 g)]> σ).
Proof.
  intros Hp. unfold force_rank.
  assert (E : np.shape_len (VArr p) σ = Returns 2%nat σ).
  { unfold np.shape_len. by rewrite Hp. }
  rewrite (bind_returns _ _ _ _ _ E). simpl.
  unfold np.dstack3. by rewrite Hp.
Qed.





(** ** Mirrors *)

Lemma assign_with_arrays (f : image sample → image sample → image sample)
    (σ : gmap loc ndarray) p q a b :
  σ !! p = Some (Rank3 a) → σ !! q = Some (Rank3 b) →
  np.assign_with f (VArr p) (VArr q) σ = Returns () (<[p := Rank3 (f a b)]> σ).
Proof.
  intros Hp Hq. unfold np.assign_with.
  rewrite (on_rgb_array _ _ _ _ _ Hp). by rewrite (on_rgb_array _ _ _ _ _ Hq).
Qed.

(** What each mirror leaves in the store: the flipped copy in a new
    object and the assigned half in the input object, which is the
    object returned. *)
Section mirror_runs.
Context (σ : gmap loc ndarray) (p : loc) (a : image sample).
Hypothesis Hp : σ !! p = Some (Rank3 a).

Let q := fresh_loc σ.

Lemma mirrorleft_body_runs :
  mirrorleft_body (VArr p) σ
  = Returns (VArr p)
      (<[p := Rank3 (nd.assign_cols_from (Z.of_nat (nd.ncols a) `div` 2) a
                       (nd.fliplr a))]>
         (<[q := Rank3 (nd.fliplr a)]> σ)).
Proof.
  unfold mirrorleft_body.
  rewrite (bind_returns _ _ _ _ _ (fliplr_array _ _ _ Hp)). fold q.
  pose proof (lookup_alloc_other σ p _ (Rank3 (nd.fliplr a)) Hp) as Hp'. fold q in Hp'.
  rewrite (bind_returns _ _ _ _ _ (shape1_array _ _ _ Hp')).
  unfold np.assign_cols_from.
  erewrite bind_returns; [reflexivity|].
  apply assign_with_arrays; [done|]. apply lookup_insert_eq.
Qed.

Lemma mirrorright_body_runs :
  mirrorright_body (VArr p) σ
  = Returns (VArr p)
      (<[p := Rank3 (nd.assign_cols_to (Z.of_nat (nd.ncols a) `div` 2) a
                       (nd.fliplr a))]>
         (<[q := Rank3 (nd.fliplr a)]> σ)).
Proof.
  unfold mirrorright_body.
  rewrite (bind_returns _ _ _ _ _ (fliplr_array _ _ _ Hp)). fold q.
  pose proof (lookup_alloc_other σ p _ (Rank3 (nd.fliplr a)) Hp) as Hp'. fold q in Hp'.
  rewrite (bind_returns _ _ _ _ _ (shape1_array _ _ _ Hp')).
  unfold np.assign_cols_to.
  erewrite bind_returns; [reflexivity|].
  apply assign_with_arrays; [done|]. apply lookup_insert_eq.
Qed.

Lemma mirrorup_body_runs :
  mirrorup_body (VArr p) σ
  = Returns (VArr p)
      (<[p := Rank3 (nd.assign_rows_from (Z.of_nat (nd.nrows a) `div` 2) a
                       (nd.flipud a))]>
         (<[q := Rank3 (nd.flipud a)]> σ)).
Proof.
  unfold mirrorup_body.
  rewrite (bind_returns _ _ _ _ _ (flipud_array _ _ _ Hp)). fold q.
  pose proof (lookup_alloc_other σ p _ (Rank3 (nd.flipud a)) Hp) as Hp'. fold q in Hp'.
  rewrite (bind_returns _ _ _ _ _ (shape0_array _ _ _ Hp')).
  unfold np.assign_rows_from.
  erewrite bind_returns; [reflexivity|].
  apply assign_with_arrays; [done|]. apply lookup_insert_eq.
Qed.

Lemma mirrordown_body_runs :
  mirrordown_body (VArr p) σ
  = Returns (VArr p)
      (<[p := Rank3 (nd.assign_rows_to (Z.of_nat (nd.nrows a) `div` 2) a
                       (nd.flipud a))]>
         (<[q := Rank3 (nd.flipud a)]> σ)).
Proof.
  unfold mirrordown_body.
  rewrite (bind_returns _ _ _ _ _ (flipud_array _ _ _ Hp)). fold q.
  pose proof (lookup_alloc_other σ p _ (Rank3 (nd.flipud a)) Hp) as Hp'. fold q in Hp'.
  rewrite (bind_returns _ _ _ _ _ (shape0_array _ _ _ Hp')).
  unfold np.assign_rows_to.
  erewrite bind_returns; [reflexivity|].
  apply assign_with_arrays; [done|]. apply lookup_insert_eq.
Qed.
End mirror_runs.

Lemma slice_bound_half (W : nat) :
  py.slice_bound W (Z.of_nat W `div` 2) = (W / 2)%nat.
Proof.
  change 2 with (Z.of_nat 2). rewrite <- Nat2Z.inj_div.
  rewrite slice_bound_in_range, Nat2Z.id; [done|].
  pose proof (Nat.div_mod_eq W 2). lia.
Qed.

Lemma half_le (W : nat) : (W / 2 ≤ W)%nat.
Proof. pose proof (Nat.div_mod_eq W 2). lia. Qed.

(** One row after [img[:, bnd:, :] = flipclone[:, bnd:, :]]. *)
Lemma mirrorleft_row {T} (r0 : list T) (W : nat) :
  length r0 = W →
  let r := take (W / 2) r0 ++ drop (W / 2) (reverse r0) in
  length r = W ∧
  take (W / 2) r = take (W / 2) r0 ∧
  (∀ j, (W / 2 ≤ j < W)%nat → r !! j = r0 !! (W - 1 - j)%nat) ∧
  (Nat.Even W → drop (W / 2) r = reverse (take (W / 2) r)).
Proof.
  intros HW r. pose proof (half_le W) as Hk.
  assert (Htake : length (take (W / 2) r0) = (W / 2)%nat)
    by (rewrite length_take; lia).
  repeat split.
  - subst r. rewrite length_app, length_drop, length_reverse, Htake. lia.
  - subst r. by rewrite take_app_length'.
  - intros j Hj. subst r.
    rewrite lookup_app_r by lia. rewrite Htake, lookup_drop.
    rewrite reverse_lookup by lia. f_equal. lia.
  - intros [m Hm]. subst r.
    rewrite (drop_app_length' _ _ _ (eq_sym Htake)).
    rewrite (take_app_length' _ _ _ (eq_sym Htake)).
    rewrite drop_reverse. do 2 f_equal.
    assert (W / 2 = m)%nat as -> by (subst W; rewrite Hm, Nat.mul_comm; apply Nat.div_mul; lia).
    lia.
Qed.

Lemma assign_cols_from_fliplr {T} (a : image T) (H W : nat) :
  nd.rect H W a →
  nd.assign_cols_from (Z.of_nat W `div` 2) a (nd.fliplr a)
  = (λ r0, take (W / 2) r0 ++ drop (W / 2) (reverse r0)) <$> a.
Proof.
  intros [_ Ha]. unfold nd.assign_cols_from, nd.fliplr.
  rewrite zip_with_fmap_r, zip_with_diag.
  apply Forall_fmap_ext_1. eapply Forall_impl; [exact Ha|].
  intros r0 [Hr _]. simpl. unfold py.slice_to, py.slice_from.
  by rewrite length_reverse, Hr, slice_bound_half.
Qed.

(** X30. From line 218 on, on a normalized image of shape (H, W, 3),
    [mirrorleft] returns
    the input object whose rows keep their left columns [0, W/2) and
    have every column j of [W/2, W) overwritten with the former column
    W-1-j. For even W the right half of each row is the left half
    flipped; for odd W the centre column (W-1)/2 lies in the overwritten
    range. *)
Theorem mirrorleft_right_half_is_flipped_left (σ : gmap loc ndarray)
    (p : loc) (a : image sample) (H W : nat) :
  σ !! p = Some (Rank3 a) →
  nd.rect H W a →
  ∃ b σ',
    mirrorleft_body (VArr p) σ = Returns (VArr p) σ' ∧
    σ' !! p = Some (Rank3 b) ∧
    length b = H ∧
    (∀ i r0, a !! i = Some r0 →
       ∃ r, b !! i = Some r ∧
         length r = W ∧
         take (W / 2) r = take (W / 2) r0 ∧
         (∀ j, (W / 2 ≤ j < W)%nat → r !! j = r0 !! (W - 1 - j)%nat) ∧
         (Nat.Even W → drop (W / 2) r = reverse (take (W / 2) r))) ∧
    (Nat.Odd W → (W / 2 ≤ (W - 1) / 2 < W)%nat).
Proof.
  intros Hp Ha.
  exists ((λ r0, take (W / 2) r0 ++ drop (W / 2) (reverse r0)) <$> a).
  eexists. split; [|split; [|split; [|split]]].
  - rewrite (mirrorleft_body_runs _ _ _ Hp). reflexivity.
  - rewrite lookup_insert_eq. do 2 f_equal.
    destruct a as [|r a'] eqn:Ea; [done|]. rewrite <- Ea in *.
    assert (HH : (0 < H)%nat) by (destruct Ha as [<- _]; subst a; simpl; lia).
    rewrite (rect_ncols _ _ _ Ha HH). by apply (assign_cols_from_fliplr _ H).
  - rewrite length_fmap. by destruct Ha.
  - intros i r0 Hi. eexists. split; [by rewrite list_lookup_fmap, Hi|].
    apply mirrorleft_row. apply (rect_row_length _ _ _ _ Ha).
    by apply list_elem_of_lookup_2 in Hi.
  - intros [m Hm]. subst W.
    replace (2 * m + 1 - 1)%nat with (m * 2)%nat by lia.
    rewrite Nat.div_mul by lia.
    replace (2 * m + 1)%nat with (1 + m * 2)%nat by lia.
    rewrite Nat.div_add by lia. simpl. lia.
Qed.

Lemma mirrorleft_right_half_is_flipped_left_witness :
  let a : image sample :=
    [[[1%Q; 1%Q; 1%Q]; [2%Q; 2%Q; 2%Q]; [3%Q; 3%Q; 3%Q]; [4%Q; 4%Q; 4%Q]]] in
  let σ : gmap loc ndarray := {[ 0%nat := Rank3 a ]} in
  ∃ b σ',
    mirrorleft_body (VArr 0%nat) σ = Returns (VArr 0%nat) σ' ∧
    σ' !! 0%nat = Some (Rank3 b) ∧
    (∀ r, b !! 0%nat = Some r → drop 2 r = reverse (take 2 r)).
Proof.
  intros a σ.
  destruct (mirrorleft_right_half_is_flipped_left σ 0%nat a 1 4) as
    (b & σ' & Hrun & Hb & _ & Hrows & _).
  - reflexivity.
  - split; [reflexivity|]. repeat constructor.
  - exists b, σ'. split; [exact Hrun|]. split; [exact Hb|].
    intros r Hr. destruct (Hrows 0%nat _ eq_refl) as (r' & Hr' & _ & _ & _ & Heven).
    assert (r' = r) as -> by congruence.
    apply Heven. by exists 2%nat.
Defined.

(** ** Rotation *)

Lemma fmap_as_seq {A B} `{!Inhabited A} (f : A → B) (l : list A) :
  f <$> l = (λ i, f (l !!! i)) <$> seq 0 (length l).
Proof.
  apply list_eq. intros i. rewrite !list_lookup_fmap.
  destruct (decide (i < length l)%nat) as [Hi|Hi].
  - rewrite lookup_seq_lt by done. simpl.
    destruct (lookup_lt_is_Some_2 l i Hi) as [x Hx].
    by rewrite Hx, (list_lookup_total_correct _ _ _ Hx).
  - rewrite lookup_seq_ge by lia. by rewrite lookup_ge_None_2 by lia.
Qed.

Lemma reverse_fmap_as_seq {A B} `{!Inhabited A} (f : A → B) (l : list A) :
  reverse (f <$> l)
  = (λ i, f (l !!! (length l - 1 - i)%nat)) <$> seq 0 (length l).
Proof.
  rewrite <- fmap_reverse, fmap_as_seq, length_reverse.
  apply Forall_fmap_ext_1, Forall_forall. intros i Hi.
  apply elem_of_seq in Hi. f_equal.
  rewrite !list_lookup_total_alt, reverse_lookup by lia.
  do 2 f_equal. lia.
Qed.

Lemma rot90_quarter_turns {T} (a : image T) (H W : nat) :
  nd.rect H W a → (0 < H)%nat →
  nd.rot90 a 1 = spec_rotate_ccw H W a ∧
  nd.rot90 a (-1) = spec_rotate_cw H W a.
Proof.
  intros Ha HH. pose proof (rect_ncols _ _ _ Ha HH) as Hcols.
  destruct Ha as [Hlen Ha]. split.
  - change (nd.rot90 a 1) with (nd.transpose (nd.fliplr a)).
    unfold nd.transpose, spec_rotate_ccw.
    assert (nd.ncols (nd.fliplr a) = W) as ->.
    { destruct a as [|r a']; simpl in *; [lia|].
      rewrite length_reverse. by inversion Ha as [|? ? [? _] _]. }
    apply Forall_fmap_ext_1, Forall_forall. intros j Hj.
    apply elem_of_seq in Hj. unfold nd.column, nd.fliplr.
    rewrite <- list_fmap_compose, fmap_as_seq, Hlen.
    apply Forall_fmap_ext_1, Forall_forall. intros c Hc.
    apply elem_of_seq in Hc. simpl.
    assert (Hr : length (a !!! c) = W).
    { rewrite Forall_forall in Ha. apply Ha, list_elem_of_lookup_total_2. lia. }
    generalize dependent (a !!! c). intros r Hr.
    rewrite !(list_lookup_total_alt _ j), !(list_lookup_total_alt r).
    rewrite reverse_lookup by lia. do 2 f_equal. lia.
  - change (nd.rot90 a (-1)) with (nd.fliplr (nd.transpose a)).
    unfold nd.transpose, nd.fliplr, spec_rotate_cw.
    rewrite Hcols, <- list_fmap_compose.
    apply Forall_fmap_ext_1, Forall_forall. intros j Hj. simpl.
    unfold nd.column. by rewrite reverse_fmap_as_seq, Hlen.
Qed.

(** C3, on the code. On a normalized image of shape (H, W, 3) with
    H > 0, [rot90] with [ccw] left at its default turns the image
    counter-clockwise and [rot90(img, ccw=True)] turns it clockwise:
    the two directions are exchanged with respect to the claim and to
    the function's own documentation. *)
Theorem rot90_directions_exchanged (σ : gmap loc ndarray) (p : loc)
    (a : image sample) (H W : nat) :
  σ !! p = Some (Rank3 a) →
  nd.rect H W a →
  (0 < H)%nat →
  rot90_body (VArr p) false σ
    = Returns (VArr (fresh_loc σ))
        (<[fresh_loc σ := Rank3 (spec_rotate_ccw H W a)]> σ) ∧
  rot90_body (VArr p) true σ
    = Returns (VArr (fresh_loc σ))
        (<[fresh_loc σ := Rank3 (spec_rotate_cw H W a)]> σ).
Proof.
  intros Hp Ha HH. destruct (rot90_quarter_turns a H W Ha HH) as [E1 E3].
  unfold rot90_body. rewrite !(rot90_array _ _ _ Hp). by rewrite E1, E3.
Qed.

(** The 2 by 2 image with pixels 1 2 / 3 4: the default call returns
    2 4 / 1 3, the counter-clockwise turn; the clockwise turn is
    3 1 / 4 2. *)
Lemma rot90_directions_exchanged_witness :
  let px (n : Z) : list Q := [inject_Z n; inject_Z n; inject_Z n] in
  let a : image sample := [[px 1; px 2]; [px 3; px 4]] in
  let σ : gmap loc ndarray := {[ 0%nat := Rank3 a ]} in
  rot90_body (VArr 0%nat) false σ
    = Returns (VArr 1%nat)
        (<[1%nat := Rank3 [[px 2; px 4]; [px 1; px 3]]]> σ) ∧
  spec_rotate_cw 2 2 a = [[px 3; px 1]; [px 4; px 2]] ∧
  rot90_body (VArr 0%nat) false σ
    ≠ Returns (VArr 1%nat) (<[1%nat := Rank3 (spec_rotate_cw 2 2 a)]> σ).
Proof.
  intros px a σ.
  destruct (rot90_directions_exchanged σ 0%nat a 2 2) as [Hdefault _].
  - reflexivity.
  - split; [reflexivity|]. repeat constructor.
  - lia.
  - split; [exact Hdefault|]. split; [reflexivity|].
    rewrite Hdefault. intros E.
    apply (f_equal (λ o, match o with
                         | Returns _ s => s !! 1%nat
                         | _ => None
                         end)) in E.
    rewrite !lookup_insert_eq in E. discriminate E.
Defined.

(** ** The fill loops of the shifts *)

Lemma for_each_in_place {I} (q : loc) (body : I → M ())
    (step : image sample → I → result (image sample)) :
  (∀ σ a i, σ !! q = Some (Rank3 a) → body i σ = in_place q (step a i) σ) →
  ∀ l σ a, σ !! q = Some (Rank3 a) →
    for_each l body σ
    = match run_fill step l a with
      | (b, None) => Returns () (<[q := Rank3 b]> σ)
      | (b, Some e) => Raises e (<[q := Rank3 b]> σ)
      end.
Proof.
  intros Hbody l. induction l as [|i l IH]; intros σ a Hq; simpl.
  - by rewrite insert_id.
  - unfold mbind, M_bind. rewrite (Hbody _ _ _ Hq).
    destruct (step a i) as [a'|e]; simpl.
    + rewrite (IH _ a') by apply lookup_insert_eq.
      destruct (run_fill step l a') as [b [e|]]; by rewrite insert_insert_eq.
    + by rewrite insert_id.
Qed.

Section loop_bodies.
Context (σ : gmap loc ndarray) (q : loc) (a : image sample).
Hypothesis Hq : σ !! q = Some (Rank3 a).

Lemma getrow_array i :
  np.getrow (VArr q) i σ
  = match nd.getrow a i with Ok r => Returns r σ | Raise e => Raises e σ end.
Proof.
  unfold np.getrow. rewrite (on_rgb_array _ _ _ _ _ Hq).
  by destruct (nd.getrow a i).
Qed.

Lemma setrow_array i r :
  np.setrow (VArr q) i r σ = in_place q (nd.setrow a i r) σ.
Proof.
  unfold np.setrow. rewrite (on_rgb_array _ _ _ _ _ Hq).
  by destruct (nd.setrow a i r).
Qed.

Lemma getcol_array j :
  np.getcol (VArr q) j σ
  = match nd.getcol a j with Ok c => Returns c σ | Raise e => Raises e σ end.
Proof.
  unfold np.getcol. rewrite (on_rgb_array _ _ _ _ _ Hq).
  by destruct (nd.getcol a j).
Qed.

Lemma setcol_array j c :
  np.setcol (VArr q) j c σ = in_place q (nd.setcol a j c) σ.
Proof.
  unfold np.setcol. rewrite (on_rgb_array _ _ _ _ _ Hq).
  by destruct (nd.setcol a j c).
Qed.

Lemma fill_down_body px i :
  (r ← np.getrow (VArr q) px; np.setrow (VArr q) i r) σ
  = in_place q (fill_down_step px a i) σ.
Proof.
  unfold mbind, M_bind, fill_down_step. rewrite getrow_array.
  destruct (nd.getrow a px) as [r|e]; simpl; [|done]. apply setrow_array.
Qed.

Lemma fill_right_body px i :
  (c ← np.getcol (VArr q) px; np.setcol (VArr q) i c) σ
  = in_place q (fill_right_step px a i) σ.
Proof.
  unfold mbind, M_bind, fill_right_step. rewrite getcol_array.
  destruct (nd.getcol a px) as [c|e]; simpl; [|done]. apply setcol_array.
Qed.

Lemma fill_up_body px i :
  (h ← np.shape0 (VArr q);
   r ← np.getrow (VArr q) (h - px);
   h ← np.shape0 (VArr q);
   np.setrow (VArr q) (h - i - 1) r) σ
  = in_place q (fill_up_step px a i) σ.
Proof.
  rewrite (bind_returns _ _ _ _ _ (shape0_array _ _ _ Hq)).
  unfold mbind at 1, M_bind at 1, fill_up_step. rewrite getrow_array.
  destruct (nd.getrow a _) as [r|e]; simpl; [|done].
  rewrite (bind_returns _ _ _ _ _ (shape0_array _ _ _ Hq)).
  apply setrow_array.
Qed.

Lemma fill_left_body px i :
  (w ← np.shape1 (VArr q);
   c ← np.getcol (VArr q) (w - px);
   w ← np.shape1 (VArr q);
   np.setcol (VArr q) (w - i - 1) c) σ
  = in_place q (fill_left_step px a i) σ.
Proof.
  rewrite (bind_returns _ _ _ _ _ (shape1_array _ _ _ Hq)).
  unfold mbind at 1, M_bind at 1, fill_left_step. rewrite getcol_array.
  destruct (nd.getcol a _) as [c|e]; simpl; [|done].
  rewrite (bind_returns _ _ _ _ _ (shape1_array _ _ _ Hq)).
  apply setcol_array.
Qed.
End loop_bodies.

Section fills.
Context (σ : gmap loc ndarray) (q : loc) (a : image sample) (px : Z).
Hypothesis Hq : σ !! q = Some (Rank3 a).
Hypothesis Hpx : 0 < px.

Lemma shiftdown_fill_runs :
  shiftdown_fill (VArr q) px σ
  = fill_outcome q σ (run_fill (fill_down_step px) (py.range px) a).
Proof.
  unfold shiftdown_fill. destruct (Z.gtb_spec px 0) as [_|]; [|lia].
  unfold mbind at 1, M_bind at 1.
  rewrite (for_each_in_place q _ (fill_down_step px)
             (λ σ a i H, fill_down_body σ q a H px i) _ _ _ Hq).
  by destruct (run_fill _ _ _) as [b [e|]].
Qed.

Lemma shiftright_fill_runs :
  shiftright_fill (VArr q) px σ
  = fill_outcome q σ (run_fill (fill_right_step px) (py.range px) a).
Proof.
  unfold shiftright_fill. destruct (Z.gtb_spec px 0) as [_|]; [|lia].
  unfold mbind at 1, M_bind at 1.
  rewrite (for_each_in_place q _ (fill_right_step px)
             (λ σ a i H, fill_right_body σ q a H px i) _ _ _ Hq).
  by destruct (run_fill _ _ _) as [b [e|]].
Qed.

Lemma shiftup_fill_runs :
  shiftup_fill (VArr q) px σ
  = fill_outcome q σ (run_fill (fill_up_step px) (py.range px) a).
Proof.
  unfold shiftup_fill. destruct (Z.gtb_spec px 0) as [_|]; [|lia].
  unfold mbind at 1, M_bind at 1.
  rewrite (for_each_in_place q _ (fill_up_step px)
             (λ σ a i H, fill_up_body σ q a H px i) _ _ _ Hq).
  by destruct (run_fill _ _ _) as [b [e|]].
Qed.

Lemma shiftleft_fill_runs :
  shiftleft_fill (VArr q) px σ
  = fill_outcome q σ (run_fill (fill_left_step px) (py.range px) a).
Proof.
  unfold shiftleft_fill. destruct (Z.gtb_spec px 0) as [_|]; [|lia].
  unfold mbind at 1, M_bind at 1.
  rewrite (for_each_in_place q _ (fill_left_step px)
             (λ σ a i H, fill_left_body σ q a H px i) _ _ _ Hq).
  by destruct (run_fill _ _ _) as [b [e|]].
Qed.
End fills.

(** *** The fill from the end of an axis, on a list *)

Section fill_from_end.
Context {A : Type} `{!Inhabited A}.
Implicit Types (l : list A).

Lemma stretched_length l n i0 k : length l = n → length (stretched l n i0 k) = n.
Proof.
  intros Hn. unfold stretched.
  rewrite length_app, length_take, length_replicate. lia.
Qed.

Lemma stretched_source l n i0 k :
  length l = n → (i0 < n)%nat → stretched l n i0 k !!! i0 = l !!! i0.
Proof.
  intros Hn Hi. unfold stretched.
  destruct (decide (i0 < n - k)%nat) as [Hlt|Hge].
  - rewrite lookup_total_app_l by (rewrite length_take; lia).
    by rewrite lookup_total_take_lt.
  - rewrite lookup_total_app_r by (rewrite length_take; lia).
    rewrite lookup_total_replicate_2; [done|]. rewrite length_take. lia.
Qed.

Lemma insert_last_of_take l m x :
  (m < length l)%nat → <[m := x]> (take (S m) l) = take m l ++ [x].
Proof.
  intros Hm. destruct (lookup_lt_is_Some_2 l m Hm) as [y Hy].
  rewrite (take_S_r _ _ _ Hy).
  replace m with (length (take m l) + 0)%nat at 1
    by (rewrite length_take; lia).
  by rewrite insert_app_r.
Qed.

(** One iteration, at the position [j] that [n - k - 1] denotes. *)
Lemma stretched_step l n i0 k :
  length l = n → (i0 < n)%nat → (k < 2 * n)%nat →
  <[(if decide (k < n)%nat then n - k - 1 else 2 * n - k - 1)%nat
      := stretched l n i0 k !!! i0]> (stretched l n i0 k)
  = stretched l n i0 (S k).
Proof.
  intros Hn Hi Hk. rewrite (stretched_source _ _ _ _ Hn Hi).
  unfold stretched. destruct (decide (k < n)%nat) as [Hlt|Hge].
  - rewrite insert_app_l by (rewrite length_take; lia).
    replace (n - S k)%nat with (n - k - 1)%nat by lia.
    replace (S k `min` n)%nat with (S (k `min` n)) by lia.
    set (m := (n - k - 1)%nat).
    replace (n - k)%nat with (S m) by lia.
    rewrite insert_last_of_take by lia.
    by rewrite <- app_assoc.
  - replace (n - k)%nat with 0%nat by lia.
    replace (n - S k)%nat with 0%nat by lia.
    replace (S k `min` n)%nat with (k `min` n)%nat by lia.
    simpl. apply insert_replicate.
Qed.
End fill_from_end.

(** Positions denoted by the indices of the loops. *)
Lemma index_of_source (n p : nat) :
  (0 < p ≤ 2 * n)%nat →
  py.index n (Z.of_nat n - Z.of_nat p)
  = Ok (if decide (p ≤ n)%nat then n - p else 2 * n - p)%nat.
Proof.
  intros Hp. unfold py.index.
  destruct (decide (p ≤ n)%nat).
  - rewrite bool_decide_eq_true_2 by lia. f_equal. lia.
  - rewrite bool_decide_eq_false_2 by lia.
    rewrite bool_decide_eq_true_2 by lia. f_equal. lia.
Qed.

Lemma index_of_target (n k : nat) :
  (k < 2 * n)%nat →
  py.index n (Z.of_nat n - Z.of_nat k - 1)
  = Ok (if decide (k < n)%nat then n - k - 1 else 2 * n - k - 1)%nat.
Proof.
  intros Hk. unfold py.index.
  destruct (decide (k < n)%nat).
  - rewrite bool_decide_eq_true_2 by lia. f_equal. lia.
  - rewrite bool_decide_eq_false_2 by lia.
    rewrite bool_decide_eq_true_2 by lia. f_equal. lia.
Qed.

Lemma index_out_of_range (n : nat) (i : Z) :
  Z.of_nat n ≤ i ∨ i < - Z.of_nat n → py.index n i = Raise IndexError.
Proof.
  intros Hi. unfold py.index.
  rewrite bool_decide_eq_false_2 by lia. by rewrite bool_decide_eq_false_2 by lia.
Qed.

(** *** [shiftup]'s loop *)

Lemma fill_up_iterations (a : image sample) (H p : nat) :
  length a = H → (0 < p ≤ 2 * H)%nat →
  ∀ m k, (k + m = p)%nat →
    let i0 := (if decide (p ≤ H)%nat then H - p else 2 * H - p)%nat in
    run_fill (fill_up_step (Z.of_nat p)) (Z.of_nat <$> seq k m)
      (stretched a H i0 k)
    = (stretched a H i0 p, None).
Proof.
  intros Hlen Hp m. induction m as [|m IH]; intros k Hk i0.
  - simpl. by replace k with p by lia.
  - simpl.
    assert (Hi0 : (i0 < H)%nat) by (subst i0; destruct (decide (p ≤ H)%nat); lia).
    unfold fill_up_step at 1, nd.getrow, nd.setrow, nd.nrows.
    rewrite (stretched_length _ _ _ _ Hlen).
    rewrite index_of_source by lia. fold i0. simpl.
    rewrite index_of_target by lia. simpl.
    rewrite (stretched_step _ _ _ _ Hlen Hi0) by lia.
    apply IH. lia.
Qed.

Lemma fill_up_result (a : image sample) (H p : nat) :
  length a = H → (0 < p ≤ 2 * H)%nat →
  run_fill (fill_up_step (Z.of_nat p)) (py.range (Z.of_nat p)) a
  = (take (H - p) a ++ replicate (p `min` H)
       (a !!! (if decide (p ≤ H)%nat then H - p else 2 * H - p)%nat), None).
Proof.
  intros Hlen Hp. unfold py.range. rewrite Nat2Z.id.
  pose proof (fill_up_iterations a H p Hlen Hp p 0%nat eq_refl) as Hrun.
  simpl in Hrun. unfold stretched at 1 in Hrun. simpl in Hrun.
  rewrite Nat.sub_0_r, <- Hlen, firstn_all, app_nil_r in Hrun.
  rewrite Hlen in Hrun. exact Hrun.
Qed.

Lemma fill_up_fails (a : image sample) (H : nat) (px : Z) :
  length a = H → 2 * Z.of_nat H < px →
  run_fill (fill_up_step px) (py.range px) a = (a, Some IndexError).
Proof.
  intros Hlen Hpx. unfold py.range.
  destruct (Z.to_nat px) as [|m] eqn:Em; [lia|]. simpl.
  unfold fill_up_step, nd.getrow, nd.nrows. rewrite Hlen.
  by rewrite index_out_of_range by lia.
Qed.

(** *** [shiftdown]'s loop fails at once when [px] is not a row *)

Lemma fill_down_fails (a : image sample) (H : nat) (px : Z) :
  length a = H → 0 < px → Z.of_nat H ≤ px →
  run_fill (fill_down_step px) (py.range px) a = (a, Some IndexError).
Proof.
  intros Hlen Hpos Hpx. unfold py.range.
  destruct (Z.to_nat px) as [|m] eqn:Em; [lia|]. simpl.
  unfold fill_down_step, nd.getrow, nd.nrows. rewrite Hlen.
  by rewrite index_out_of_range by lia.
Qed.

(** *** [shiftleft]'s and [shiftright]'s loops *)

Lemma setcol_of_column (a : image sample) (j i0 : nat) :
  zip_with (λ r p, <[j := p]> r) a (nd.column i0 a)
  = (λ r, <[j := r !!! i0]> r) <$> a.
Proof. unfold nd.column. by rewrite zip_with_fmap_r, zip_with_diag. Qed.

Lemma ncols_fmap (f : list (list sample) → list (list sample))
    (a : image sample) (H W : nat) :
  nd.rect H W a → (0 < H)%nat →
  (∀ r, length r = W → length (f r) = W) →
  nd.ncols (f <$> a) = W.
Proof.
  intros [Hlen Ha] HH Hf. destruct a as [|r a']; simpl in *; [lia|].
  apply Hf. by inversion Ha as [|? ? [? _] _].
Qed.

Lemma fill_left_iterations (a : image sample) (H W p : nat) :
  nd.rect H W a → (0 < H)%nat → (0 < p ≤ 2 * W)%nat →
  ∀ m k, (k + m = p)%nat →
    let i0 := (if decide (p ≤ W)%nat then W - p else 2 * W - p)%nat in
    run_fill (fill_left_step (Z.of_nat p)) (Z.of_nat <$> seq k m)
      ((λ r, stretched r W i0 k) <$> a)
    = ((λ r, stretched r W i0 p) <$> a, None).
Proof.
  intros Ha HH Hp m. induction m as [|m IH]; intros k Hk i0.
  - simpl. by replace k with p by lia.
  - simpl.
    assert (Hi0 : (i0 < W)%nat) by (subst i0; destruct (decide (p ≤ W)%nat); lia).
    unfold fill_left_step at 1, nd.getcol, nd.setcol.
    rewrite (ncols_fmap _ _ H W Ha HH)
      by (intros r Hr; by apply stretched_length).
    rewrite index_of_source by lia. fold i0. simpl.
    rewrite index_of_target by lia. simpl.
    rewrite setcol_of_column, <- list_fmap_compose.
    replace ((λ r, <[_ := r !!! i0]> r) ∘ (λ r, stretched r W i0 k) <$> a)
      with ((λ r, stretched r W i0 (S k)) <$> a).
    + apply IH. lia.
    + apply Forall_fmap_ext_1. destruct Ha as [_ Ha].
      eapply Forall_impl; [exact Ha|]. intros r [Hr _]. simpl.
      symmetry. apply (stretched_step _ _ _ _ Hr Hi0). lia.
Qed.

Lemma fill_left_result (a : image sample) (H W p : nat) :
  nd.rect H W a → (0 < H)%nat → (0 < p ≤ 2 * W)%nat →
  run_fill (fill_left_step (Z.of_nat p)) (py.range (Z.of_nat p)) a
  = ((λ r, take (W - p) r ++ replicate (p `min` W)
        (r !!! (if decide (p ≤ W)%nat then W - p else 2 * W - p)%nat)) <$> a,
     None).
Proof.
  intros Ha HH Hp. unfold py.range. rewrite Nat2Z.id.
  pose proof (fill_left_iterations a H W p Ha HH Hp p 0%nat eq_refl) as Hrun.
  simpl in Hrun.
  replace ((λ r, stretched r W _ 0) <$> a) with a in Hrun; [exact Hrun|].
  rewrite <- (list_fmap_id a) at 1. apply Forall_fmap_ext_1.
  destruct Ha as [_ Ha]. eapply Forall_impl; [exact Ha|].
  intros r [Hr _]. unfold stretched. simpl.
  by rewrite Nat.sub_0_r, <- Hr, firstn_all, app_nil_r.
Qed.

Lemma fill_left_fails (a : image sample) (H W : nat) (px : Z) :
  nd.rect H W a → (0 < H)%nat → 2 * Z.of_nat W < px →
  run_fill (fill_left_step px) (py.range px) a = (a, Some IndexError).
Proof.
  intros Ha HH Hpx. unfold py.range.
  destruct (Z.to_nat px) as [|m] eqn:Em; [lia|]. simpl.
  unfold fill_left_step, nd.getcol. rewrite (rect_ncols _ _ _ Ha HH).
  by rewrite index_out_of_range by lia.
Qed.

Lemma fill_right_fails (a : image sample) (H W : nat) (px : Z) :
  nd.rect H W a → (0 < H)%nat → 0 < px → Z.of_nat W ≤ px →
  run_fill (fill_right_step px) (py.range px) a = (a, Some IndexError).
Proof.
  intros Ha HH Hpos Hpx. unfold py.range.
  destruct (Z.to_nat px) as [|m] eqn:Em; [lia|]. simpl.
  unfold fill_right_step, nd.getcol. rewrite (rect_ncols _ _ _ Ha HH).
  by rewrite index_out_of_range by lia.
Qed.

(** *** The shifts, from the roll to the end of the loop *)

Section shift_runs.
Context (σ : gmap loc ndarray) (p : loc) (a : image sample) (px : Z).
Hypothesis Hp : σ !! p = Some (Rank3 a).
Hypothesis Hpx : 0 < px.

Let q := fresh_loc σ.

Lemma fill_outcome_fresh x r :
  fill_outcome q (<[q := x]> σ) r = fill_outcome q σ r.
Proof. destruct r as [b [e|]]; simpl; by rewrite insert_insert_eq. Qed.

Lemma shiftdown_body_runs :
  shiftdown_body (VArr p) px σ
  = fill_outcome q σ
      (run_fill (fill_down_step px) (py.range px) (nd.roll_rows a px)).
Proof.
  unfold shiftdown_body, rolldown_body. rewrite Z.abs_eq by lia.
  rewrite (bind_returns _ _ _ _ _ (roll_axis0_array _ _ _ Hp px)). fold q.
  rewrite (shiftdown_fill_runs _ q (nd.roll_rows a px)); [|apply lookup_insert_eq|done].
  apply fill_outcome_fresh.
Qed.

Lemma shiftup_body_runs :
  shiftup_body (VArr p) px σ
  = fill_outcome q σ
      (run_fill (fill_up_step px) (py.range px) (nd.roll_rows a (- px))).
Proof.
  unfold shiftup_body, rolldown_body. rewrite Z.abs_eq by lia.
  rewrite (bind_returns _ _ _ _ _ (roll_axis0_array _ _ _ Hp (- px))). fold q.
  rewrite (shiftup_fill_runs _ q (nd.roll_rows a (- px))); [|apply lookup_insert_eq|done].
  apply fill_outcome_fresh.
Qed.

Lemma shiftleft_body_runs :
  shiftleft_body (VArr p) px σ
  = fill_outcome q σ
      (run_fill (fill_left_step px) (py.range px) (nd.roll_cols a (- px))).
Proof.
  unfold shiftleft_body, rollright_body. rewrite Z.abs_eq by lia.
  rewrite (bind_returns _ _ _ _ _ (roll_axis1_array _ _ _ Hp (- px))). fold q.
  rewrite (shiftleft_fill_runs _ q (nd.roll_cols a (- px))); [|apply lookup_insert_eq|done].
  apply fill_outcome_fresh.
Qed.

Lemma shiftright_body_runs :
  shiftright_body (VArr p) px σ
  = fill_outcome q σ
      (run_fill (fill_right_step px) (py.range px) (nd.roll_cols a px)).
Proof.
  unfold shiftright_body, rollright_body. rewrite Z.abs_eq by lia.
  rewrite (bind_returns _ _ _ _ _ (roll_axis1_array _ _ _ Hp px)). fold q.
  rewrite (shiftright_fill_runs _ q (nd.roll_cols a px)); [|apply lookup_insert_eq|done].
  apply fill_outcome_fresh.
Qed.
End shift_runs.

Lemma roll_cols_rect (a : image sample) (H W : nat) shift :
  nd.rect H W a → nd.rect H W (nd.roll_cols a shift).
Proof.
  intros [Hlen Ha]. split; [unfold nd.roll_cols; by rewrite length_fmap|].
  unfold nd.roll_cols. apply Forall_fmap. eapply Forall_impl; [exact Ha|].
  intros r [Hr Hpx]. simpl. split; [by rewrite roll_length|].
  unfold nd.roll. apply Forall_app. split.
  - by apply Forall_drop.
  - by apply Forall_take.
Qed.

(** A roll towards the start of the axis by less than its extent. *)
Lemma roll_back {A} (l : list A) (n : nat) :
  (0 < n < length l)%nat →
  nd.roll l (- Z.of_nat n) = drop n l ++ take n l.
Proof.
  intros Hn. rewrite roll_by by (intros ->; simpl in Hn; lia).
  assert (E : (- Z.of_nat n) `mod` Z.of_nat (length l)
              = Z.of_nat (length l) - Z.of_nat n).
  { symmetry. apply (Z.mod_unique_pos _ _ (-1)); lia. }
  rewrite E.
  by replace (length l - Z.to_nat (Z.of_nat (length l) - Z.of_nat n))%nat
    with n by lia.
Qed.

(** *** [shiftdown]'s and [shiftright]'s loops within the extent *)

Section fill_from_start.
Context {A : Type} `{!Inhabited A}.
Implicit Types (l : list A).

Lemma stretched_front_length l p k :
  (k ≤ length l)%nat → length (stretched_front l p k) = length l.
Proof.
  intros Hk. unfold stretched_front.
  rewrite length_app, length_replicate, length_drop. lia.
Qed.

Lemma stretched_front_source l p k :
  (k ≤ p)%nat → stretched_front l p k !!! p = l !!! p.
Proof.
  intros Hk. unfold stretched_front.
  rewrite lookup_total_app_r by (rewrite length_replicate; lia).
  rewrite length_replicate, lookup_total_drop. f_equal. lia.
Qed.

Lemma stretched_front_step l p k :
  (k ≤ p < length l)%nat →
  <[k := stretched_front l p k !!! p]> (stretched_front l p k)
  = stretched_front l p (S k).
Proof.
  intros Hk. rewrite stretched_front_source by lia. unfold stretched_front.
  rewrite insert_app_r_alt by (rewrite length_replicate; lia).
  rewrite length_replicate, Nat.sub_diag.
  destruct (lookup_lt_is_Some_2 l k) as [y Hy]; [lia|].
  rewrite (drop_S _ _ _ Hy), replicate_S_end, <- app_assoc. done.
Qed.
End fill_from_start.

Lemma index_in_range (n i : nat) : (i < n)%nat → py.index n (Z.of_nat i) = Ok i.
Proof.
  intros Hi. unfold py.index. rewrite bool_decide_eq_true_2 by lia.
  by rewrite Nat2Z.id.
Qed.

Lemma fill_down_iterations (a : image sample) (p : nat) :
  (p < length a)%nat →
  ∀ m k, (k + m = p)%nat →
    run_fill (fill_down_step (Z.of_nat p)) (Z.of_nat <$> seq k m)
      (stretched_front a p k)
    = (stretched_front a p p, None).
Proof.
  intros Hp m. induction m as [|m IH]; intros k Hk.
  - simpl. by replace k with p by lia.
  - simpl. unfold fill_down_step at 1, nd.getrow, nd.setrow, nd.nrows.
    rewrite stretched_front_length by lia.
    rewrite !index_in_range by lia. simpl.
    rewrite stretched_front_step by lia. apply IH. lia.
Qed.

Lemma fill_down_result (a : image sample) (p : nat) :
  (p < length a)%nat →
  run_fill (fill_down_step (Z.of_nat p)) (py.range (Z.of_nat p)) a
  = (replicate p (a !!! p) ++ drop p a, None).
Proof.
  intros Hp. unfold py.range. rewrite Nat2Z.id.
  apply (fill_down_iterations a p Hp p 0%nat eq_refl).
Qed.

Lemma fill_right_iterations (a : image sample) (H W p : nat) :
  nd.rect H W a → (0 < H)%nat → (p < W)%nat →
  ∀ m k, (k + m = p)%nat →
    run_fill (fill_right_step (Z.of_nat p)) (Z.of_nat <$> seq k m)
      ((λ r, stretched_front r p k) <$> a)
    = ((λ r, stretched_front r p p) <$> a, None).
Proof.
  intros Ha HH Hp m. induction m as [|m IH]; intros k Hk.
  - simpl. by replace k with p by lia.
  - simpl. unfold fill_right_step at 1, nd.getcol, nd.setcol.
    rewrite (ncols_fmap _ _ H W Ha HH)
      by (intros r Hr; rewrite stretched_front_length; lia).
    rewrite !index_in_range by lia. simpl.
    rewrite setcol_of_column, <- list_fmap_compose.
    replace ((λ r, <[k := r !!! p]> r) ∘ (λ r, stretched_front r p k) <$> a)
      with ((λ r, stretched_front r p (S k)) <$> a).
    + apply IH. lia.
    + apply Forall_fmap_ext_1. destruct Ha as [_ Ha].
      eapply Forall_impl; [exact Ha|]. intros r [Hr _]. simpl.
      symmetry. apply stretched_front_step. lia.
Qed.

Lemma fill_right_result (a : image sample) (H W p : nat) :
  nd.rect H W a → (0 < H)%nat → (p < W)%nat →
  run_fill (fill_right_step (Z.of_nat p)) (py.range (Z.of_nat p)) a
  = ((λ r, replicate p (r !!! p) ++ drop p r) <$> a, None).
Proof.
  intros Ha HH Hp. unfold py.range. rewrite Nat2Z.id.
  pose proof (fill_right_iterations a H W p Ha HH Hp p 0%nat eq_refl) as Hrun.
  simpl in Hrun.
  replace ((λ r, stretched_front r p 0) <$> a) with a in Hrun; [exact Hrun|].
  rewrite <- (list_fmap_id a) at 1. by apply Forall_fmap_ext_1, Forall_true.
Qed.

(** A roll towards the end of the axis by less than its extent. *)
Lemma roll_forward {A} (l : list A) (n : nat) :
  (0 < n < length l)%nat →
  nd.roll l (Z.of_nat n) = drop (length l - n) l ++ take (length l - n) l.
Proof.
  intros Hn. rewrite roll_by by (intros ->; simpl in Hn; lia).
  rewrite Z.mod_small by lia. by rewrite Nat2Z.id.
Qed.

(** The loop of [shiftdown] and [shiftright] after the roll: the fill
    value is the element at [px] of the rolled axis, which is element 0
    of the axis before the roll, the first one that did not wrap. *)
Lemma stretch_after_roll_forward {A} `{!Inhabited A} (l : list A) (n : nat) :
  (0 < n < length l)%nat →
  replicate n (nd.roll l (Z.of_nat n) !!! n) ++ drop n (nd.roll l (Z.of_nat n))
  = replicate n (l !!! 0%nat) ++ take (length l - n) l.
Proof.
  intros Hn. rewrite (roll_forward _ _ Hn).
  assert (Hd : length (drop (length l - n) l) = n) by (rewrite length_drop; lia).
  rewrite (drop_app_length' _ _ _ (eq_sym Hd)).
  rewrite lookup_total_app_r by lia. rewrite Hd, Nat.sub_diag.
  by rewrite lookup_total_take_lt by lia.
Qed.

(** X10. Within the extent [shiftdown] and [shiftright] do stretch the edge:
    for 0 < px < H, [shiftdown] returns px copies of row 0 of the image
    followed by its rows 0 .. H-px-1, and for 0 < px < W [shiftright]
    starts each row with px copies of its column 0. *)
Lemma shiftdown_shiftright_fill_with_edge (σ : gmap loc ndarray) (p : loc)
    (a : image sample) (H W px : nat) :
  σ !! p = Some (Rank3 a) →
  nd.rect H W a →
  (0 < px)%nat →
  ((px < H)%nat →
     shiftdown_body (VArr p) (Z.of_nat px) σ
     = Returns (VArr (fresh_loc σ))
         (<[fresh_loc σ :=
              Rank3 (replicate px (a !!! 0%nat) ++ take (H - px) a)]> σ)) ∧
  ((0 < H)%nat → (px < W)%nat →
     shiftright_body (VArr p) (Z.of_nat px) σ
     = Returns (VArr (fresh_loc σ))
         (<[fresh_loc σ :=
              Rank3 ((λ r, replicate px (r !!! 0%nat) ++ take (W - px) r) <$> a)]> σ)).
Proof.
  intros Hp Ha Hpx. split.
  - intros HpxH. destruct Ha as [Hlen _].
    rewrite (shiftdown_body_runs _ _ _ _ Hp) by lia.
    rewrite fill_down_result by (unfold nd.roll_rows; rewrite roll_length; lia).
    simpl. unfold nd.roll_rows. rewrite <- Hlen.
    by rewrite stretch_after_roll_forward by lia.
  - intros HH HpxW.
    rewrite (shiftright_body_runs _ _ _ _ Hp) by lia.
    rewrite (fill_right_result _ H W) by (try apply roll_cols_rect; done || lia).
    simpl. unfold nd.roll_cols. rewrite <- list_fmap_compose.
    do 3 f_equal. apply Forall_fmap_ext_1. destruct Ha as [_ Ha].
    eapply Forall_impl; [exact Ha|]. intros r [Hr _]. simpl.
    rewrite <- Hr. by rewrite stretch_after_roll_forward by lia.
Qed.

(** The loop of [shiftup] and [shiftleft] after the roll: the fill value
    is the element at [n - px] of the rolled axis, which is the first
    wrapped element, element 0 of the axis before the roll. *)
Lemma stretch_after_roll_back {A} `{!Inhabited A} (l : list A) (n : nat) :
  (0 < n < length l)%nat →
  take (length l - n) (nd.roll l (- Z.of_nat n))
    ++ replicate (n `min` length l)
         (nd.roll l (- Z.of_nat n) !!! (length l - n)%nat)
  = drop n l ++ replicate n (l !!! 0%nat).
Proof.
  intros Hn. rewrite (roll_back _ _ Hn).
  assert (Hd : length (drop n l) = (length l - n)%nat) by apply length_drop.
  rewrite (take_app_length' _ _ _ (eq_sym Hd)).
  rewrite lookup_total_app_r by lia. rewrite Hd, Nat.sub_diag.
  rewrite lookup_total_take_lt by lia.
  by replace (n `min` length l)%nat with n by lia.
Qed.

(** C2, on the code. On a normalized image of shape (H, W, 3) and for
    0 < px < H, [shiftup] returns the rows px.. of the image followed by
    px copies of row 0 of the image, the first row that wrapped around,
    and not of the bottom row H-1; for 0 < px < W, [shiftleft] ends each
    row with px copies of its column 0. For px = 1 the loop assigns the
    last row (column) to itself and the result is the plain roll. *)
Theorem shiftup_shiftleft_fill_with_wrapped (σ : gmap loc ndarray) (p : loc)
    (a : image sample) (H W px : nat) :
  σ !! p = Some (Rank3 a) →
  nd.rect H W a →
  (0 < px)%nat →
  ((px < H)%nat →
     shiftup_body (VArr p) (Z.of_nat px) σ
     = Returns (VArr (fresh_loc σ))
         (<[fresh_loc σ := Rank3 (drop px a ++ replicate px (a !!! 0%nat))]> σ)) ∧
  ((0 < H)%nat → (px < W)%nat →
     shiftleft_body (VArr p) (Z.of_nat px) σ
     = Returns (VArr (fresh_loc σ))
         (<[fresh_loc σ :=
              Rank3 ((λ r, drop px r ++ replicate px (r !!! 0%nat)) <$> a)]> σ)).
Proof.
  intros Hp Ha Hpx. split.
  - intros HpxH. destruct Ha as [Hlen _].
    rewrite (shiftup_body_runs _ _ _ _ Hp) by lia.
    rewrite (fill_up_result _ H) by (rewrite ?roll_length; unfold nd.roll_rows; rewrite ?roll_length; lia).
    destruct (decide (px ≤ H)%nat); [|lia]. simpl.
    unfold nd.roll_rows. rewrite <- Hlen.
    by rewrite stretch_after_roll_back by lia.
  - intros HH HpxW.
    rewrite (shiftleft_body_runs _ _ _ _ Hp) by lia.
    rewrite (fill_left_result _ H W) by (try apply roll_cols_rect; done || lia).
    destruct (decide (px ≤ W)%nat); [|lia]. simpl.
    unfold nd.roll_cols. rewrite <- list_fmap_compose.
    do 3 f_equal. apply Forall_fmap_ext_1. destruct Ha as [_ Ha].
    eapply Forall_impl; [exact Ha|]. intros r [Hr _]. simpl.
    rewrite <- Hr. by rewrite stretch_after_roll_back by lia.
Qed.

(** The 3 by 1 image with rows 1, 2, 3 and px = 1: [shiftup] returns
    rows 2, 3, 1, the roll itself; the fill with the bottom row would
    give 2, 3, 3. *)
Lemma shiftup_shiftleft_fill_with_wrapped_witness :
  let px3 (n : Z) : list Q := [inject_Z n; inject_Z n; inject_Z n] in
  let a : image sample := [[px3 1]; [px3 2]; [px3 3]] in
  let σ : gmap loc ndarray := {[ 0%nat := Rank3 a ]} in
  shiftup_body (VArr 0%nat) 1 σ
    = Returns (VArr 1%nat) (<[1%nat := Rank3 [[px3 2]; [px3 3]; [px3 1]]]> σ) ∧
  shiftup_body (VArr 0%nat) 1 σ
    ≠ Returns (VArr 1%nat) (<[1%nat := Rank3 [[px3 2]; [px3 3]; [px3 3]]]> σ).
Proof.
  intros px3 a σ.
  destruct (shiftup_shiftleft_fill_with_wrapped σ 0%nat a 3 1 1) as [Hup _].
  - reflexivity.
  - split; [reflexivity|]. repeat constructor.
  - lia.
  - assert (Hrun : shiftup_body (VArr 0%nat) 1 σ
                   = Returns (VArr 1%nat)
                       (<[1%nat := Rank3 [[px3 2]; [px3 3]; [px3 1]]]> σ))
      by (apply Hup; lia).
    split; [exact Hrun|]. rewrite Hrun. intros E.
    apply (f_equal (λ o, match o with
                         | Returns _ s => s !! 1%nat
                         | _ => None
                         end)) in E.
    rewrite !lookup_insert_eq in E. discriminate E.
Defined.

(** X27. From the roll's statements after the normalizer call on, on
    a normalized image of shape (H, W, 3), H and W positive, and for px
    at or beyond the extent: [shiftdown] (px >= H)
    and [shiftright] (px >= W) raise IndexError in the first iteration
    of the fill, after the roll, and return no array. [shiftup] returns
    an array while H <= px <= 2H, the negative indices counting from the
    end, with one row repeated H times, and raises IndexError when
    px > 2H; [shiftleft] does the same against W, column by column. *)
Theorem shifts_at_or_beyond_extent (σ : gmap loc ndarray) (p : loc)
    (a : image sample) (H W px : nat) :
  σ !! p = Some (Rank3 a) →
  nd.rect H W a →
  (0 < H)%nat → (0 < W)%nat →
  let q := fresh_loc σ in
  ((H ≤ px)%nat →
     shiftdown_body (VArr p) (Z.of_nat px) σ
     = Raises IndexError (<[q := Rank3 (nd.roll_rows a (Z.of_nat px))]> σ)) ∧
  ((W ≤ px)%nat →
     shiftright_body (VArr p) (Z.of_nat px) σ
     = Raises IndexError (<[q := Rank3 (nd.roll_cols a (Z.of_nat px))]> σ)) ∧
  ((H ≤ px ≤ 2 * H)%nat →
     ∃ r, shiftup_body (VArr p) (Z.of_nat px) σ
          = Returns (VArr q) (<[q := Rank3 (replicate H r)]> σ)) ∧
  ((2 * H < px)%nat →
     shiftup_body (VArr p) (Z.of_nat px) σ
     = Raises IndexError (<[q := Rank3 (nd.roll_rows a (- Z.of_nat px))]> σ)) ∧
  ((W ≤ px ≤ 2 * W)%nat →
     ∃ b, shiftleft_body (VArr p) (Z.of_nat px) σ
          = Returns (VArr q) (<[q := Rank3 b]> σ) ∧
          length b = H ∧ Forall (λ r, ∃ x, r = replicate W x) b) ∧
  ((2 * W < px)%nat →
     shiftleft_body (VArr p) (Z.of_nat px) σ
     = Raises IndexError (<[q := Rank3 (nd.roll_cols a (- Z.of_nat px))]> σ)).
Proof.
  intros Hp Ha HH HW q. pose proof Ha as [Hlen _].
  assert (Hrows : ∀ s, length (nd.roll_rows a s) = H)
    by (intros s; unfold nd.roll_rows; by rewrite roll_length).
  repeat split.
  - intros Hpx. rewrite (shiftdown_body_runs _ _ _ _ Hp) by lia.
    by rewrite (fill_down_fails _ H) by (rewrite ?Hrows; lia).
  - intros Hpx. rewrite (shiftright_body_runs _ _ _ _ Hp) by lia.
    by rewrite (fill_right_fails _ H W)
      by (try apply roll_cols_rect; done || lia).
  - intros Hpx. eexists. rewrite (shiftup_body_runs _ _ _ _ Hp) by lia.
    rewrite (fill_up_result _ H) by (rewrite ?Hrows; lia). simpl.
    replace (H - px)%nat with 0%nat by lia.
    replace (px `min` H)%nat with H by lia. reflexivity.
  - intros Hpx. rewrite (shiftup_body_runs _ _ _ _ Hp) by lia.
    by rewrite (fill_up_fails _ H) by (rewrite ?Hrows; lia).
  - intros Hpx. eexists. rewrite (shiftleft_body_runs _ _ _ _ Hp) by lia.
    rewrite (fill_left_result _ H W) by (try apply roll_cols_rect; done || lia).
    simpl. split; [reflexivity|]. split.
    + unfold nd.roll_cols. by rewrite !length_fmap.
    + apply Forall_fmap, Forall_forall. intros r _. simpl. eexists.
      replace (W - px)%nat with 0%nat by lia.
      replace (px `min` W)%nat with W by lia. reflexivity.
  - intros Hpx. rewrite (shiftleft_body_runs _ _ _ _ Hp) by lia.
    by rewrite (fill_left_fails _ H W)
      by (try apply roll_cols_rect; done || lia).
Qed.

Lemma shifts_at_or_beyond_extent_witness :
  let a : image sample := [[[1%Q; 1%Q; 1%Q]]; [[2%Q; 2%Q; 2%Q]]] in
  let σ : gmap loc ndarray := {[ 0%nat := Rank3 a ]} in
  shiftdown_body (VArr 0%nat) 2 σ
    = Raises IndexError (<[1%nat := Rank3 a]> σ) ∧
  ∃ r, shiftup_body (VArr 0%nat) 2 σ
       = Returns (VArr 1%nat) (<[1%nat := Rank3 [r; r]]> σ).
Proof.
  intros a σ.
  destruct (shifts_at_or_beyond_extent σ 0%nat a 2 1 2) as
    (Hdown & _ & Hup & _).
  - reflexivity.
  - split; [reflexivity|]. repeat constructor.
  - lia.
  - lia.
  - split; [apply Hdown; lia|]. apply Hup. lia.
Defined.

(** ** The public functions on the inputs of the claims

    Line 24 stops every call of a public function: what the function
    computes from its next statement on is never reached. The
    statements below are about the functions as written, for every
    argument and every store. *)

Lemma normalizer_raises (img : pyval) (σ : gmap loc ndarray) :
  _force_RGB_array img σ = Raises TypeError σ.
Proof. unfold _force_RGB_array. by apply bind_raises. Qed.

Lemma after_normalizer_raises {A} (k : pyval → M A) (img : pyval)
    (σ : gmap loc ndarray) :
  (img ← _force_RGB_array img; k img) σ = Raises TypeError σ.
Proof. apply bind_raises, normalizer_raises. Qed.

Lemma raises_returns_nothing {A} (o : outcome A) (e : exn) (σ : gmap loc ndarray) :
  o = Raises e σ → ∀ v σ', o ≠ Returns v σ'.
Proof. intros -> v σ'. discriminate. Qed.

(** C4, on the code. For every argument [img], every integer [px], at
    or beyond the extent or within it, and every store, [shiftdown],
    [shiftup], [shiftleft] and [shiftright] raise TypeError with the
    store unchanged: the roll each of them calls starts with the
    normalizer, whose line 24 raises. None of them returns an array. *)
Theorem shifts_return_no_array (img : pyval) (px : Z) (σ : gmap loc ndarray) :
  (shiftdown img px σ = Raises TypeError σ ∧
   shiftup img px σ = Raises TypeError σ ∧
   shiftleft img px σ = Raises TypeError σ ∧
   shiftright img px σ = Raises TypeError σ) ∧
  ∀ v σ',
    shiftdown img px σ ≠ Returns v σ' ∧
    shiftup img px σ ≠ Returns v σ' ∧
    shiftleft img px σ ≠ Returns v σ' ∧
    shiftright img px σ ≠ Returns v σ'.
Proof.
  assert (Hdown : shiftdown img px σ = Raises TypeError σ)
    by (unfold shiftdown, rolldown; apply bind_raises, after_normalizer_raises).
  assert (Hup : shiftup img px σ = Raises TypeError σ)
    by (unfold shiftup, rolldown; apply bind_raises, after_normalizer_raises).
  assert (Hleft : shiftleft img px σ = Raises TypeError σ)
    by (unfold shiftleft, rollright; apply bind_raises, after_normalizer_raises).
  assert (Hright : shiftright img px σ = Raises TypeError σ)
    by (unfold shiftright, rollright; apply bind_raises, after_normalizer_raises).
  split; [done|]. intros v σ'.
  repeat apply conj; by eapply raises_returns_nothing.
Qed.

(** C5, on the code. For every argument [img], every [bounds] and
    every store, [crop] raises TypeError with the store unchanged and
    returns no image: neither for [[0, H], [0, W]] nor for the form
    [[0, 0], [H, W]] of the docstring. *)
Theorem crop_returns_no_image (img : pyval) (bounds : (Z * Z) * (Z * Z))
    (σ : gmap loc ndarray) :
  crop img bounds σ = Raises TypeError σ ∧
  ∀ v σ', crop img bounds σ ≠ Returns v σ'.
Proof.
  assert (Hrun : crop img bounds σ = Raises TypeError σ)
    by apply after_normalizer_raises.
  split; [done|]. by eapply raises_returns_nothing.
Qed.

(** C6, on the code. For every argument [img] and every store,
    [zoom(img, 1.0)] raises TypeError with the store unchanged and
    returns no image. *)
Theorem zoom_one_returns_no_image (img : pyval) (σ : gmap loc ndarray) :
  zoom img (Scalar 1) σ = Raises TypeError σ ∧
  ∀ v σ', zoom img (Scalar 1) σ ≠ Returns v σ'.
Proof.
  assert (Hrun : zoom img (Scalar 1) σ = Raises TypeError σ)
    by apply after_normalizer_raises.
  split; [done|]. by eapply raises_returns_nothing.
Qed.

(** C8, on the code. For every argument [img], every integer [px] and
    every store, [rolldown(rolldown(img, px), -px)] raises TypeError in
    the first call, with the store unchanged; the second call is never
    made and no image is reproduced. *)
Theorem rolldown_and_back_returns_no_image (img : pyval) (px : Z)
    (σ : gmap loc ndarray) :
  rolldown img px σ = Raises TypeError σ ∧
  (rolled ← rolldown img px; rolldown rolled (- px)) σ = Raises TypeError σ ∧
  ∀ v σ', (rolled ← rolldown img px; rolldown rolled (- px)) σ ≠ Returns v σ'.
Proof.
  assert (Hfirst : rolldown img px σ = Raises TypeError σ)
    by apply after_normalizer_raises.
  assert (Hrun : (rolled ← rolldown img px; rolldown rolled (- px)) σ
                 = Raises TypeError σ) by (by apply bind_raises).
  split; [done|]. split; [done|]. by eapply raises_returns_nothing.
Qed.

(** C9, on the code. For every argument [img] and every store,
    [mirrorleft] raises TypeError with the store unchanged: it returns
    no image, symmetric or not. *)
Theorem mirrorleft_returns_no_image (img : pyval) (σ : gmap loc ndarray) :
  mirrorleft img σ = Raises TypeError σ ∧
  ∀ v σ', mirrorleft img σ ≠ Returns v σ'.
Proof.
  assert (Hrun : mirrorleft img σ = Raises TypeError σ)
    by apply after_normalizer_raises.
  split; [done|]. by eapply raises_returns_nothing.
Qed.

(** C10, on the code. For an input that is a rank-3 array object, each
    of [mirrorleft], [mirrorright], [mirrorup] and [mirrordown] raises
    TypeError, and after the call the caller's array holds the contents
    it had before: nothing is mutated and nothing is returned. *)
Theorem mirrors_leave_rank3_input (σ : gmap loc ndarray) (p : loc)
    (a : image sample) :
  σ !! p = Some (Rank3 a) →
  (∃ σ', mirrorleft (VArr p) σ = Raises TypeError σ' ∧
         σ' !! p = Some (Rank3 a)) ∧
  (∃ σ', mirrorright (VArr p) σ = Raises TypeError σ' ∧
         σ' !! p = Some (Rank3 a)) ∧
  (∃ σ', mirrorup (VArr p) σ = Raises TypeError σ' ∧
         σ' !! p = Some (Rank3 a)) ∧
  (∃ σ', mirrordown (VArr p) σ = Raises TypeError σ' ∧
         σ' !! p = Some (Rank3 a)).
Proof.
  intros Hp.
  repeat apply conj; exists σ; (split; [apply after_normalizer_raises|exact Hp]).
Qed.

(** On the 1 by 2 image with pixels (1,1,1) and (2,2,2) each mirror
    raises TypeError and the array still holds the two pixels. *)
Lemma mirrors_leave_rank3_input_witness :
  let a : image sample := [[[1%Q; 1%Q; 1%Q]; [2%Q; 2%Q; 2%Q]]] in
  let σ : gmap loc ndarray := {[ 0%nat := Rank3 a ]} in
  (∃ σ', mirrorleft (VArr 0%nat) σ = Raises TypeError σ' ∧
         σ' !! 0%nat = Some (Rank3 a)) ∧
  (∃ σ', mirrorright (VArr 0%nat) σ = Raises TypeError σ' ∧
         σ' !! 0%nat = Some (Rank3 a)) ∧
  (∃ σ', mirrorup (VArr 0%nat) σ = Raises TypeError σ' ∧
         σ' !! 0%nat = Some (Rank3 a)) ∧
  (∃ σ', mirrordown (VArr 0%nat) σ = Raises TypeError σ' ∧
         σ' !! 0%nat = Some (Rank3 a)).
Proof.
  intros a σ. apply (mirrors_leave_rank3_input σ 0%nat a). reflexivity.
Defined.

(** * Further properties of the module

    As before, each statement is about the statements of a function
    after its normalizer call, on a normalized image held by an array
    object. *)

(** ** Two calls in a row *)

Lemma computes_twice m1 m2 f g (σ : gmap loc ndarray) p a :
  computes m1 f → computes m2 g →
  σ !! p = Some (Rank3 a) →
  ∃ q σ',
    (r ← m1 (VArr p); m2 r) σ = Returns (VArr q) σ' ∧
    σ' !! q = Some (Rank3 (g (f a))) ∧
    σ' !! p = Some (Rank3 a).
Proof.
  intros H1 H2 Hp.
  rewrite (bind_returns _ _ _ _ _ (H1 _ _ _ Hp)).
  rewrite (H2 _ (fresh_loc σ) (f a)) by apply lookup_insert_eq.
  eexists _, _. split; [reflexivity|]. split; [apply lookup_insert_eq|].
  by do 2 apply lookup_alloc_other.
Qed.



Lemma rolldown_computes px : computes (λ img, rolldown_body img px) (λ a, nd.roll_rows a px).
Proof. intros σ p a Hp. by apply roll_axis0_array. Qed.

Lemma rollright_computes px : computes (λ img, rollright_body img px) (λ a, nd.roll_cols a px).
Proof. intros σ p a Hp. by apply roll_axis1_array. Qed.

Lemma rot90_computes ccw :
  computes (λ img, rot90_body img ccw) (λ a, nd.rot90 a (if ccw then -1 else 1)).
Proof. intros σ p a Hp. by apply rot90_array. Qed.

(** ** Flips *)






(** ** Rolls *)

(** Element [i] of a rolled axis is element [(i - shift) mod n] of the
    axis. *)
Lemma roll_lookup {A} (l : list A) (shift : Z) (i : nat) :
  (i < length l)%nat →
  nd.roll l shift !! i
  = l !! Z.to_nat ((Z.of_nat i - shift) `mod` Z.of_nat (length l)).
Proof.
  intros Hi. assert (Hl : l ≠ []) by (intros ->; simpl in Hi; lia).
  rewrite (roll_by _ _ Hl). set (n := length l) in *.
  pose proof (Z.mod_pos_bound shift (Z.of_nat n)) as Hoff.
  rewrite <- Zminus_mod_idemp_r.
  set (off := shift `mod` Z.of_nat n) in *.
  destruct (decide (Z.of_nat i < off)) as [Hlt|Hge].
  - rewrite lookup_app_l by (rewrite length_drop; lia).
    rewrite lookup_drop. f_equal.
    assert ((Z.of_nat i - off) `mod` Z.of_nat n = Z.of_nat i - off + Z.of_nat n) as ->.
    { symmetry. apply (Z.mod_unique_pos _ _ (-1)); lia. }
    lia.
  - rewrite lookup_app_r by (rewrite length_drop; lia).
    rewrite length_drop, lookup_take_lt by lia.
    rewrite Z.mod_small by lia. f_equal. lia.
Qed.

Lemma roll_roll {A} (l : list A) (s1 s2 : Z) :
  nd.roll (nd.roll l s1) s2 = nd.roll l (s1 + s2).
Proof.
  apply list_eq. intros i.
  destruct (decide (i < length l)%nat) as [Hi|Hi].
  - assert (Hn : (0 < Z.of_nat (length l))) by lia.
    rewrite roll_lookup by (rewrite roll_length; lia).
    rewrite roll_length.
    pose proof (Z.mod_pos_bound (Z.of_nat i - s2) (Z.of_nat (length l)) Hn).
    rewrite roll_lookup by lia. rewrite roll_lookup by lia.
    rewrite Z2Nat.id by lia. rewrite Zminus_mod_idemp_l.
    do 3 f_equal. lia.
  - rewrite !lookup_ge_None_2; [done|rewrite ?roll_length; lia..].
Qed.

(** X3. Every row [i] of [rolldown(img, px)] is row [(i - px) mod H] of
    the image, for every integer [px] of either sign and any size, and
    the result has the H rows of the image. *)
Theorem rolldown_moves_rows (σ : gmap loc ndarray) (p : loc) (a : image sample)
    (px : Z) :
  σ !! p = Some (Rank3 a) →
  ∃ b,
    rolldown_body (VArr p) px σ
      = Returns (VArr (fresh_loc σ)) (<[fresh_loc σ := Rank3 b]> σ) ∧
    length b = length a ∧
    ∀ i, (i < length a)%nat →
      b !! i = a !! Z.to_nat ((Z.of_nat i - px) `mod` Z.of_nat (length a)).
Proof.
  intros Hp. exists (nd.roll_rows a px). split; [by apply rolldown_computes|].
  unfold nd.roll_rows. split; [apply roll_length|]. intros i Hi. by apply roll_lookup.
Qed.

(** A 4-row image rolled by 1: row 0 goes to row 1 and row 3 wraps
    around to row 0. *)
Lemma rolldown_moves_rows_witness :
  let px3 (n : Z) : list Q := [inject_Z n; inject_Z n; inject_Z n] in
  let a : image sample := [[px3 0]; [px3 1]; [px3 2]; [px3 3]] in
  let σ : gmap loc ndarray := {[ 0%nat := Rank3 a ]} in
  ∃ b,
    rolldown_body (VArr 0%nat) 1 σ
      = Returns (VArr (fresh_loc σ)) (<[fresh_loc σ := Rank3 b]> σ) ∧
    b !! 1%nat = Some [px3 0] ∧ b !! 0%nat = Some [px3 3].
Proof.
  intros px3 a σ.
  destruct (rolldown_moves_rows σ 0%nat a 1 eq_refl) as (b & Hrun & _ & Hrows).
  exists b. split; [exact Hrun|]. split.
  - apply (Hrows 1%nat). simpl. lia.
  - apply (Hrows 0%nat). simpl. lia.
Defined.

(** X4. Two calls of [rolldown] compose by adding the shifts:
    [rolldown(rolldown(img, p1), p2)] has the contents of
    [rolldown(img, p1 + p2)], for all integers. *)
Theorem rolldown_adds_shifts (σ : gmap loc ndarray) (p : loc) (a : image sample)
    (p1 p2 : Z) :
  σ !! p = Some (Rank3 a) →
  ∃ q σ' b,
    (r ← rolldown_body (VArr p) p1; rolldown_body r p2) σ = Returns (VArr q) σ' ∧
    σ' !! q = Some (Rank3 b) ∧
    rolldown_body (VArr p) (p1 + p2) σ
      = Returns (VArr (fresh_loc σ)) (<[fresh_loc σ := Rank3 b]> σ).
Proof.
  intros Hp.
  destruct (computes_twice _ _ _ _ σ p a (rolldown_computes p1)
              (rolldown_computes p2) Hp) as (q & σ' & Hrun & Hq & _).
  exists q, σ', (nd.roll_rows a (p1 + p2)). split; [exact Hrun|]. split.
  - rewrite Hq. unfold nd.roll_rows. by rewrite roll_roll.
  - by apply rolldown_computes.
Qed.

Lemma rolldown_adds_shifts_witness :
  let a : image sample := [[[1%Q; 1%Q; 1%Q]]; [[2%Q; 2%Q; 2%Q]]; [[3%Q; 3%Q; 3%Q]]] in
  let σ : gmap loc ndarray := {[ 0%nat := Rank3 a ]} in
  ∃ q σ' b,
    (r ← rolldown_body (VArr 0%nat) 5; rolldown_body r (-7)) σ = Returns (VArr q) σ' ∧
    σ' !! q = Some (Rank3 b) ∧
    rolldown_body (VArr 0%nat) (5 + -7) σ
      = Returns (VArr (fresh_loc σ)) (<[fresh_loc σ := Rank3 b]> σ).
Proof. intros a σ. apply (rolldown_adds_shifts σ 0%nat a 5 (-7)). reflexivity. Defined.

Lemma roll_cols_roll_cols {T} (a : image T) (s1 s2 : Z) :
  nd.roll_cols (nd.roll_cols a s1) s2 = nd.roll_cols a (s1 + s2).
Proof.
  unfold nd.roll_cols. rewrite <- list_fmap_compose.
  apply list_fmap_ext. intros i r _. simpl. apply roll_roll.
Qed.

(** X5. Two calls of [rollright] compose by adding the shifts; in
    particular [rollright(rollright(img, px), -px)] has the contents of
    the image. *)
Theorem rollright_adds_shifts (σ : gmap loc ndarray) (p : loc) (a : image sample)
    (H W : nat) (p1 p2 : Z) :
  σ !! p = Some (Rank3 a) →
  nd.rect H W a →
  (∃ q σ' b,
    (r ← rollright_body (VArr p) p1; rollright_body r p2) σ = Returns (VArr q) σ' ∧
    σ' !! q = Some (Rank3 b) ∧
    nd.rect H W b ∧
    rollright_body (VArr p) (p1 + p2) σ
      = Returns (VArr (fresh_loc σ)) (<[fresh_loc σ := Rank3 b]> σ)) ∧
  (∃ q σ',
    (r ← rollright_body (VArr p) p1; rollright_body r (- p1)) σ
      = Returns (VArr q) σ' ∧
    σ' !! q = Some (Rank3 a)).
Proof.
  intros Hp Ha. split.
  - destruct (computes_twice _ _ _ _ σ p a (rollright_computes p1)
                (rollright_computes p2) Hp) as (q & σ' & Hrun & Hq & _).
    exists q, σ', (nd.roll_cols a (p1 + p2)). split; [exact Hrun|].
    split; [by rewrite Hq, roll_cols_roll_cols|].
    split; [by apply roll_cols_rect|]. by apply rollright_computes.
  - destruct (computes_twice _ _ _ _ σ p a (rollright_computes p1)
                (rollright_computes (- p1)) Hp) as (q & σ' & Hrun & Hq & _).
    exists q, σ'. split; [exact Hrun|]. rewrite Hq. do 2 f_equal.
    unfold nd.roll_cols. rewrite <- list_fmap_compose.
    rewrite <- (list_fmap_id a) at 2. apply list_fmap_ext.
    intros i r _. simpl. apply roll_inverse.
Qed.

Lemma rollright_adds_shifts_witness :
  let a : image sample := [[[1%Q; 1%Q; 1%Q]; [2%Q; 2%Q; 2%Q]; [3%Q; 3%Q; 3%Q]]] in
  let σ : gmap loc ndarray := {[ 0%nat := Rank3 a ]} in
  ∃ q σ',
    (r ← rollright_body (VArr 0%nat) 2; rollright_body r (- 2)) σ
      = Returns (VArr q) σ' ∧
    σ' !! q = Some (Rank3 a).
Proof.
  intros a σ.
  destruct (rollright_adds_shifts σ 0%nat a 1 3 2 0) as [_ Hback].
  - reflexivity.
  - split; [reflexivity|]. repeat constructor.
  - exact Hback.
Defined.

(** ** Rotation *)

Lemma computes_yields m f : computes m f → yields m f.
Proof.
  intros Hm σ p a Hp. eexists _, _. split; [by apply Hm|].
  split; [apply lookup_insert_eq|]. intros p' x Hp'. by apply lookup_alloc_other.
Qed.

Lemma yields_then m1 m2 f g :
  yields m1 f → yields m2 g → yields (λ img, r ← m1 img; m2 r) (g ∘ f).
Proof.
  intros H1 H2 σ p a Hp.
  destruct (H1 _ _ _ Hp) as (q1 & σ1 & Hrun1 & Hq1 & Hkeep1).
  destruct (H2 _ _ _ Hq1) as (q2 & σ2 & Hrun2 & Hq2 & Hkeep2).
  exists q2, σ2. split; [by rewrite (bind_returns _ _ _ _ _ Hrun1)|].
  split; [done|]. intros p' x Hp'. by apply Hkeep2, Hkeep1.
Qed.

Lemma tabulate_ext {T} R C (f g : nat → nat → list T) :
  (∀ r c, (r < R)%nat → (c < C)%nat → f r c = g r c) →
  tabulate R C f = tabulate R C g.
Proof.
  intros Hfg. unfold tabulate.
  apply Forall_fmap_ext_1, Forall_forall. intros r Hr. apply elem_of_seq in Hr.
  apply Forall_fmap_ext_1, Forall_forall. intros c Hc. apply elem_of_seq in Hc.
  apply Hfg; lia.
Qed.

Lemma tabulate_lookup {T} R C (f : nat → nat → list T) r c :
  (r < R)%nat → (c < C)%nat → (tabulate R C f !!! r) !!! c = f r c.
Proof.
  intros Hr Hc. unfold tabulate.
  rewrite (list_lookup_total_alt _ r), list_lookup_fmap, lookup_seq_lt by lia.
  simpl.
  by rewrite list_lookup_total_alt, list_lookup_fmap, lookup_seq_lt by lia.
Qed.

Lemma tabulate_rect {T} R C (f : nat → nat → list T) :
  (∀ r c, (r < R)%nat → (c < C)%nat → length (f r c) = 3%nat) →
  nd.rect R C (tabulate R C f).
Proof.
  intros Hf. unfold tabulate. split; [by rewrite length_fmap, length_seq|].
  apply Forall_fmap, Forall_forall. intros r Hr. apply elem_of_seq in Hr. simpl.
  split; [by rewrite length_fmap, length_seq|].
  apply Forall_fmap, Forall_forall. intros c Hc. apply elem_of_seq in Hc. simpl.
  apply Hf; lia.
Qed.

Lemma rect_tabulate {T} H W (a : image T) :
  nd.rect H W a → a = tabulate H W (λ r c, (a !!! r) !!! c).
Proof.
  intros [Hlen Ha]. unfold tabulate.
  rewrite <- (list_fmap_id a) at 1. rewrite fmap_as_seq, Hlen.
  apply Forall_fmap_ext_1, Forall_forall. intros r Hr. apply elem_of_seq in Hr.
  simpl. assert (Hrow : length (a !!! r) = W).
  { rewrite Forall_forall in Ha. apply Ha, list_elem_of_lookup_total_2. lia. }
  rewrite <- (list_fmap_id (a !!! r)) at 1. by rewrite fmap_as_seq, Hrow.
Qed.

Lemma rect_pixel {T} H W (a : image T) r c :
  nd.rect H W a → (r < H)%nat → (c < W)%nat → length ((a !!! r) !!! c) = 3%nat.
Proof.
  intros [Hlen Ha] Hr Hc. rewrite Forall_forall in Ha.
  destruct (Ha (a !!! r)) as [Hrow Hpx].
  { apply list_elem_of_lookup_total_2. lia. }
  rewrite Forall_forall in Hpx. apply Hpx, list_elem_of_lookup_total_2. lia.
Qed.

(** The two quarter turns of [np.rot90] on a tabulated image. *)
Lemma rot90_tabulate {T} R C (f : nat → nat → list T) :
  (0 < R)%nat →
  (∀ r c, (r < R)%nat → (c < C)%nat → length (f r c) = 3%nat) →
  nd.rot90 (tabulate R C f) 1 = tabulate C R (λ r c, f c (C - 1 - r)%nat) ∧
  nd.rot90 (tabulate R C f) (-1) = tabulate C R (λ r c, f (R - 1 - c)%nat r).
Proof.
  intros HR Hf.
  destruct (rot90_quarter_turns _ R C (tabulate_rect R C f Hf) HR) as [E1 E3].
  rewrite E1, E3. split.
  - apply tabulate_ext. intros r c Hr Hc. apply tabulate_lookup; lia.
  - apply tabulate_ext. intros r c Hr Hc. apply tabulate_lookup; lia.
Qed.

Lemma rot90_shape {T} (a : image T) H W k :
  nd.rect H W a → (0 < H)%nat → k = 1 ∨ k = -1 → nd.rect W H (nd.rot90 a k).
Proof.
  intros Ha HH Hk. rewrite (rect_tabulate _ _ _ Ha).
  assert (Hpx : ∀ r c, (r < H)%nat → (c < W)%nat →
                  length ((a !!! r) !!! c) = 3%nat)
    by (intros; by apply (rect_pixel H W)).
  destruct (rot90_tabulate H W _ HH Hpx) as [E1 E3].
  destruct Hk as [-> | ->]; [rewrite E1|rewrite E3];
    apply tabulate_rect; intros r c Hr Hc; apply Hpx; lia.
Qed.

Lemma rot90_back {T} (a : image T) H W :
  nd.rect H W a → (0 < H)%nat → (0 < W)%nat →
  nd.rot90 (nd.rot90 a 1) (-1) = a ∧ nd.rot90 (nd.rot90 a (-1)) 1 = a.
Proof.
  intros Ha HH HW.
  assert (Hpx : ∀ r c, (r < H)%nat → (c < W)%nat →
                  length ((a !!! r) !!! c) = 3%nat)
    by (intros; by apply (rect_pixel H W)).
  rewrite (rect_tabulate _ _ _ Ha) at 1 2 3 4.
  destruct (rot90_tabulate H W _ HH Hpx) as [E1 E3]. rewrite E1, E3.
  split.
  - destruct (rot90_tabulate W H (λ r c, (a !!! c) !!! (W - 1 - r)%nat) HW) as [_ E].
    { intros r c Hr Hc. apply Hpx; lia. }
    rewrite E. apply tabulate_ext. intros r c Hr Hc. simpl. do 2 f_equal. lia.
  - destruct (rot90_tabulate W H (λ r c, (a !!! (H - 1 - c)%nat) !!! r) HW) as [E _].
    { intros r c Hr Hc. apply Hpx; lia. }
    rewrite E. apply tabulate_ext. intros r c Hr Hc. simpl. do 3 f_equal. lia.
Qed.

Lemma rot90_four_times {T} (a : image T) H W k :
  nd.rect H W a → (0 < H)%nat → (0 < W)%nat → k = 1 ∨ k = -1 →
  nd.rot90 (nd.rot90 (nd.rot90 (nd.rot90 a k) k) k) k = a.
Proof.
  intros Ha HH HW Hk.
  assert (Hpx : ∀ r c, (r < H)%nat → (c < W)%nat →
                  length ((a !!! r) !!! c) = 3%nat)
    by (intros; by apply (rect_pixel H W)).
  rewrite (rect_tabulate _ _ _ Ha) at 1 2.
  destruct Hk as [-> | ->].
  - destruct (rot90_tabulate H W _ HH Hpx) as [-> _].
    destruct (rot90_tabulate W H (λ r c, (a !!! c) !!! (W - 1 - r)%nat) HW) as [-> _].
    { intros r c Hr Hc. apply Hpx; lia. }
    destruct (rot90_tabulate H W
      (λ r c, (a !!! (H - 1 - r)%nat) !!! (W - 1 - c)%nat) HH) as [-> _].
    { intros r c Hr Hc. apply Hpx; lia. }
    destruct (rot90_tabulate W H
      (λ r c, (a !!! (H - 1 - c)%nat) !!! (W - 1 - (W - 1 - r))%nat) HW) as [-> _].
    { intros r c Hr Hc. apply Hpx; lia. }
    apply tabulate_ext. intros r c Hr Hc. simpl.
    replace (H - 1 - (H - 1 - r))%nat with r by lia.
    by replace (W - 1 - (W - 1 - c))%nat with c by lia.
  - destruct (rot90_tabulate H W _ HH Hpx) as [_ ->].
    destruct (rot90_tabulate W H (λ r c, (a !!! (H - 1 - c)%nat) !!! r) HW) as [_ ->].
    { intros r c Hr Hc. apply Hpx; lia. }
    destruct (rot90_tabulate H W
      (λ r c, (a !!! (H - 1 - r)%nat) !!! (W - 1 - c)%nat) HH) as [_ ->].
    { intros r c Hr Hc. apply Hpx; lia. }
    destruct (rot90_tabulate W H
      (λ r c, (a !!! (H - 1 - (H - 1 - c))%nat) !!! (W - 1 - r)%nat) HW) as [_ ->].
    { intros r c Hr Hc. apply Hpx; lia. }
    apply tabulate_ext. intros r c Hr Hc. simpl.
    replace (H - 1 - (H - 1 - r))%nat with r by lia.
    by replace (W - 1 - (W - 1 - c))%nat with c by lia.
Qed.

(** X6. On a normalized image of shape (H, W, 3), H and W positive,
    [rot90] returns an array of shape (W, H, 3) for either value of
    [ccw], and the two directions undo each other: a call with
    [ccw=True] after a default call, or the other way round, gives back
    the image pixel for pixel. *)
Theorem rot90_directions_are_inverse (σ : gmap loc ndarray) (p : loc)
    (a : image sample) (H W : nat) :
  σ !! p = Some (Rank3 a) →
  nd.rect H W a →
  (0 < H)%nat → (0 < W)%nat →
  (∀ ccw, ∃ b,
     rot90_body (VArr p) ccw σ
       = Returns (VArr (fresh_loc σ)) (<[fresh_loc σ := Rank3 b]> σ) ∧
     nd.rect W H b) ∧
  (∃ q σ',
     (r ← rot90_body (VArr p) false; rot90_body r true) σ = Returns (VArr q) σ' ∧
     σ' !! q = Some (Rank3 a) ∧ σ' !! p = Some (Rank3 a)) ∧
  (∃ q σ',
     (r ← rot90_body (VArr p) true; rot90_body r false) σ = Returns (VArr q) σ' ∧
     σ' !! q = Some (Rank3 a) ∧ σ' !! p = Some (Rank3 a)).
Proof.
  intros Hp Ha HH HW. destruct (rot90_back a H W Ha HH HW) as [E13 E31].
  split; [|split].
  - intros ccw. eexists. split; [by apply (rot90_computes ccw)|].
    apply (rot90_shape a H W); [done..|]. destruct ccw; auto.
  - destruct (computes_twice _ _ _ _ σ p a (rot90_computes false)
                (rot90_computes true) Hp) as (q & σ' & Hrun & Hq & Hp').
    exists q, σ'. split; [exact Hrun|]. split; [|exact Hp'].
    rewrite Hq. by rewrite E13.
  - destruct (computes_twice _ _ _ _ σ p a (rot90_computes true)
                (rot90_computes false) Hp) as (q & σ' & Hrun & Hq & Hp').
    exists q, σ'. split; [exact Hrun|]. split; [|exact Hp'].
    rewrite Hq. by rewrite E31.
Qed.

Lemma rot90_directions_are_inverse_witness :
  let px3 (n : Z) : list Q := [inject_Z n; inject_Z n; inject_Z n] in
  let a : image sample := [[px3 1; px3 2; px3 3]; [px3 4; px3 5; px3 6]] in
  let σ : gmap loc ndarray := {[ 0%nat := Rank3 a ]} in
  ∃ q σ',
    (r ← rot90_body (VArr 0%nat) false; rot90_body r true) σ = Returns (VArr q) σ' ∧
    σ' !! q = Some (Rank3 a) ∧ σ' !! 0%nat = Some (Rank3 a).
Proof.
  intros px3 a σ.
  destruct (rot90_directions_are_inverse σ 0%nat a 2 3) as (_ & Hback & _).
  - reflexivity.
  - split; [reflexivity|]. repeat constructor.
  - lia.
  - lia.
  - exact Hback.
Defined.

(** X7. On a normalized image of shape (H, W, 3), H and W positive,
    four calls of [rot90] with one value of [ccw] give back the image
    pixel for pixel; the input array is left as it was. *)
Theorem rot90_four_times_is_identity (σ : gmap loc ndarray) (p : loc)
    (a : image sample) (H W : nat) (ccw : bool) :
  σ !! p = Some (Rank3 a) →
  nd.rect H W a →
  (0 < H)%nat → (0 < W)%nat →
  ∃ q σ',
    (r1 ← rot90_body (VArr p) ccw;
     r2 ← rot90_body r1 ccw;
     r3 ← rot90_body r2 ccw;
     rot90_body r3 ccw) σ = Returns (VArr q) σ' ∧
    σ' !! q = Some (Rank3 a) ∧
    σ' !! p = Some (Rank3 a).
Proof.
  intros Hp Ha HH HW.
  pose proof (computes_yields _ _ (rot90_computes ccw)) as Hone.
  pose proof (yields_then _ _ _ _ Hone
                (yields_then _ _ _ _ Hone (yields_then _ _ _ _ Hone Hone))) as Hfour.
  destruct (Hfour σ p a Hp) as (q & σ' & Hrun & Hq & Hkeep).
  exists q, σ'. split; [exact Hrun|]. split; [|by apply Hkeep].
  rewrite Hq. do 2 f_equal. simpl.
  apply (rot90_four_times a H W); [done..|]. destruct ccw; auto.
Qed.

Lemma rot90_four_times_is_identity_witness :
  let px3 (n : Z) : list Q := [inject_Z n; inject_Z n; inject_Z n] in
  let a : image sample := [[px3 1; px3 2; px3 3]; [px3 4; px3 5; px3 6]] in
  let σ : gmap loc ndarray := {[ 0%nat := Rank3 a ]} in
  ∃ q σ',
    (r1 ← rot90_body (VArr 0%nat) false;
     r2 ← rot90_body r1 false;
     r3 ← rot90_body r2 false;
     rot90_body r3 false) σ = Returns (VArr q) σ' ∧
    σ' !! q = Some (Rank3 a) ∧
    σ' !! 0%nat = Some (Rank3 a).
Proof.
  intros px3 a σ.
  apply (rot90_four_times_is_identity σ 0%nat a 2 3 false).
  - reflexivity.
  - split; [reflexivity|]. repeat constructor.
  - lia.
  - lia.
Defined.

(** ** Shifts *)

Lemma index_raises n i e : py.index n i = Raise e → e = IndexError.
Proof.
  unfold py.index. repeat case_bool_decide; intros E; by inversion E.
Qed.

Lemma run_fill_raises {I} (step : image sample → I → result (image sample)) :
  (∀ a i e, step a i = Raise e → e = IndexError) →
  ∀ l a b e, run_fill step l a = (b, Some e) → e = IndexError.
Proof.
  intros Hstep l. induction l as [|i l IH]; intros a b e; simpl; [done|].
  destruct (step a i) as [a'|e'] eqn:E.
  - apply IH.
  - intros [= _ <-]. by apply (Hstep a i).
Qed.

Lemma fill_steps_raise_IndexError px :
  (∀ a i e, fill_down_step px a i = Raise e → e = IndexError) ∧
  (∀ a i e, fill_up_step px a i = Raise e → e = IndexError) ∧
  (∀ a i e, fill_left_step px a i = Raise e → e = IndexError) ∧
  (∀ a i e, fill_right_step px a i = Raise e → e = IndexError).
Proof.
  repeat split; intros a i e;
    unfold fill_down_step, fill_up_step, fill_left_step, fill_right_step,
      nd.getrow, nd.setrow, nd.getcol, nd.setcol;
    repeat match goal with
    | |- context [py.index ?n ?j] =>
        let E := fresh "E" in
        destruct (py.index n j) eqn:E; simpl;
        [|intros [= <-]; by apply (index_raises _ _ _ E)]
    end; done.
Qed.

Lemma fill_outcome_keeps (σ : gmap loc ndarray) p a
    (r : image sample * option exn) :
  σ !! p = Some (Rank3 a) →
  (∀ e, r.2 = Some e → e = IndexError) →
  new_or_IndexError σ p a (fill_outcome (fresh_loc σ) σ r).
Proof.
  intros Hp He. destruct r as [b [e|]]; simpl in *.
  - split; [by apply He|]. by apply lookup_alloc_other.
  - split; [done|]. by apply lookup_alloc_other.
Qed.

Lemma shift_bodies_abs (img : pyval) (px : Z) (σ : gmap loc ndarray) :
  shiftdown_body img px σ = shiftdown_body img (Z.abs px) σ ∧
  shiftup_body img px σ = shiftup_body img (Z.abs px) σ ∧
  shiftleft_body img px σ = shiftleft_body img (Z.abs px) σ ∧
  shiftright_body img px σ = shiftright_body img (Z.abs px) σ.
Proof.
  unfold shiftdown_body, shiftup_body, shiftleft_body, shiftright_body.
  by rewrite (Z.abs_eq (Z.abs px)) by lia.
Qed.

Section shift_zero.
Context (σ : gmap loc ndarray) (p : loc) (a : image sample).
Hypothesis Hp : σ !! p = Some (Rank3 a).

Lemma roll_zero {A} (l : list A) : nd.roll l 0 = l.
Proof.
  unfold nd.roll. rewrite Z.mod_0_l by (case_decide; lia). simpl.
  by rewrite Nat.sub_0_r, drop_all, firstn_all.
Qed.

Lemma roll_cols_zero (b : image sample) : nd.roll_cols b 0 = b.
Proof.
  unfold nd.roll_cols. rewrite <- (list_fmap_id b) at 2.
  apply list_fmap_ext. intros i r _. apply roll_zero.
Qed.

Lemma shift_bodies_zero :
  let done := Returns (VArr (fresh_loc σ)) (<[fresh_loc σ := Rank3 a]> σ) in
  shiftdown_body (VArr p) 0 σ = done ∧
  shiftup_body (VArr p) 0 σ = done ∧
  shiftleft_body (VArr p) 0 σ = done ∧
  shiftright_body (VArr p) 0 σ = done.
Proof.
  unfold shiftdown_body, shiftup_body, shiftleft_body, shiftright_body,
    rolldown_body, rollright_body. simpl.
  rewrite !(bind_returns _ _ _ _ _ (roll_axis0_array _ _ _ Hp 0)).
  rewrite !(bind_returns _ _ _ _ _ (roll_axis1_array _ _ _ Hp 0)).
  unfold nd.roll_rows. by rewrite roll_zero, roll_cols_zero.
Qed.
End shift_zero.

(** X8. Whatever the integer [px], each of the four shifts either
    returns a new array object or raises IndexError, and in both cases
    the caller's array keeps its contents: the fill loop writes into
    the array the roll returned, never into the input. *)
Theorem shifts_keep_their_input (σ : gmap loc ndarray) (p : loc)
    (a : image sample) (px : Z) :
  σ !! p = Some (Rank3 a) →
  new_or_IndexError σ p a (shiftdown_body (VArr p) px σ) ∧
  new_or_IndexError σ p a (shiftup_body (VArr p) px σ) ∧
  new_or_IndexError σ p a (shiftleft_body (VArr p) px σ) ∧
  new_or_IndexError σ p a (shiftright_body (VArr p) px σ).
Proof.
  intros Hp. destruct (shift_bodies_abs (VArr p) px σ) as (-> & -> & -> & ->).
  destruct (fill_steps_raise_IndexError (Z.abs px)) as (Hd & Hu & Hl & Hr).
  destruct (decide (Z.abs px = 0)) as [E0|Hne].
  - rewrite E0. destruct (shift_bodies_zero σ p a Hp) as (-> & -> & -> & ->).
    repeat split; by apply lookup_alloc_other.
  - assert (Hpos : 0 < Z.abs px) by lia.
    rewrite (shiftdown_body_runs _ _ _ _ Hp Hpos), (shiftup_body_runs _ _ _ _ Hp Hpos),
      (shiftleft_body_runs _ _ _ _ Hp Hpos), (shiftright_body_runs _ _ _ _ Hp Hpos).
    repeat split; (apply fill_outcome_keeps; [done|]); intros e He;
      match type of He with
      | (run_fill ?step ?l ?b).2 = _ =>
          destruct (run_fill step l b) as [c o] eqn:Erun; simpl in He; subst o
      end.
    + by apply (run_fill_raises _ Hd _ _ _ _ Erun).
    + by apply (run_fill_raises _ Hu _ _ _ _ Erun).
    + by apply (run_fill_raises _ Hl _ _ _ _ Erun).
    + by apply (run_fill_raises _ Hr _ _ _ _ Erun).
Qed.

Lemma shifts_keep_their_input_witness :
  let a : image sample := [[[1%Q; 1%Q; 1%Q]]; [[2%Q; 2%Q; 2%Q]]] in
  let σ : gmap loc ndarray := {[ 0%nat := Rank3 a ]} in
  new_or_IndexError σ 0%nat a (shiftdown_body (VArr 0%nat) (-1) σ) ∧
  new_or_IndexError σ 0%nat a (shiftup_body (VArr 0%nat) 9 σ).
Proof.
  intros a σ.
  destruct (shifts_keep_their_input σ 0%nat a (-1) eq_refl) as (Hdown & _).
  destruct (shifts_keep_their_input σ 0%nat a 9 eq_refl) as (_ & Hup & _).
  split; [exact Hdown|exact Hup].
Defined.

(** X9. The shifts take [abs(px)]: a call with [-px] has the outcome of
    the call with [px], so a negative [px] does not shift the other
    way; and with [px = 0] each shift returns a new array with the
    contents of the image. *)
Theorem shifts_ignore_sign (σ : gmap loc ndarray) (p : loc)
    (a : image sample) (px : Z) :
  σ !! p = Some (Rank3 a) →
  shiftdown_body (VArr p) (- px) σ = shiftdown_body (VArr p) px σ ∧
  shiftup_body (VArr p) (- px) σ = shiftup_body (VArr p) px σ ∧
  shiftleft_body (VArr p) (- px) σ = shiftleft_body (VArr p) px σ ∧
  shiftright_body (VArr p) (- px) σ = shiftright_body (VArr p) px σ ∧
  shiftdown_body (VArr p) 0 σ
    = Returns (VArr (fresh_loc σ)) (<[fresh_loc σ := Rank3 a]> σ) ∧
  shiftup_body (VArr p) 0 σ
    = Returns (VArr (fresh_loc σ)) (<[fresh_loc σ := Rank3 a]> σ) ∧
  shiftleft_body (VArr p) 0 σ
    = Returns (VArr (fresh_loc σ)) (<[fresh_loc σ := Rank3 a]> σ) ∧
  shiftright_body (VArr p) 0 σ
    = Returns (VArr (fresh_loc σ)) (<[fresh_loc σ := Rank3 a]> σ).
Proof.
  intros Hp.
  destruct (shift_bodies_abs (VArr p) px σ) as (Ed & Eu & El & Er).
  destruct (shift_bodies_abs (VArr p) (- px) σ) as (Ed' & Eu' & El' & Er').
  rewrite Z.abs_opp in Ed', Eu', El', Er'.
  destruct (shift_bodies_zero σ p a Hp) as (Zd & Zu & Zl & Zr).
  repeat apply conj; congruence.
Qed.

Lemma shifts_ignore_sign_witness :
  let a : image sample := [[[1%Q; 1%Q; 1%Q]]; [[2%Q; 2%Q; 2%Q]]] in
  let σ : gmap loc ndarray := {[ 0%nat := Rank3 a ]} in
  shiftdown_body (VArr 0%nat) (- 1) σ = shiftdown_body (VArr 0%nat) 1 σ ∧
  shiftdown_body (VArr 0%nat) 0 σ
    = Returns (VArr (fresh_loc σ)) (<[fresh_loc σ := Rank3 a]> σ).
Proof.
  intros a σ.
  destruct (shifts_ignore_sign σ 0%nat a 1 eq_refl) as (Hneg & _ & _ & _ & Hzero & _).
  split; [exact Hneg|exact Hzero].
Defined.

(** The stretch of X10 on an instance: on the 3-row image with rows 1, 2, 3 and px = 1, [shiftdown] returns
    rows 1, 1, 2. *)
Lemma shiftdown_shiftright_fill_with_edge_witness :
  let px3 (n : Z) : list Q := [inject_Z n; inject_Z n; inject_Z n] in
  let a : image sample := [[px3 1]; [px3 2]; [px3 3]] in
  let σ : gmap loc ndarray := {[ 0%nat := Rank3 a ]} in
  shiftdown_body (VArr 0%nat) 1 σ
    = Returns (VArr 1%nat) (<[1%nat := Rank3 [[px3 1]; [px3 1]; [px3 2]]]> σ).
Proof.
  intros px3 a σ.
  destruct (shiftdown_shiftright_fill_with_edge σ 0%nat a 3 1 1) as [Hdown _].
  - reflexivity.
  - split; [reflexivity|]. repeat constructor.
  - lia.
  - apply Hdown. lia.
Defined.

(** ** Mirrors *)

Section halves.
Context {A : Type}.
Implicit Types (l : list A).

Lemma keep_low_length l : length (keep_low l) = length l.
Proof.
  unfold keep_low. pose proof (half_le (length l)).
  rewrite length_app, length_take, length_drop, length_reverse. lia.
Qed.

Lemma keep_high_length l : length (keep_high l) = length l.
Proof.
  unfold keep_high. pose proof (half_le (length l)).
  rewrite length_app, length_take, length_drop, length_reverse. lia.
Qed.

(** Position [i] holds the element of the position nearer to the start
    among [i] and its mirror image [n - 1 - i]. *)
Lemma keep_low_lookup l i :
  (i < length l)%nat →
  keep_low l !! i = l !! (i `min` (length l - 1 - i))%nat.
Proof.
  intros Hi. unfold keep_low. pose proof (Nat.div_mod_eq (length l) 2).
  pose proof (Nat.mod_upper_bound (length l) 2).
  destruct (decide (i < length l / 2)%nat).
  - rewrite lookup_app_l by (rewrite length_take; lia).
    rewrite lookup_take_lt by lia. f_equal. lia.
  - rewrite lookup_app_r by (rewrite length_take; lia).
    rewrite length_take, lookup_drop, reverse_lookup by lia. f_equal. lia.
Qed.

Lemma keep_high_lookup l i :
  (i < length l)%nat →
  keep_high l !! i = l !! (i `max` (length l - 1 - i))%nat.
Proof.
  intros Hi. unfold keep_high. pose proof (Nat.div_mod_eq (length l) 2).
  pose proof (Nat.mod_upper_bound (length l) 2).
  destruct (decide (i < length l / 2)%nat).
  - rewrite lookup_app_l by (rewrite length_take, length_reverse; lia).
    rewrite lookup_take_lt, reverse_lookup by lia. f_equal. lia.
  - rewrite lookup_app_r by (rewrite length_take, length_reverse; lia).
    rewrite length_take, length_reverse, lookup_drop. f_equal. lia.
Qed.

Lemma eq_by_lookup l1 l2 :
  length l1 = length l2 →
  (∀ i, (i < length l1)%nat → l1 !! i = l2 !! i) → l1 = l2.
Proof.
  intros Hlen Hi. apply list_eq. intros i.
  destruct (decide (i < length l1)%nat); [by apply Hi|].
  by rewrite !lookup_ge_None_2 by lia.
Qed.

Lemma keep_low_symmetric l : reverse (keep_low l) = keep_low l.
Proof.
  apply eq_by_lookup; [by rewrite length_reverse|]. intros i.
  rewrite length_reverse, keep_low_length. intros Hi.
  rewrite reverse_lookup by (rewrite keep_low_length; lia).
  rewrite keep_low_length, !keep_low_lookup by lia. f_equal. lia.
Qed.

Lemma keep_high_symmetric l : reverse (keep_high l) = keep_high l.
Proof.
  apply eq_by_lookup; [by rewrite length_reverse|]. intros i.
  rewrite length_reverse, keep_high_length. intros Hi.
  rewrite reverse_lookup by (rewrite keep_high_length; lia).
  rewrite keep_high_length, !keep_high_lookup by lia. f_equal. lia.
Qed.

Lemma keep_low_idempotent l : keep_low (keep_low l) = keep_low l.
Proof.
  apply eq_by_lookup; [by rewrite keep_low_length|]. intros i.
  rewrite !keep_low_length. intros Hi.
  rewrite keep_low_lookup by (rewrite keep_low_length; lia).
  rewrite keep_low_length, !keep_low_lookup by lia. f_equal. lia.
Qed.

Lemma keep_high_idempotent l : keep_high (keep_high l) = keep_high l.
Proof.
  apply eq_by_lookup; [by rewrite keep_high_length|]. intros i.
  rewrite !keep_high_length. intros Hi.
  rewrite keep_high_lookup by (rewrite keep_high_length; lia).
  rewrite keep_high_length, !keep_high_lookup by lia. f_equal. lia.
Qed.
End halves.

(** The four assignments of the mirrors, on a (H, W, 3) image. *)
Section mirror_contents.
Context (a : image sample) (H W : nat).
Hypothesis Ha : nd.rect H W a.

Lemma mirrorleft_contents :
  nd.assign_cols_from (Z.of_nat (nd.ncols a) `div` 2) a (nd.fliplr a)
  = keep_low <$> a.
Proof.
  unfold nd.assign_cols_from, nd.fliplr. rewrite zip_with_fmap_r, zip_with_diag.
  destruct a as [|r0 a'] eqn:Ea; [done|]. rewrite <- Ea in *.
  assert (HH : (0 < H)%nat) by (destruct Ha as [<- _]; subst a; simpl; lia).
  rewrite (rect_ncols _ _ _ Ha HH).
  apply Forall_fmap_ext_1. destruct Ha as [_ Hrows].
  eapply Forall_impl; [exact Hrows|]. intros r [Hr _]. simpl.
  unfold py.slice_to, py.slice_from, keep_low.
  by rewrite length_reverse, Hr, slice_bound_half.
Qed.

Lemma mirrorright_contents :
  nd.assign_cols_to (Z.of_nat (nd.ncols a) `div` 2) a (nd.fliplr a)
  = keep_high <$> a.
Proof.
  unfold nd.assign_cols_to, nd.fliplr. rewrite zip_with_fmap_r, zip_with_diag.
  destruct a as [|r0 a'] eqn:Ea; [done|]. rewrite <- Ea in *.
  assert (HH : (0 < H)%nat) by (destruct Ha as [<- _]; subst a; simpl; lia).
  rewrite (rect_ncols _ _ _ Ha HH).
  apply Forall_fmap_ext_1. destruct Ha as [_ Hrows].
  eapply Forall_impl; [exact Hrows|]. intros r [Hr _]. simpl.
  unfold py.slice_to, py.slice_from, keep_high.
  by rewrite length_reverse, Hr, slice_bound_half.
Qed.

Lemma mirrorup_contents :
  nd.assign_rows_from (Z.of_nat (nd.nrows a) `div` 2) a (nd.flipud a)
  = keep_low a.
Proof.
  unfold nd.assign_rows_from, nd.flipud, nd.nrows, py.slice_to, py.slice_from,
    keep_low.
  by rewrite length_reverse, slice_bound_half.
Qed.

Lemma mirrordown_contents :
  nd.assign_rows_to (Z.of_nat (nd.nrows a) `div` 2) a (nd.flipud a)
  = keep_high a.
Proof.
  unfold nd.assign_rows_to, nd.flipud, nd.nrows, py.slice_to, py.slice_from,
    keep_high.
  by rewrite length_reverse, slice_bound_half.
Qed.

Lemma keep_cols_rect (f : list (list sample) → list (list sample)) :
  (∀ r, length (f r) = length r) →
  (∀ r i x, f r !! i = Some x → x ∈ r) →
  nd.rect H W (f <$> a).
Proof.
  intros Hlen Hin. destruct Ha as [HaH Hrows].
  split; [by rewrite length_fmap|].
  apply Forall_fmap. eapply Forall_impl; [exact Hrows|].
  intros r [Hr Hpx]. simpl. split; [by rewrite Hlen|].
  apply Forall_forall. intros x Hx. apply list_elem_of_lookup_1 in Hx as [i Hi].
  rewrite Forall_forall in Hpx. by apply Hpx, (Hin r i).
Qed.
End mirror_contents.

(** What each mirror leaves in the input object. *)
Lemma mirrors_run (σ : gmap loc ndarray) (p : loc) (a : image sample) (H W : nat) :
  σ !! p = Some (Rank3 a) →
  nd.rect H W a →
  (∃ σ', mirrorleft_body (VArr p) σ = Returns (VArr p) σ' ∧
         σ' !! p = Some (Rank3 (keep_low <$> a))) ∧
  (∃ σ', mirrorright_body (VArr p) σ = Returns (VArr p) σ' ∧
         σ' !! p = Some (Rank3 (keep_high <$> a))) ∧
  (∃ σ', mirrorup_body (VArr p) σ = Returns (VArr p) σ' ∧
         σ' !! p = Some (Rank3 (keep_low a))) ∧
  (∃ σ', mirrordown_body (VArr p) σ = Returns (VArr p) σ' ∧
         σ' !! p = Some (Rank3 (keep_high a))).
Proof.
  intros Hp Ha.
  rewrite (mirrorleft_body_runs _ _ _ Hp), (mirrorright_body_runs _ _ _ Hp),
    (mirrorup_body_runs _ _ _ Hp), (mirrordown_body_runs _ _ _ Hp).
  rewrite (mirrorleft_contents a H W Ha), (mirrorright_contents a H W Ha),
    mirrorup_contents, mirrordown_contents.
  repeat split; eexists; (split; [reflexivity|apply lookup_insert_eq]).
Qed.

Lemma keep_rows_rect (a : image sample) (H W : nat) :
  nd.rect H W a → nd.rect H W (keep_low a) ∧ nd.rect H W (keep_high a).
Proof.
  intros [Hlen Hrows]. split.
  - split; [by rewrite keep_low_length|].
    apply Forall_forall. intros r Hr. apply list_elem_of_lookup_1 in Hr as [i Hi].
    assert (i < length a)%nat
      by (rewrite <- (keep_low_length a); by eapply lookup_lt_Some).
    rewrite keep_low_lookup in Hi by done.
    rewrite Forall_forall in Hrows. by eapply Hrows, list_elem_of_lookup_2.
  - split; [by rewrite keep_high_length|].
    apply Forall_forall. intros r Hr. apply list_elem_of_lookup_1 in Hr as [i Hi].
    assert (i < length a)%nat
      by (rewrite <- (keep_high_length a); by eapply lookup_lt_Some).
    rewrite keep_high_lookup in Hi by done.
    rewrite Forall_forall in Hrows. by eapply Hrows, list_elem_of_lookup_2.
Qed.

Lemma keep_cols_rects (a : image sample) (H W : nat) :
  nd.rect H W a → nd.rect H W (keep_low <$> a) ∧ nd.rect H W (keep_high <$> a).
Proof.
  intros Ha. split.
  - apply keep_cols_rect; [done|apply keep_low_length|].
    intros r i x Hi.
    assert (i < length r)%nat
      by (rewrite <- (keep_low_length r); by eapply lookup_lt_Some).
    rewrite keep_low_lookup in Hi by done. by eapply list_elem_of_lookup_2.
  - apply keep_cols_rect; [done|apply keep_high_length|].
    intros r i x Hi.
    assert (i < length r)%nat
      by (rewrite <- (keep_high_length r); by eapply lookup_lt_Some).
    rewrite keep_high_lookup in Hi by done. by eapply list_elem_of_lookup_2.
Qed.

(** X11. On a normalized image of shape (H, W, 3), [mirrorright]
    returns the input object with the shape unchanged and with pixel
    (r, c) equal to the former pixel (r, max(c, W-1-c)): the columns
    from W//2 on are kept, the centre column of an odd width among
    them, and each column c below W//2 takes the former column
    W-1-c. *)
Theorem mirrorright_keeps_right_half (σ : gmap loc ndarray) (p : loc)
    (a : image sample) (H W : nat) :
  σ !! p = Some (Rank3 a) →
  nd.rect H W a →
  ∃ b σ',
    mirrorright_body (VArr p) σ = Returns (VArr p) σ' ∧
    σ' !! p = Some (Rank3 b) ∧
    nd.rect H W b ∧
    ∀ r row0, a !! r = Some row0 →
      ∃ row, b !! r = Some row ∧
        ∀ c, (c < W)%nat → row !! c = row0 !! (c `max` (W - 1 - c))%nat.
Proof.
  intros Hp Ha.
  destruct (mirrors_run σ p a H W Hp Ha) as (_ & (σ' & Hrun & Hσ') & _).
  exists (keep_high <$> a), σ'. split; [exact Hrun|]. split; [exact Hσ'|].
  split; [by apply keep_cols_rects|].
  intros r row0 Hr. exists (keep_high row0).
  split; [by rewrite list_lookup_fmap, Hr|].
  assert (Hlen : length row0 = W)
    by (apply (rect_row_length _ _ _ _ Ha); by eapply list_elem_of_lookup_2).
  intros c Hc. rewrite keep_high_lookup by lia. by rewrite Hlen.
Qed.

(** A row of three pixels 1 2 3 becomes 3 2 3. *)
Lemma mirrorright_keeps_right_half_witness :
  let px3 (n : Z) : list Q := [inject_Z n; inject_Z n; inject_Z n] in
  let a : image sample := [[px3 1; px3 2; px3 3]] in
  let σ : gmap loc ndarray := {[ 0%nat := Rank3 a ]} in
  ∃ b σ',
    mirrorright_body (VArr 0%nat) σ = Returns (VArr 0%nat) σ' ∧
    σ' !! 0%nat = Some (Rank3 b) ∧
    ∃ row, b !! 0%nat = Some row ∧
      row !! 0%nat = Some (px3 3) ∧ row !! 1%nat = Some (px3 2) ∧
      row !! 2%nat = Some (px3 3).
Proof.
  intros px3 a σ.
  destruct (mirrorright_keeps_right_half σ 0%nat a 1 3) as
    (b & σ' & Hrun & Hb & _ & Hrows).
  - reflexivity.
  - split; [reflexivity|]. repeat constructor.
  - exists b, σ'. split; [exact Hrun|]. split; [exact Hb|].
    destruct (Hrows 0%nat _ eq_refl) as (row & Hrow & Hcols).
    exists row. split; [exact Hrow|].
    split; [|split]; [apply (Hcols 0%nat)|apply (Hcols 1%nat)|apply (Hcols 2%nat)];
      lia.
Defined.

(** X12. On a normalized image of shape (H, W, 3), [mirrorup] returns
    the input object with row r equal to the former row
    min(r, H-1-r): the rows below H//2 are kept and the others, the
    centre row of an odd height among them, are taken from the
    flipped image. [mirrordown] returns it with row r equal to the
    former row max(r, H-1-r). The shape is unchanged. *)
Theorem mirrorup_mirrordown_rows (σ : gmap loc ndarray) (p : loc)
    (a : image sample) (H W : nat) :
  σ !! p = Some (Rank3 a) →
  nd.rect H W a →
  (∃ b σ',
     mirrorup_body (VArr p) σ = Returns (VArr p) σ' ∧
     σ' !! p = Some (Rank3 b) ∧
     nd.rect H W b ∧
     ∀ r, (r < H)%nat → b !! r = a !! (r `min` (H - 1 - r))%nat) ∧
  (∃ b σ',
     mirrordown_body (VArr p) σ = Returns (VArr p) σ' ∧
     σ' !! p = Some (Rank3 b) ∧
     nd.rect H W b ∧
     ∀ r, (r < H)%nat → b !! r = a !! (r `max` (H - 1 - r))%nat).
Proof.
  intros Hp Ha.
  destruct (mirrors_run σ p a H W Hp Ha)
    as (_ & _ & (σ1 & Hrun1 & Hσ1) & (σ2 & Hrun2 & Hσ2)).
  destruct (keep_rows_rect a H W Ha) as [Hlow Hhigh].
  pose proof Ha as [Hlen _]. split.
  - exists (keep_low a), σ1. split; [exact Hrun1|]. split; [exact Hσ1|].
    split; [exact Hlow|]. intros r Hr. rewrite keep_low_lookup by lia.
    by rewrite Hlen.
  - exists (keep_high a), σ2. split; [exact Hrun2|]. split; [exact Hσ2|].
    split; [exact Hhigh|]. intros r Hr. rewrite keep_high_lookup by lia.
    by rewrite Hlen.
Qed.

(** Rows 1, 2, 3 become 1, 2, 1 under [mirrorup]. *)
Lemma mirrorup_mirrordown_rows_witness :
  let px3 (n : Z) : list Q := [inject_Z n; inject_Z n; inject_Z n] in
  let a : image sample := [[px3 1]; [px3 2]; [px3 3]] in
  let σ : gmap loc ndarray := {[ 0%nat := Rank3 a ]} in
  ∃ b σ',
    mirrorup_body (VArr 0%nat) σ = Returns (VArr 0%nat) σ' ∧
    σ' !! 0%nat = Some (Rank3 b) ∧
    b !! 0%nat = Some [px3 1] ∧ b !! 1%nat = Some [px3 2] ∧
    b !! 2%nat = Some [px3 1].
Proof.
  intros px3 a σ.
  destruct (mirrorup_mirrordown_rows σ 0%nat a 3 1) as
    ((b & σ' & Hrun & Hb & _ & Hrows) & _).
  - reflexivity.
  - split; [reflexivity|]. repeat constructor.
  - exists b, σ'. split; [exact Hrun|]. split; [exact Hb|].
    split; [|split]; [apply (Hrows 0%nat)|apply (Hrows 1%nat)|apply (Hrows 2%nat)];
      lia.
Defined.

(** X13. On a normalized image of shape (H, W, 3) of any parity, the
    image each mirror leaves in the input object is symmetric: flipped
    left to right it is itself after [mirrorleft] and [mirrorright],
    flipped upside down it is itself after [mirrorup] and
    [mirrordown]. *)
Theorem mirrors_give_symmetric_images (σ : gmap loc ndarray) (p : loc)
    (a : image sample) (H W : nat) :
  σ !! p = Some (Rank3 a) →
  nd.rect H W a →
  (∃ b σ', mirrorleft_body (VArr p) σ = Returns (VArr p) σ' ∧
     σ' !! p = Some (Rank3 b) ∧ nd.fliplr b = b) ∧
  (∃ b σ', mirrorright_body (VArr p) σ = Returns (VArr p) σ' ∧
     σ' !! p = Some (Rank3 b) ∧ nd.fliplr b = b) ∧
  (∃ b σ', mirrorup_body (VArr p) σ = Returns (VArr p) σ' ∧
     σ' !! p = Some (Rank3 b) ∧ nd.flipud b = b) ∧
  (∃ b σ', mirrordown_body (VArr p) σ = Returns (VArr p) σ' ∧
     σ' !! p = Some (Rank3 b) ∧ nd.flipud b = b).
Proof.
  intros Hp Ha.
  destruct (mirrors_run σ p a H W Hp Ha)
    as ((σ1 & R1 & S1) & (σ2 & R2 & S2) & (σ3 & R3 & S3) & (σ4 & R4 & S4)).
  repeat apply conj.
  - exists (keep_low <$> a), σ1. split; [done|]. split; [done|].
    unfold nd.fliplr. rewrite <- list_fmap_compose. apply list_fmap_ext.
    intros i r _. simpl. apply keep_low_symmetric.
  - exists (keep_high <$> a), σ2. split; [done|]. split; [done|].
    unfold nd.fliplr. rewrite <- list_fmap_compose. apply list_fmap_ext.
    intros i r _. simpl. apply keep_high_symmetric.
  - exists (keep_low a), σ3. split; [done|]. split; [done|].
    apply keep_low_symmetric.
  - exists (keep_high a), σ4. split; [done|]. split; [done|].
    apply keep_high_symmetric.
Qed.

Lemma mirrors_give_symmetric_images_witness :
  let px3 (n : Z) : list Q := [inject_Z n; inject_Z n; inject_Z n] in
  let a : image sample := [[px3 1; px3 2; px3 3]; [px3 4; px3 5; px3 6]] in
  let σ : gmap loc ndarray := {[ 0%nat := Rank3 a ]} in
  ∃ b σ', mirrorleft_body (VArr 0%nat) σ = Returns (VArr 0%nat) σ' ∧
    σ' !! 0%nat = Some (Rank3 b) ∧ nd.fliplr b = b.
Proof.
  intros px3 a σ.
  destruct (mirrors_give_symmetric_images σ 0%nat a 2 3) as (Hleft & _).
  - reflexivity.
  - split; [reflexivity|]. repeat constructor.
  - exact Hleft.
Defined.

(** X14. A mirror applied to its own result changes nothing more: after
    two calls of one mirror the input object holds what it held after
    the first. *)
Theorem mirrors_are_idempotent (σ : gmap loc ndarray) (p : loc)
    (a : image sample) (H W : nat) :
  σ !! p = Some (Rank3 a) →
  nd.rect H W a →
  (∃ b σ1 σ2,
     mirrorleft_body (VArr p) σ = Returns (VArr p) σ1 ∧
     σ1 !! p = Some (Rank3 b) ∧
     mirrorleft_body (VArr p) σ1 = Returns (VArr p) σ2 ∧
     σ2 !! p = Some (Rank3 b)) ∧
  (∃ b σ1 σ2,
     mirrorright_body (VArr p) σ = Returns (VArr p) σ1 ∧
     σ1 !! p = Some (Rank3 b) ∧
     mirrorright_body (VArr p) σ1 = Returns (VArr p) σ2 ∧
     σ2 !! p = Some (Rank3 b)) ∧
  (∃ b σ1 σ2,
     mirrorup_body (VArr p) σ = Returns (VArr p) σ1 ∧
     σ1 !! p = Some (Rank3 b) ∧
     mirrorup_body (VArr p) σ1 = Returns (VArr p) σ2 ∧
     σ2 !! p = Some (Rank3 b)) ∧
  (∃ b σ1 σ2,
     mirrordown_body (VArr p) σ = Returns (VArr p) σ1 ∧
     σ1 !! p = Some (Rank3 b) ∧
     mirrordown_body (VArr p) σ1 = Returns (VArr p) σ2 ∧
     σ2 !! p = Some (Rank3 b)).
Proof.
  intros Hp Ha.
  destruct (mirrors_run σ p a H W Hp Ha)
    as ((σ1 & R1 & S1) & (σ2 & R2 & S2) & (σ3 & R3 & S3) & (σ4 & R4 & S4)).
  destruct (keep_cols_rects a H W Ha) as [Hcl Hch].
  destruct (keep_rows_rect a H W Ha) as [Hrl Hrh].
  repeat apply conj.
  - destruct (mirrors_run σ1 p _ H W S1 Hcl) as ((σ' & R' & S') & _).
    exists (keep_low <$> a), σ1, σ'. repeat (split; [done|]).
    rewrite S'. do 2 f_equal. rewrite <- list_fmap_compose.
    apply list_fmap_ext. intros i r _. apply keep_low_idempotent.
  - destruct (mirrors_run σ2 p _ H W S2 Hch) as (_ & (σ' & R' & S') & _).
    exists (keep_high <$> a), σ2, σ'. repeat (split; [done|]).
    rewrite S'. do 2 f_equal. rewrite <- list_fmap_compose.
    apply list_fmap_ext. intros i r _. apply keep_high_idempotent.
  - destruct (mirrors_run σ3 p _ H W S3 Hrl) as (_ & _ & (σ' & R' & S') & _).
    exists (keep_low a), σ3, σ'. repeat (split; [done|]).
    by rewrite S', keep_low_idempotent.
  - destruct (mirrors_run σ4 p _ H W S4 Hrh) as (_ & _ & _ & (σ' & R' & S')).
    exists (keep_high a), σ4, σ'. repeat (split; [done|]).
    by rewrite S', keep_high_idempotent.
Qed.

Lemma mirrors_are_idempotent_witness :
  let px3 (n : Z) : list Q := [inject_Z n; inject_Z n; inject_Z n] in
  let a : image sample := [[px3 1; px3 2; px3 3]; [px3 4; px3 5; px3 6]] in
  let σ : gmap loc ndarray := {[ 0%nat := Rank3 a ]} in
  ∃ b σ1 σ2,
    mirrordown_body (VArr 0%nat) σ = Returns (VArr 0%nat) σ1 ∧
    σ1 !! 0%nat = Some (Rank3 b) ∧
    mirrordown_body (VArr 0%nat) σ1 = Returns (VArr 0%nat) σ2 ∧
    σ2 !! 0%nat = Some (Rank3 b).
Proof.
  intros px3 a σ.
  destruct (mirrors_are_idempotent σ 0%nat a 2 3) as (_ & _ & _ & Hdown).
  - reflexivity.
  - split; [reflexivity|]. repeat constructor.
  - exact Hdown.
Defined.

(** ** Windows: [crop] and [zoom] *)

Section slices.
Context {A : Type}.
Implicit Types (l : list A).

(** A slice with bounds inside the axis. *)
Lemma slice_in_range l (lo hi : nat) :
  (lo ≤ hi ≤ length l)%nat →
  py.slice (Z.of_nat lo) (Z.of_nat hi) l = take (hi - lo) (drop lo l).
Proof.
  intros Hb. unfold py.slice.
  by rewrite !slice_bound_in_range, !Nat2Z.id by lia.
Qed.

Lemma slice_in_range_length l (lo hi : nat) :
  (lo ≤ hi ≤ length l)%nat →
  length (py.slice (Z.of_nat lo) (Z.of_nat hi) l) = (hi - lo)%nat.
Proof.
  intros Hb. rewrite slice_in_range by done.
  rewrite length_take, length_drop. lia.
Qed.

Lemma slice_in_range_lookup l (lo hi i : nat) :
  (lo ≤ hi ≤ length l)%nat → (i < hi - lo)%nat →
  py.slice (Z.of_nat lo) (Z.of_nat hi) l !! i = l !! (lo + i)%nat.
Proof.
  intros Hb Hi. rewrite slice_in_range by done.
  by rewrite lookup_take_lt, lookup_drop by lia.
Qed.

(** A stop at or before the start gives the empty slice. *)
Lemma slice_empty l (lo hi : Z) :
  0 ≤ hi ≤ lo → py.slice lo hi l = [].
Proof.
  intros Hb. unfold py.slice, py.slice_bound.
  destruct (Z.ltb_spec lo 0), (Z.ltb_spec hi 0); try lia.
  replace (Z.to_nat (hi `min` Z.of_nat (length l))
           - Z.to_nat (lo `min` Z.of_nat (length l)))%nat with 0%nat by lia.
  done.
Qed.

(** A stop beyond the axis is clipped to its end. *)
Lemma slice_clipped l (hi : Z) :
  Z.of_nat (length l) ≤ hi → py.slice 0 hi l = l.
Proof.
  intros Hb. unfold py.slice, py.slice_bound.
  destruct (Z.ltb_spec hi 0); [lia|].
  change (0 <? 0) with false. cbv iota.
  replace (Z.to_nat (0 `min` Z.of_nat (length l))) with 0%nat by lia.
  replace (Z.to_nat (hi `min` Z.of_nat (length l)) - 0)%nat with (length l) by lia.
  apply firstn_all.
Qed.
End slices.

(** A window with bounds inside a (H, W, 3) image. *)
Lemma window_in_range {T} (a : image T) (H W r0 r1 c0 c1 : nat) :
  nd.rect H W a →
  (r0 ≤ r1 ≤ H)%nat → (c0 ≤ c1 ≤ W)%nat →
  let b := nd.window (Z.of_nat r0) (Z.of_nat r1) (Z.of_nat c0) (Z.of_nat c1) a in
  nd.rect (r1 - r0) (c1 - c0) b ∧
  ∀ i j, (i < r1 - r0)%nat → (j < c1 - c0)%nat →
    ∃ row0 row, a !! (r0 + i)%nat = Some row0 ∧ b !! i = Some row ∧
      row !! j = row0 !! (c0 + j)%nat.
Proof.
  intros Ha Hr Hc b. pose proof Ha as [Hlen Hrows]. subst b. unfold nd.window.
  rewrite Forall_forall in Hrows. split; [split|].
  - rewrite length_fmap. apply slice_in_range_length. lia.
  - apply Forall_fmap, Forall_forall. intros row0 Hrow0. simpl.
    rewrite slice_in_range in Hrow0 by lia.
    assert (Hin : row0 ∈ a).
    { apply list_elem_of_lookup_1 in Hrow0 as [i Hi].
      apply lookup_take_Some in Hi as [Hi _]. rewrite lookup_drop in Hi.
      by eapply list_elem_of_lookup_2. }
    destruct (Hrows _ Hin) as [Hw Hpx].
    split; [apply slice_in_range_length; lia|].
    rewrite slice_in_range by lia. by apply Forall_take, Forall_drop.
  - intros i j Hi Hj.
    destruct (lookup_lt_is_Some_2 a (r0 + i)) as [row0 Hrow0]; [lia|].
    exists row0, (py.slice (Z.of_nat c0) (Z.of_nat c1) row0).
    split; [done|]. split.
    + rewrite list_lookup_fmap, slice_in_range_lookup by lia. by rewrite Hrow0.
    + assert (Hin : row0 ∈ a) by (by eapply list_elem_of_lookup_2).
      destruct (Hrows _ Hin) as [Hw _].
      apply slice_in_range_lookup; lia.
Qed.

(** X15. On a normalized image of shape (H, W, 3) and for bounds with
    0 <= y0 <= y1 <= H and 0 <= x0 <= x1 <= W, [crop] returns a new
    array of shape (y1-y0, x1-x0, 3) whose pixel (i, j) is pixel
    (y0+i, x0+j) of the image; the image itself is not changed. *)
Theorem crop_in_range (σ : gmap loc ndarray) (p : loc) (a : image sample)
    (H W y0 y1 x0 x1 : nat) :
  σ !! p = Some (Rank3 a) →
  nd.rect H W a →
  (y0 ≤ y1 ≤ H)%nat → (x0 ≤ x1 ≤ W)%nat →
  ∃ b,
    crop_body (VArr p)
        ((Z.of_nat y0, Z.of_nat y1), (Z.of_nat x0, Z.of_nat x1)) σ
      = Returns (VArr (fresh_loc σ)) (<[fresh_loc σ := Rank3 b]> σ) ∧
    nd.rect (y1 - y0) (x1 - x0) b ∧
    ∀ i j, (i < y1 - y0)%nat → (j < x1 - x0)%nat →
      ∃ row0 row, a !! (y0 + i)%nat = Some row0 ∧ b !! i = Some row ∧
        row !! j = row0 !! (x0 + j)%nat.
Proof.
  intros Hp Ha Hy Hx. eexists. split.
  - unfold crop_body. cbn [fst snd]. by rewrite (window_array _ _ _ Hp).
  - by apply (window_in_range a H W).
Qed.

Lemma crop_in_range_witness :
  let px3 (n : Z) : list Q := [inject_Z n; inject_Z n; inject_Z n] in
  let a : image sample := [[px3 1; px3 2; px3 3]; [px3 4; px3 5; px3 6]] in
  let σ : gmap loc ndarray := {[ 0%nat := Rank3 a ]} in
  ∃ b,
    crop_body (VArr 0%nat) ((1, 2), (1, 3)) σ
      = Returns (VArr (fresh_loc σ)) (<[fresh_loc σ := Rank3 b]> σ) ∧
    nd.rect 1 2 b.
Proof.
  intros px3 a σ.
  destruct (crop_in_range σ 0%nat a 2 3 1 2 1 3) as (b & Hrun & Hb & _).
  - reflexivity.
  - split; [reflexivity|]. repeat constructor.
  - lia.
  - lia.
  - exists b. split; [exact Hrun|exact Hb].
Defined.

(** X16. [crop] checks no bounds and raises nothing on a normalized
    image: stops beyond the extents are clipped, so
    [[0, y1], [0, x1]] with y1 >= H and x1 >= W gives the whole image,
    and a row range whose stop is not after its start (both
    non-negative) gives an array with no rows. *)
Theorem crop_clips_and_empties (σ : gmap loc ndarray) (p : loc) (a : image sample)
    (H W : nat) (y0 y1 x0 x1 : Z) :
  σ !! p = Some (Rank3 a) →
  nd.rect H W a →
  (Z.of_nat H ≤ y1 → Z.of_nat W ≤ x1 →
     crop_body (VArr p) ((0, y1), (0, x1)) σ
     = Returns (VArr (fresh_loc σ)) (<[fresh_loc σ := Rank3 a]> σ)) ∧
  (0 ≤ y1 ≤ y0 →
     crop_body (VArr p) ((y0, y1), (x0, x1)) σ
     = Returns (VArr (fresh_loc σ)) (<[fresh_loc σ := Rank3 []]> σ)).
Proof.
  intros Hp [Hlen Hrows]. unfold crop_body. cbn [fst snd].
  rewrite !(window_array _ _ _ Hp). unfold nd.window. split.
  - intros Hy Hx. rewrite slice_clipped by lia. do 3 f_equal.
    rewrite <- (list_fmap_id a) at 2. apply Forall_fmap_ext_1.
    eapply Forall_impl; [exact Hrows|]. intros r [Hr _]. simpl.
    apply slice_clipped. lia.
  - intros Hy. by rewrite slice_empty.
Qed.

Lemma crop_clips_and_empties_witness :
  let px3 (n : Z) : list Q := [inject_Z n; inject_Z n; inject_Z n] in
  let a : image sample := [[px3 1; px3 2]; [px3 3; px3 4]] in
  let σ : gmap loc ndarray := {[ 0%nat := Rank3 a ]} in
  crop_body (VArr 0%nat) ((0, 50), (0, 70)) σ
    = Returns (VArr (fresh_loc σ)) (<[fresh_loc σ := Rank3 a]> σ) ∧
  crop_body (VArr 0%nat) ((2, 1), (0, 2)) σ
    = Returns (VArr (fresh_loc σ)) (<[fresh_loc σ := Rank3 []]> σ).
Proof.
  intros px3 a σ.
  destruct (crop_clips_and_empties σ 0%nat a 2 2 2 50 0 70) as [Hclip _].
  - reflexivity.
  - split; [reflexivity|]. repeat constructor.
  - destruct (crop_clips_and_empties σ 0%nat a 2 2 2 1 0 2) as [_ Hempty].
    + reflexivity.
    + split; [reflexivity|]. repeat constructor.
    + split; [apply Hclip; simpl; lia|apply Hempty; lia].
Defined.




Lemma zoom_body_runs (σ : gmap loc ndarray) (p : loc) (a : image sample)
    (fac : zoomfac) :
  σ !! p = Some (Rank3 a) →
  zoom_body (VArr p) fac σ
  = Returns (VArr (fresh_loc σ))
      (<[fresh_loc σ :=
           Rank3 (nd.window
                    (zoom_bounds (Z.of_nat (nd.nrows a)) (zoom_fac fac).1).1
                    (zoom_bounds (Z.of_nat (nd.nrows a)) (zoom_fac fac).1).2
                    (zoom_bounds (Z.of_nat (nd.ncols a)) (zoom_fac fac).2).1
                    (zoom_bounds (Z.of_nat (nd.ncols a)) (zoom_fac fac).2).2 a)]> σ).
Proof.
  intros Hp. unfold zoom_body.
  rewrite (bind_returns _ _ _ _ _ (shape_array _ _ _ Hp)).
  cbv beta iota zeta. by rewrite (window_array _ _ _ Hp).
Qed.




Lemma zoom_bounds_half (m : Z) : zoom_bounds (4 * m) (1 # 2) = (m, 3 * m).
Proof.
  unfold zoom_bounds. f_equal; apply int_exact; rewrite !inject_Z_mult;
    change (inject_Z 4) with 4%Q; change (inject_Z 3) with 3%Q;
    setoid_replace (1 # 2)%Q with (1 / 2)%Q using relation Qeq by reflexivity;
    field.
Qed.

(** X18. With the default factor 0.5, on a normalized image whose
    height and width are multiples of 4, [zoom] returns the centre
    block: rows [H/4, 3H/4) and columns [W/4, 3W/4), an array of shape
    (H/2, W/2, 3). *)
Theorem zoom_default_is_centre_half (σ : gmap loc ndarray) (p : loc)
    (a : image sample) (m n : nat) :
  σ !! p = Some (Rank3 a) →
  nd.rect (4 * m) (4 * n) a →
  (0 < m)%nat →
  ∃ b,
    zoom_body (VArr p) (Scalar (1 # 2)) σ
      = Returns (VArr (fresh_loc σ)) (<[fresh_loc σ := Rank3 b]> σ) ∧
    nd.rect (2 * m) (2 * n) b ∧
    ∀ i j, (i < 2 * m)%nat → (j < 2 * n)%nat →
      ∃ row0 row, a !! (m + i)%nat = Some row0 ∧ b !! i = Some row ∧
        row !! j = row0 !! (n + j)%nat.
Proof.
  intros Hp Ha Hm. rewrite (zoom_body_runs _ _ _ _ Hp).
  rewrite (rect_ncols _ _ _ Ha) by lia. pose proof Ha as [Hlen _].
  unfold nd.nrows. rewrite Hlen.
  change (zoom_fac (Scalar (1 # 2))) with ((1 # 2)%Q, (1 # 2)%Q). cbn [fst snd].
  rewrite !Nat2Z.inj_mul. change (Z.of_nat 4) with 4.
  rewrite !zoom_bounds_half. cbn [fst snd].
  eexists. split; [reflexivity|].
  change 3 with (Z.of_nat 3). rewrite <- !Nat2Z.inj_mul.
  destruct (window_in_range a (4 * m) (4 * n) m (3 * m) n (3 * n) Ha)
    as [Hb Hpx]; [lia..|].
  replace (3 * m - m)%nat with (2 * m)%nat in * by lia.
  replace (3 * n - n)%nat with (2 * n)%nat in * by lia.
  split; [exact Hb|exact Hpx].
Qed.

Lemma zoom_default_is_centre_half_witness :
  let px3 (n : Z) : list Q := [inject_Z n; inject_Z n; inject_Z n] in
  let a : image sample :=
    [[px3 1; px3 2; px3 3; px3 4]; [px3 5; px3 6; px3 7; px3 8];
     [px3 9; px3 10; px3 11; px3 12]; [px3 13; px3 14; px3 15; px3 16]] in
  let σ : gmap loc ndarray := {[ 0%nat := Rank3 a ]} in
  ∃ b,
    zoom_body (VArr 0%nat) (Scalar (1 # 2)) σ
      = Returns (VArr (fresh_loc σ)) (<[fresh_loc σ := Rank3 b]> σ) ∧
    nd.rect 2 2 b.
Proof.
  intros px3 a σ.
  destruct (zoom_default_is_centre_half σ 0%nat a 1 1) as (b & Hrun & Hb & _).
  - reflexivity.
  - split; [reflexivity|]. repeat constructor.
  - lia.
  - exists b. split; [exact Hrun|exact Hb].
Defined.

(** ** The rank dispatch of the normalizer *)

Lemma dstack3_rect (g : list (list sample)) (H W : nat) :
  length g = H → Forall (λ r, length r = W) g →
  nd.rect H W (nd.dstack3 g).
Proof.
  intros Hlen Hrows. unfold nd.dstack3. split; [by rewrite length_fmap|].
  apply Forall_fmap. eapply Forall_impl; [exact Hrows|]. intros r Hr. simpl.
  split; [by rewrite length_fmap|]. apply Forall_fmap, Forall_true. done.
Qed.

(** X20. Given a rank-2 array of shape (H, W), the rank dispatch of the
    normalizer returns a new array of shape (H, W, 3) whose pixel
    (i, j) holds the sample (i, j) of the input three times; the input
    array is left as it was. *)
Theorem force_rank_stacks_gray (σ : gmap loc ndarray) (p : loc)
    (g : list (list sample)) (H W : nat) :
  σ !! p = Some (Rank2 g) →
  length g = H → Forall (λ r, length r = W) g →
  ∃ b,
    force_rank (VArr p) σ
      = Returns (VArr (fresh_loc σ)) (<[fresh_loc σ := Rank3 b]> σ) ∧
    <[fresh_loc σ := Rank3 b]> σ !! p = Some (Rank2 g) ∧
    nd.rect H W b ∧
    ∀ i j r x, g !! i = Some r → r !! j = Some x →
      ∃ row, b !! i = Some row ∧ row !! j = Some [x; x; x].
Proof.
  intros Hp Hlen Hrows. exists (nd.dstack3 g).
  split; [by apply force_rank_gray|]. split; [by apply lookup_alloc_other|].
  split; [by apply dstack3_rect|].
  intros i j r x Hi Hj. unfold nd.dstack3. eexists.
  split; [by rewrite list_lookup_fmap, Hi|]. by rewrite list_lookup_fmap, Hj.
Qed.

Lemma force_rank_stacks_gray_witness :
  let g : list (list sample) := [[7%Q; 8%Q]] in
  let σ : gmap loc ndarray := {[ 0%nat := Rank2 g ]} in
  ∃ b,
    force_rank (VArr 0%nat) σ
      = Returns (VArr (fresh_loc σ)) (<[fresh_loc σ := Rank3 b]> σ) ∧
    nd.rect 1 2 b.
Proof.
  intros g σ.
  destruct (force_rank_stacks_gray σ 0%nat g 1 2) as (b & Hrun & _ & Hb & _).
  - reflexivity.
  - reflexivity.
  - repeat constructor.
  - exists b. split; [exact Hrun|exact Hb].
Defined.

(** X21. The rank dispatch is idempotent on arrays of rank 2 or 3: run
    on its own result it returns that same object and leaves the store
    as it is. For an array of any other rank it raises nothing and
    returns [None] with the store unchanged, and [None] in turn has no
    [shape]: a second run raises AttributeError. *)
Theorem force_rank_idempotent (σ : gmap loc ndarray) (p : loc) (x : ndarray) :
  σ !! p = Some x →
  (ndim x = 2%nat ∨ ndim x = 3%nat →
     ∃ v σ', force_rank (VArr p) σ = Returns v σ' ∧
             force_rank v σ' = Returns v σ') ∧
  (ndim x ≠ 2%nat → ndim x ≠ 3%nat →
     force_rank (VArr p) σ = Returns VNone σ ∧
     force_rank VNone σ = Raises AttributeError σ).
Proof.
  intros Hp. split.
  - intros Hrank. destruct x as [|l|g|a|k]; simpl in Hrank; try lia.
    + eexists _, _. split; [by apply force_rank_gray|].
      apply (force_rank_rgb _ _ (nd.dstack3 g)), lookup_insert_eq.
    + eexists _, _. split; by apply (force_rank_rgb _ _ a).
  - intros H2 H3. split; [|done]. unfold force_rank.
    assert (E : np.shape_len (VArr p) σ = Returns (ndim x) σ).
    { unfold np.shape_len. by rewrite Hp. }
    rewrite (bind_returns _ _ _ _ _ E).
    destruct (decide (ndim x = 3%nat)); [done|].
    by destruct (decide (ndim x = 2%nat)).
Qed.

Lemma force_rank_idempotent_witness :
  let σ : gmap loc ndarray :=
    {[ 0%nat := Rank2 [[7%Q; 8%Q]]; 1%nat := Rank1 [1%Q; 2%Q] ]} in
  (∃ v σ', force_rank (VArr 0%nat) σ = Returns v σ' ∧
           force_rank v σ' = Returns v σ') ∧
  force_rank (VArr 1%nat) σ = Returns VNone σ.
Proof.
  intros σ.
  destruct (force_rank_idempotent σ 0%nat (Rank2 [[7%Q; 8%Q]]) eq_refl) as [Hidem _].
  destruct (force_rank_idempotent σ 1%nat (Rank1 [1%Q; 2%Q]) eq_refl) as [_ Hnone].
  split.
  - apply Hidem. left. reflexivity.
  - apply Hnone; simpl; lia.
Defined.

(** ** Properties of the script *)

Module lisa_facts.
Import lisa.

Lemma length_append (s1 s2 : string) :
  String.length (s1 +:+ s2) = (String.length s1 + String.length s2)%nat.
Proof. induction s1 as [|c s1 IH]; simpl; [done|]. by rewrite IH. Qed.

Lemma append_inj_r (s1 s2 t : string) : s1 +:+ t = s2 +:+ t → s1 = s2.
Proof.
  revert s2. induction s1 as [|c s1 IH]; intros [|d s2] E.
  - done.
  - apply (f_equal String.length) in E. rewrite !length_append in E.
    simpl in E. lia.
  - apply (f_equal String.length) in E. rewrite !length_append in E.
    simpl in E. lia.
  - change (String c (s1 +:+ t) = String d (s2 +:+ t)) in E.
    injection E as -> E. f_equal. by apply IH.
Qed.

Lemma append_assoc (s1 s2 s3 : string) : (s1 +:+ s2) +:+ s3 = s1 +:+ s2 +:+ s3.
Proof.
  induction s1 as [|c s1 IH]; [done|].
  change (String c ((s1 +:+ s2) +:+ s3) = String c (s1 +:+ s2 +:+ s3)).
  by f_equal.
Qed.

Lemma green_name_inj k1 k2 : green_name k1 = green_name k2 → k1 = k2.
Proof.
  unfold green_name. intros E. do 2 apply String.app_inj in E.
  apply append_inj_r in E. by apply (inj pretty) in E.
Qed.

Lemma red_name_inj k1 k2 : red_name k1 = red_name k2 → k1 = k2.
Proof.
  unfold red_name. intros E. do 2 apply String.app_inj in E.
  apply append_inj_r in E. by apply (inj pretty) in E.
Qed.

Lemma green_name_not_red k1 k2 : green_name k1 ≠ red_name k2.
Proof. unfold green_name, red_name. simpl. discriminate. Qed.

Lemma div_200_succ (c : nat) :
  (S c / 200 = if decide (S c `mod` 200 = 0) then S (c / 200) else c / 200)%nat.
Proof.
  pose proof (Nat.div_mod_eq c 200). pose proof (Nat.div_mod_eq (S c) 200).
  pose proof (Nat.mod_upper_bound c 200). pose proof (Nat.mod_upper_bound (S c) 200).
  destruct (decide (S c `mod` 200 = 0)%nat); lia.
Qed.

Section rows.
Variable fromarray_raises : image sample → option exn.
Variable save_raises : string → image sample → option exn.

(** The functions of the script at the two parameters. *)
Abbreviation process_row := (process_row fromarray_raises save_raises).
Abbreviation process_rows := (process_rows fromarray_raises save_raises).
Abbreviation process_clip := (process_clip fromarray_raises save_raises).
Abbreviation process_clips := (process_clips fromarray_raises save_raises).
Abbreviation script := (script fromarray_raises save_raises).
Abbreviation kept := (kept fromarray_raises).
Abbreviation culprit := (culprit fromarray_raises save_raises).
Abbreviation adds := (adds fromarray_raises).
Abbreviation covers := (covers fromarray_raises save_raises).

(** *** The counters, the names and the arrays *)

Lemma tidy_counted s g r :
  tidy s → (green_cnt s ≤ g)%nat → (red_cnt s ≤ r)%nat →
  tidy {| cnt := cnt s; green_cnt := g; red_cnt := r;
          saved := saved s; printed := printed s |}.
Proof.
  intros [Hnodup Hnum] Hg Hr. split; [done|]. cbn [saved].
  eapply Forall_impl; [exact Hnum|].
  intros name [(k & Hk & ->)|(k & Hk & ->)]; [left|right]; exists k;
    cbn [green_cnt red_cnt]; (split; [lia|done]).
Qed.

Lemma tidy_saved s name img c l :
  tidy s → numbered s name → name ∉ (saved s).*1 →
  tidy {| cnt := c; green_cnt := green_cnt s; red_cnt := red_cnt s;
          saved := saved s ++ [(name, img)]; printed := l |}.
Proof.
  intros [Hnodup Hnum] Hname Hnew. split; cbn [saved]; rewrite fmap_app.
  - apply NoDup_app. split; [done|]. split; [|apply NoDup_singleton].
    intros x Hx Hx'. apply list_elem_of_singleton in Hx' as ->. done.
  - apply Forall_app. split; [exact Hnum|]. by apply Forall_singleton.
Qed.

Lemma green_name_new s :
  tidy s → green_name (S (green_cnt s)) ∉ (saved s).*1.
Proof.
  intros [_ Hnum] Hin. rewrite Forall_forall in Hnum.
  destruct (Hnum _ Hin) as [(k & Hk & E)|(k & Hk & E)].
  - apply green_name_inj in E. lia.
  - by apply green_name_not_red in E.
Qed.

Lemma red_name_new s :
  tidy s → red_name (S (red_cnt s)) ∉ (saved s).*1.
Proof.
  intros [_ Hnum] Hin. rewrite Forall_forall in Hnum.
  destruct (Hnum _ Hin) as [(k & Hk & E)|(k & Hk & E)].
  - symmetry in E. by apply green_name_not_red in E.
  - apply red_name_inj in E. lia.
Qed.

Lemma adds_nothing s : adds s s [] [].
Proof.
  unfold adds. rewrite !filter_nil. simpl. rewrite app_nil_r.
  repeat apply conj; (done || lia).
Qed.

Lemma adds_then s s1 s2 c1 w1 c2 w2 :
  adds s s1 c1 w1 → adds s1 s2 c2 w2 → adds s s2 (c1 ++ c2) (w1 ++ w2).
Proof.
  intros (Eg & Er & Ec & Es) (Eg' & Er' & Ec' & Es'). unfold adds.
  rewrite !filter_app, !length_app, fmap_app, Eg', Er', Ec', Es', Eg, Er, Ec, Es.
  repeat apply conj; try lia. by rewrite <- app_assoc.
Qed.

(** What a tagged row does once its counter has been advanced. *)
Lemma save_cut_covers s0 s row name :
  tidy s →
  tagged row →
  cnt s = cnt s0 → saved s = saved s0 →
  green_cnt s = (green_cnt s0 + length (filter (λ r, tag r = "go") [row]))%nat →
  red_cnt s = (red_cnt s0 + length (filter (λ r, tag r = "stop") [row]))%nat →
  numbered s name → name ∉ (saved s).*1 →
  covers s0 [row] (save_cut fromarray_raises save_raises s row name).
Proof.
  intros Htidy Htag Ec Es Eg Er Hname Hnew. unfold save_cut.
  assert (Hskip : ¬ converted fromarray_raises row → adds s0 s [row] [row]).
  { intros Hno. unfold lisa.adds. rewrite Eg, Er, Ec, Es.
    rewrite (filter_cons (lisa.kept fromarray_raises)), filter_nil.
    rewrite decide_False by (intros [_ ?]; done). simpl. rewrite app_nil_r.
    repeat apply conj; (done || lia). }
  assert (Hstop : adds s0 s ([] ++ [row]) []).
  { unfold lisa.adds. rewrite Eg, Er, Ec, Es, filter_nil. simpl.
    rewrite app_nil_r. repeat apply conj; (done || lia). }
  assert (Hended : ∀ e, culprit row e → covers s0 [row] (Ended s e)).
  { intros e He. split; [done|]. by exists [], row, []. }
  destruct (cut row) as [newimg|e] eqn:Hcut; [|apply Hended; by left].
  destruct (fromarray_raises newimg) as [e|] eqn:Hfa.
  - assert (Hother : e ≠ ValueError → covers s0 [row] (Ended s e)).
    { intros He. apply Hended. right. exists newimg. split; [done|]. by left. }
    destruct e; try (apply Hother; discriminate).
    split; [done|]. apply Hskip. unfold converted. rewrite Hcut, Hfa. discriminate.
  - destruct (save_raises name newimg) as [e|] eqn:Hsave.
    + apply Hended. right. exists newimg. split; [done|]. right.
      split; [done|]. by exists name.
    + split; [by apply tidy_saved|].
      unfold lisa.adds. cbn [cnt green_cnt red_cnt saved]. rewrite Eg, Er, Ec, Es.
      rewrite (filter_cons (lisa.kept fromarray_raises)), filter_nil.
      rewrite decide_True
        by (split; [done|]; unfold converted; by rewrite Hcut).
      rewrite !fmap_app. simpl. rewrite Hcut.
      repeat apply conj; (done || lia).
Qed.

Lemma process_row_covers s row :
  tidy s → covers s [row] (process_row s row).
Proof.
  intros Htidy. unfold lisa.process_row.
  destruct (decide (tag row = "go")) as [Hgo|Hgo];
    [|destruct (decide (tag row = "stop")) as [Hstop|Hstop]].
  - assert (Hns : tag row ≠ "stop") by (rewrite Hgo; discriminate).
    apply save_cut_covers; cbn [cnt green_cnt red_cnt saved].
    + apply tidy_counted; [done|lia|lia].
    + by left.
    + done.
    + done.
    + rewrite filter_cons, filter_nil, decide_True by done. simpl. lia.
    + rewrite filter_cons, filter_nil, decide_False by done. simpl. lia.
    + left. exists (S (green_cnt s)). cbn [green_cnt]. split; [lia|done].
    + by apply green_name_new.
  - apply save_cut_covers; cbn [cnt green_cnt red_cnt saved].
    + apply tidy_counted; [done|lia|lia].
    + by right.
    + done.
    + done.
    + rewrite filter_cons, filter_nil, decide_False by done. simpl. lia.
    + rewrite filter_cons, filter_nil, decide_True by done. simpl. lia.
    + right. exists (S (red_cnt s)). cbn [red_cnt]. split; [lia|done].
    + by apply red_name_new.
  - split; [done|]. unfold lisa.adds.
    rewrite !filter_cons, !filter_nil.
    rewrite (decide_False (P := tag row = "go")) by done.
    rewrite (decide_False (P := tag row = "stop")) by done.
    rewrite decide_False by (intros [[?|?] _]; done). simpl.
    rewrite app_nil_r. repeat apply conj; (done || lia).
Qed.

(** One stretch of rows after another. *)
Lemma covers_then s rows1 rows2 pr (k : run → progress) :
  covers s rows1 pr →
  (∀ s1, tidy s1 → covers s1 rows2 (k s1)) →
  covers s (rows1 ++ rows2)
    (match pr with Going s1 => k s1 | Ended s1 e => Ended s1 e end).
Proof.
  intros Hpr Hk. destruct pr as [s1|s1 e].
  - destruct Hpr as [Ht1 Ha1]. specialize (Hk s1 Ht1).
    destruct (k s1) as [s2|s2 e].
    + destruct Hk as [Ht2 Ha2]. split; [done|]. by eapply adds_then.
    + destruct Hk as (Ht2 & done & row & rest & -> & Htag & Hc & Ha2).
      split; [done|]. exists (rows1 ++ done), row, rest.
      split; [by rewrite <- app_assoc|]. split; [done|]. split; [done|].
      rewrite <- app_assoc. by eapply adds_then.
  - destruct Hpr as (Ht1 & done & row & rest & -> & Htag & Hc & Ha1).
    split; [done|]. exists done, row, (rest ++ rows2).
    split; [by rewrite <- app_assoc|]. done.
Qed.

Lemma process_rows_covers rows : ∀ s,
  tidy s → covers s rows (process_rows s rows).
Proof.
  induction rows as [|row rows IH]; intros s Htidy.
  - split; [done|]. apply adds_nothing.
  - change (row :: rows) with ([row] ++ rows).
    apply (covers_then s [row] rows (process_row s row) (λ s1, process_rows s1 rows)).
    + by apply process_row_covers.
    + exact IH.
Qed.

Lemma process_clip_covers s s_num rows :
  tidy s → covers s rows (process_clip s s_num rows).
Proof.
  intros Htidy. pose proof (process_rows_covers rows s Htidy) as H.
  unfold lisa.process_clip. by destruct (process_rows s rows) as [s1|s1 e].
Qed.

Lemma process_clips_covers (annotations : nat → list annotation) ns : ∀ s,
  tidy s →
  covers s (concat (annotations <$> ns)) (process_clips annotations s ns).
Proof.
  induction ns as [|n ns IH]; intros s Htidy.
  - split; [done|]. apply adds_nothing.
  - change (concat (annotations <$> n :: ns))
      with (annotations n ++ concat (annotations <$> ns)).
    apply (covers_then s _ _ (process_clip s n (annotations n))
             (λ s1, process_clips annotations s1 ns)).
    + by apply process_clip_covers.
    + exact IH.
Qed.

Lemma script_covers (annotations : nat → list annotation) :
  covers start (all_rows annotations) (script annotations).
Proof.
  assert (Hstart : tidy start) by (split; [apply NoDup_nil_2|apply Forall_nil_2]).
  pose proof (process_clips_covers annotations (seq 1 13) start Hstart) as H.
  unfold lisa.script, all_rows.
  by destruct (process_clips annotations start (seq 1 13)) as [s1|s1 e].
Qed.

Lemma kept_at_most_tagged (rows : list annotation) :
  (length (filter kept rows) ≤
   length (filter (λ r, tag r = "go") rows) +
   length (filter (λ r, tag r = "stop") rows))%nat.
Proof.
  induction rows as [|row rows IH]; [done|].
  rewrite !(filter_cons _ row).
  destruct (decide (kept row)) as [[[Hgo|Hstop] _]|Hno].
  - rewrite (decide_True (P := tag row = "go")) by done.
    destruct (decide (tag row = "stop")); simpl; lia.
  - rewrite (decide_True (P := tag row = "stop")) by done.
    destruct (decide (tag row = "go")); simpl; lia.
  - destruct (decide (tag row = "go")), (decide (tag row = "stop")); simpl; lia.
Qed.

Lemma tagged_counts_one (row : annotation) :
  tagged row →
  (length (filter (λ r, tag r = "go") [row]) +
   length (filter (λ r, tag r = "stop") [row]) = 1)%nat.
Proof.
  intros Htag. rewrite !filter_cons, !filter_nil.
  destruct (decide (tag row = "go")) as [Hgo|Hgo].
  - rewrite decide_False by (rewrite Hgo; discriminate). done.
  - destruct Htag as [?|Hstop]; [done|]. by rewrite decide_True.
Qed.

(** X22. When the script ends after the last clip, [green_cnt] is the
    number of rows tagged 'go' and [red_cnt] the number tagged 'stop' in
    the thirteen tables, whether or not their cut could be converted;
    [cnt] is the number of files saved, which is the number of tagged
    rows whose cut was converted, hence at most [green_cnt + red_cnt].
    When an exception that is not caught ends it at a row, that row is
    tagged and has been counted by the counter of its tag but not by
    [cnt]: the counters are those of the rows up to and including it,
    [cnt] is the number of files saved, all from rows before it, and
    [cnt < green_cnt + red_cnt]. *)
Theorem script_counters (annotations : nat → list annotation) :
  let rows := all_rows annotations in
  match script annotations with
  | Going s =>
      green_cnt s = length (filter (λ r, tag r = "go") rows) ∧
      red_cnt s = length (filter (λ r, tag r = "stop") rows) ∧
      cnt s = length (saved s) ∧
      cnt s = length (filter kept rows) ∧
      (cnt s ≤ green_cnt s + red_cnt s)%nat
  | Ended s e =>
      ∃ done row rest,
        rows = done ++ row :: rest ∧
        tagged row ∧
        culprit row e ∧
        green_cnt s = length (filter (λ r, tag r = "go") (done ++ [row])) ∧
        red_cnt s = length (filter (λ r, tag r = "stop") (done ++ [row])) ∧
        cnt s = length (saved s) ∧
        cnt s = length (filter kept done) ∧
        (cnt s < green_cnt s + red_cnt s)%nat
  end.
Proof.
  intros rows. pose proof (script_covers annotations) as H. fold rows in H.
  destruct (script annotations) as [s|s e].
  - destruct H as (_ & Eg & Er & Ec & Es).
    change (green_cnt start) with 0%nat in Eg.
    change (red_cnt start) with 0%nat in Er.
    change (cnt start) with 0%nat in Ec.
    change (Ok <$> (saved start).*2) with (@nil (result (image sample))) in Es.
    rewrite Nat.add_0_l in Eg, Er, Ec. rewrite app_nil_l in Es.
    repeat apply conj; [done|done| |done|].
    + apply (f_equal length) in Es. rewrite !length_fmap in Es. lia.
    + rewrite Eg, Er, Ec. apply kept_at_most_tagged.
  - destruct H as (_ & done & row & rest & Hrows & Htag & Hc & Eg & Er & Ec & Es).
    change (green_cnt start) with 0%nat in Eg.
    change (red_cnt start) with 0%nat in Er.
    change (cnt start) with 0%nat in Ec.
    change (Ok <$> (saved start).*2) with (@nil (result (image sample))) in Es.
    rewrite Nat.add_0_l in Eg, Er, Ec. rewrite app_nil_l in Es.
    exists done, row, rest. repeat apply conj; [done|done|done|done|done| |done|].
    + apply (f_equal length) in Es. rewrite !length_fmap in Es. lia.
    + rewrite Eg, Er, Ec, !filter_app, !length_app.
      pose proof (kept_at_most_tagged done). pose proof (tagged_counts_one row Htag).
      lia.
Qed.

(** X23. However the script ends, no two files saved have the same
    name, so the script never overwrites a file it has written; every
    name is green_k with 1 <= k <= green_cnt or red_k with
    1 <= k <= red_cnt. *)
Theorem script_never_overwrites (annotations : nat → list annotation) :
  let s := state (script annotations) in
  NoDup (saved s).*1 ∧ Forall (numbered s) (saved s).*1.
Proof.
  intros s. subst s. pose proof (script_covers annotations) as H.
  destruct (script annotations) as [s|s e]; by destruct H as [Ht _].
Qed.

(** X24. When the script ends after the last clip, the arrays saved
    are, in the order of the tables, the cuts
    [frame[uly:lry, ulx:lrx, :]] of the rows tagged 'go' or 'stop' whose
    cut was converted, each of them taken from a frame with three axes;
    rows with any other tag leave nothing. When an exception that is
    not caught ends it at a row, the arrays saved are those cuts for
    the rows before that row, and nothing is saved from that row on. *)
Theorem script_saves_annotated_boxes (annotations : nat → list annotation) :
  let rows := all_rows annotations in
  let converted_row row :=
    (tag row = "go" ∨ tag row = "stop") ∧
    ∃ imgarr, frame row = Bands imgarr ∧
      fromarray_raises
        (nd.window (upper_left_y row) (lower_right_y row)
                   (upper_left_x row) (lower_right_x row) imgarr) = None in
  (∀ row, kept row ↔ converted_row row) ∧
  match script annotations with
  | Going s => Ok <$> (saved s).*2 = cut <$> filter kept rows
  | Ended s e =>
      ∃ done row rest,
        rows = done ++ row :: rest ∧
        culprit row e ∧
        Ok <$> (saved s).*2 = cut <$> filter kept done
  end.
Proof.
  intros rows converted_row. split.
  - intros row. unfold lisa.kept, converted, converted_row, cut, tagged.
    destruct (frame row) as [g|imgarr]; cbn [fst snd].
    + split; [by intros [_ []]|]. by intros (_ & imgarr & ? & _).
    + split.
      * intros [Htag Hconv]. split; [done|]. by exists imgarr.
      * intros (Htag & imgarr' & E & Hconv). split; [done|]. congruence.
  - pose proof (script_covers annotations) as H.
    fold rows in H. destruct (script annotations) as [s|s e].
    + by destruct H as (_ & _ & _ & _ & Es).
    + destruct H as (_ & done & row & rest & Hrows & _ & Hc & _ & _ & _ & Es).
      by exists done, row, rest.
Qed.

(** *** The lines printed *)

Lemma process_row_prints s row :
  let s' := state (process_row s row) in
  (length (printed s') + cnt s / 200 = length (printed s) + cnt s' / 200)%nat.
Proof.
  assert (Hsave : ∀ s1 name,
    cnt s1 = cnt s → printed s1 = printed s →
    let s' := state (save_cut fromarray_raises save_raises s1 row name) in
    (length (printed s') + cnt s / 200 = length (printed s) + cnt s' / 200)%nat).
  { intros s1 name Ec Ep. unfold save_cut.
    destruct (cut row) as [newimg|e]; [|cbn [state]; by rewrite Ec, Ep].
    destruct (fromarray_raises newimg) as [e|].
    - destruct e; cbn [state]; by rewrite Ec, Ep.
    - destruct (save_raises name newimg) as [e|]; cbn [state];
        [by rewrite Ec, Ep|].
      cbn [cnt printed]. rewrite Ec, Ep, (div_200_succ (cnt s)).
      destruct (decide (S (cnt s) `mod` 200 = 0)%nat);
        rewrite ?length_app; cbn [length]; lia. }
  unfold lisa.process_row.
  destruct (decide (tag row = "go")) as [Hgo|Hgo];
    [|destruct (decide (tag row = "stop")) as [Hstop|Hstop]];
    [by apply Hsave|by apply Hsave|done].
Qed.

Lemma process_rows_prints rows : ∀ s,
  let s' := state (process_rows s rows) in
  (length (printed s') + cnt s / 200 = length (printed s) + cnt s' / 200)%nat.
Proof.
  induction rows as [|row rows IH]; intros s; cbv zeta; [done|].
  pose proof (process_row_prints s row) as E1. cbv zeta in E1.
  cbn [lisa.process_rows].
  destruct (process_row s row) as [s1|s1 e]; cbn [state] in *; [|done].
  pose proof (IH s1) as E2. cbv zeta in E2. lia.
Qed.

Lemma process_clips_prints (annotations : nat → list annotation) ns : ∀ s,
  match process_clips annotations s ns with
  | Going s' =>
      (length (printed s') + cnt s / 200 =
       length (printed s) + cnt s' / 200 + length ns)%nat
  | Ended s' e =>
      ∃ c, (c < length ns)%nat ∧
        (length (printed s') + cnt s / 200 =
         length (printed s) + cnt s' / 200 + c)%nat
  end.
Proof.
  induction ns as [|n ns IH]; intros s; cbn [lisa.process_clips length]; [lia|].
  pose proof (process_rows_prints (annotations n) s) as E1. cbv zeta in E1.
  unfold lisa.process_clip.
  destruct (process_rows s (annotations n)) as [s1|s1 e]; cbn [state] in E1.
  - set (s2 := {| cnt := cnt s1; green_cnt := green_cnt s1; red_cnt := red_cnt s1;
                  saved := saved s1;
                  printed := printed s1 ++ ["Completed " +:+ pretty n] |}).
    assert (E2 : (length (printed s2) = length (printed s1) + 1)%nat)
      by (subst s2; cbn [printed]; rewrite length_app; cbn [length]; lia).
    assert (Ec2 : cnt s2 = cnt s1) by done.
    pose proof (IH s2) as E3.
    destruct (process_clips annotations s2 ns) as [s3|s3 e].
    + rewrite Ec2 in E3. lia.
    + destruct E3 as (c & Hc & E3). exists (S c). rewrite Ec2 in E3.
      split; lia.
  - exists 0%nat. split; lia.
Qed.

(** X25. When the script ends after the last clip it has printed one
    progress line for every 200th file saved, one line for each of the
    thirteen clips and three lines of totals: [cnt // 200 + 16] lines
    in all, the last three being the totals. When an exception that is
    not caught ends it, it has printed the progress lines and the lines
    of the clips completed before, twelve at most, and no totals. *)
Theorem script_prints (annotations : nat → list annotation) :
  match script annotations with
  | Going s =>
      length (printed s) = (cnt s / 200 + 16)%nat ∧
      drop (cnt s / 200 + 13) (printed s) =
        ["All done, total: " +:+ pretty (cnt s);
         "Green: " +:+ pretty (green_cnt s);
         "Red: " +:+ pretty (red_cnt s)]
  | Ended s e =>
      ∃ completed, (completed ≤ 12)%nat ∧
        length (printed s) = (cnt s / 200 + completed)%nat
  end.
Proof.
  unfold lisa.script.
  pose proof (process_clips_prints annotations (seq 1 13) start) as E.
  destruct (process_clips annotations start (seq 1 13)) as [s|s e].
  - change (cnt start / 200)%nat with 0%nat in E.
    change (length (printed start)) with 0%nat in E. rewrite length_seq in E.
    assert (El : length (printed s) = (cnt s / 200 + 13)%nat) by lia.
    cbn [cnt green_cnt red_cnt printed]. split.
    + rewrite length_app. cbn [length]. lia.
    + rewrite <- El. by rewrite drop_app_length.
  - destruct E as (c & Hc & E).
    change (cnt start / 200)%nat with 0%nat in E.
    change (length (printed start)) with 0%nat in E. rewrite length_seq in Hc.
    exists c. split; lia.
Qed.
End rows.

(** X26. The path of the directory the files are saved into is the
    working directory's path with 'processed/day' appended and no
    separator of the script's own in between: it never has the form
    [home_dir + '/' + rest]. *)
Theorem output_directory_not_below_home (home_dir rest : string) :
  new_folder_loc2 home_dir ≠ home_dir +:+ "/" +:+ rest.
Proof.
  unfold new_folder_loc2, new_folder_loc1. rewrite append_assoc.
  intros E. apply String.app_inj in E. discriminate.
Qed.

End lisa_facts.
